(** * matchering-mx: the mixing and mastering worker of [main.py]

    A shallow embedding of [main.py] (the storage helpers, the mixer, the
    notifier and [lambda_handler]) together with the properties of its
    orchestration contract.

    The program is effectful Python.  It is embedded as functions in a
    state-and-exception monad over a [World] that holds the local file
    system, the one module global that the handler assigns and the
    chronological list of every external interaction.  The external
    collaborators (S3, the webhook, pydub decoding, the mastering library,
    [os.remove]) are answers of an environment [Env] that may depend on the
    whole history so far. *)

From stdpp Require Import gmap strings list pretty.
From Stdlib Require Import ZArith Lia Ascii.

Open Scope string_scope.
Open Scope list_scope.
Open Scope Z_scope.

(** ** Python values and exceptions *)

(** The values that [body.get] hands to the handler.  The Job schema has
    integer and string fields; a missing key and JSON [null] both read as
    [None].  JSON arrays, objects and floats are outside this model. *)
Inductive pyval : Type :=
| PNone
| PBool (b : bool)
| PInt (z : Z)
| PStr (s : string).

(** [str s != ""] *)
Definition nonempty (s : string) : bool := negb (String.eqb s "").

(** Python truthiness, as used by [if not track_id]. *)
Definition truthy (v : pyval) : bool :=
  match v with
  | PNone => false
  | PBool b => b
  | PInt z => negb (z =? 0)
  | PStr s => nonempty s
  end.

(** [str(v)], as used by f-strings. *)
Definition py_str (v : pyval) : string :=
  match v with
  | PNone => "None"
  | PBool true => "True"
  | PBool false => "False"
  | PInt z => pretty z
  | PStr s => s
  end.

(** [str] of an optional string ([os.getenv] gives a string or [None]). *)
Definition opt_str (o : option string) : string := default "None" o.

(** The exception classes that occur; all of them derive from [Exception]. *)
Inductive exn : Type :=
| ValueError (msg : string)
| KeyError (key : string)
| AttributeError (msg : string)
| NameError (name : string)
| JSONDecodeError (msg : string)
| ClientError (code : string) (msg : string)   (* botocore.exceptions.ClientError *)
| RequestException (msg : string)              (* requests.exceptions.RequestException *)
| PlainException (msg : string)                (* [Exception(msg)] *)
| OtherException (cls : string) (msg : string).

(** [str(e)] *)
Definition exn_str (e : exn) : string :=
  match e with
  | ValueError m => m
  | KeyError k => "'" +:+ k +:+ "'"
  | AttributeError m => m
  | NameError n => "name '" +:+ n +:+ "' is not defined"
  | JSONDecodeError m => m
  | ClientError _ m => m
  | RequestException m => m
  | PlainException m => m
  | OtherException _ m => m
  end.

(** ** Data of the program *)

(** The webhook payload built by [notify_system_api]. *)
Record Payload : Type := mkPayload {
  p_songID : pyval;
  p_stage : string;
  p_action : string;
  p_fileName : option string;
  p_errMsg : option string
}.

(** Decoded audio: one sample per time unit of [len(segment)]. *)
Definition AudioSegment : Type := list Z.

Inductive level : Type := INFO | WARNING | ERROR.

(** One external interaction of the program. *)
Inductive effect : Type :=
| ELog (lvl : level) (msg : string)
| EPrint (p : Payload)
| EPost (url : option string) (p : Payload)
| EHead (bucket : option string) (key : string)
| ESleep (secs : Z)
| EDownload (bucket : option string) (key path : string)
| EUpload (path : string) (bucket : option string) (key : string)
| EFromWav (path : string)
| EExport
| EMaster (reference output : string)
| ERemove (path : string).

Record World : Type := mkWorld {
  fs : gset string;                                      (* existing local files *)
  LAMBDA_STATIC_INSTRUMENTAL_WAV_PATH : option string;   (* module global; [None]: not bound yet *)
  trace : list effect                                    (* oldest first *)
}.

Definition set_fs (f : gset string → gset string) (w : World) : World :=
  mkWorld (f (fs w)) (LAMBDA_STATIC_INSTRUMENTAL_WAV_PATH w) (trace w).
Definition set_global (p : string) (w : World) : World :=
  mkWorld (fs w) (Some p) (trace w).
Definition add_effect (e : effect) (w : World) : World :=
  mkWorld (fs w) (LAMBDA_STATIC_INSTRUMENTAL_WAV_PATH w) (trace w ++ [e]).

(** The body of one queue record, after [json.loads]. *)
Inductive json_body : Type :=
| BadJson (msg : string)              (* [json.loads] raises *)
| NotObject (tyname : string)         (* valid JSON, but no [.get] *)
| JObject (fields : gmap string pyval).

Record record : Type := mkRecord { body : option json_body }.   (* [None]: no 'body' key *)
Record event : Type := mkEvent { Records : option (list record) }. (* [None]: no 'Records' key *)

(** The environment: process configuration and the answers of the external
    collaborators.  [None] is a normal return, [Some e] an exception.
    [requests] raises only subclasses of [RequestException], so the answer
    of a POST (transport and [raise_for_status] together) is an optional
    message. *)
Record Env : Type := mkEnv {
  bucket_name : option string;
  webhook_url : option string;
  head_object : World → option string → string → option exn;
  download_file : World → option string → string → string → option exn;
  upload_file : World → string → option string → string → option exn;
  from_wav : World → string → exn + AudioSegment;
  export_wav : World → AudioSegment → option exn;
  mg_process : World → AudioSegment → string → string → option exn;
  requests_post : World → option string → Payload → option string;
  os_remove : World → string → option exn;
  audio_add : Z → Z → Z;                 (* the sample adder behind [overlay] *)
  json_dumps : event → string
}.

(** ** The monad *)

Inductive result (A : Type) : Type :=
| Ok (a : A)
| Raise (e : exn)
| OutOfFuel.
Arguments Ok {A} a.
Arguments Raise {A} e.
Arguments OutOfFuel {A}.

Definition M (A : Type) : Type := World → result A * World.

Definition ret {A} (a : A) : M A := λ w, (Ok a, w).
Definition raise {A} (e : exn) : M A := λ w, (Raise e, w).
Definition bind {A B} (m : M A) (k : A → M B) : M B := λ w,
  match m w with
  | (Ok a, w') => k a w'
  | (Raise e, w') => (Raise e, w')
  | (OutOfFuel, w') => (OutOfFuel, w')
  end.

Global Instance M_ret : MRet M := @ret.
Global Instance M_bind : MBind M := λ A B k m, bind m k.

(** [try: m  except Exception as e: h e] *)
Definition try_except {A} (m : M A) (h : exn → M A) : M A := λ w,
  match m w with
  | (Raise e, w') => h e w'
  | other => other
  end.

(** [try: m  finally: f]; a computation that never returns runs no [finally]. *)
Definition try_finally {A} (m : M A) (f : M unit) : M A := λ w,
  match m w with
  | (OutOfFuel, w') => (OutOfFuel, w')
  | (r, w') =>
      match f w' with
      | (Ok _, w'') => (r, w'')
      | (Raise e, w'') => (Raise e, w'')
      | (OutOfFuel, w'') => (OutOfFuel, w'')
      end
  end.

Definition emit (e : effect) : M unit := λ w, (Ok tt, add_effect e w).
Definition get_world : M World := λ w, (Ok w, w).
Definition modify (f : World → World) : M unit := λ w, (Ok tt, f w).

Definition logger_info (msg : string) : M unit := emit (ELog INFO msg).
Definition logger_warning (msg : string) : M unit := emit (ELog WARNING msg).
Definition logger_error (msg : string) : M unit := emit (ELog ERROR msg).

(** An external call: the environment answers on the history so far, the
    call is recorded, and [ok] is its effect on the world when it returns. *)
Definition call (ask : World → option exn) (e : effect) (ok : World → World) : M unit := λ w,
  match ask w with
  | None => (Ok tt, ok (add_effect e w))
  | Some x => (Raise x, add_effect e w)
  end.

(** [time.sleep] refuses a negative length. *)
Definition time_sleep (secs : Z) : M unit :=
  if secs <? 0 then raise (ValueError "sleep length must be non-negative")
  else emit (ESleep secs).

(** ** Constants of [main.py] *)

Definition LAMBDA_STATIC_REFERENCE_WAV_PATH : string := "static/audio/reference.wav".
Definition LOCAL_REFERENCE_PATH : string := "/tmp/reference.wav".
Definition LOCAL_INSTRUMENTAL_PATH : string := "/tmp/instrumental.wav".
Definition LOCAL_FINAL_FILE : option string := None.
Definition LOCAL_VOCALS_PATH : option string := None.

(** The per-Job names of lines 178-180. *)
Definition local_final_file (song_id : pyval) : string :=
  "/tmp/final_song_" +:+ py_str song_id +:+ ".wav".
Definition local_vocals_path (song_id : pyval) : string :=
  "/tmp/vocals_" +:+ py_str song_id +:+ ".wav".
Definition lambda_vocals_path (file_name : pyval) : string :=
  "utau_inference/" +:+ py_str file_name.

(** ** Track catalog *)

Definition TRACK_FILENAMES : gmap Z string :=
  {[ 1 := "pop_track1.wav"; 2 := "norteno_track2.wav"; 3 := "urbano_track3.wav" ]}.

(** The integer a value hashes and compares equal to, as a key of a [dict]
    with [int] keys ([True == 1], [False == 0]). *)
Definition int_key (v : pyval) : option Z :=
  match v with
  | PInt z => Some z
  | PBool b => Some (if b then 1 else 0)
  | _ => None
  end.

(** [TRACK_FILENAMES.get(track_id, None)] *)
Definition TRACK_FILENAMES_get (track_id : pyval) : option string :=
  match int_key track_id with
  | Some k => TRACK_FILENAMES !! k
  | None => None
  end.

Definition get_dynamic_s3_paths (track_id : pyval) : M string :=
  let track_filename := TRACK_FILENAMES_get track_id in
  match track_filename with
  | Some f =>
      if negb (nonempty f) then raise (ValueError ("Invalid trackID: " +:+ py_str track_id))
      else ret ("static/audio/" +:+ f)
  | None => raise (ValueError ("Invalid trackID: " +:+ py_str track_id))
  end.

Definition initialize_s3_paths (track_id : pyval) : M unit :=
  p ← get_dynamic_s3_paths track_id;
  modify (set_global p).

(** Reading the module global; it is unbound until the first
    [initialize_s3_paths]. *)
Definition read_instrumental_path : M string := λ w,
  match LAMBDA_STATIC_INSTRUMENTAL_WAV_PATH w with
  | Some p => (Ok p, w)
  | None => (Raise (NameError "LAMBDA_STATIC_INSTRUMENTAL_WAV_PATH"), w)
  end.

(** ** Mixer (pure part of [mix_tracks]) *)

Section Mixer.
Variable add : Z → Z → Z.

(** [AudioSegment.silent(duration=d)] *)
Definition silent (duration : nat) : AudioSegment := replicate duration 0.

(** [base.overlay(seg)]: the samples of [seg] are added onto [base] from
    position 0; the result is as long as [base]. *)
Fixpoint overlay (base seg : AudioSegment) : AudioSegment :=
  match base, seg with
  | [], _ => []
  | b :: base', [] => b :: base'
  | b :: base', s :: seg' => add b s :: overlay base' seg'
  end.

(** Lines 124-130 of [mix_tracks], on decoded segments. *)
Definition mix_segments (vocals instrumental : AudioSegment) : AudioSegment :=
  let vocals :=
    if (List.length vocals <? List.length instrumental)%nat then
      (vocals ++ silent (List.length instrumental - List.length vocals))%list
    else if (List.length instrumental <? List.length vocals)%nat then
      take (List.length instrumental) vocals
    else vocals in
  overlay vocals instrumental.
End Mixer.

(** ** The functions of [main.py] *)

Section Program.
Variable env : Env.

Definition upload_file_to_s3 (local_file : string) (bucket : option string) (key : string) : M unit :=
  try_except
    (logger_info ("Uploading " +:+ local_file +:+ " to s3://" +:+ opt_str bucket +:+ "/" +:+ key +:+ "...");;
     call (λ w, upload_file env w local_file bucket key) (EUpload local_file bucket key) id;;
     logger_info ("File " +:+ local_file +:+ " uploaded successfully."))
    (λ e, logger_error ("Error uploading file to S3: " +:+ exn_str e);; raise e).

(** [except botocore.exceptions.ClientError as e] *)
Definition try_except_ClientError {A} (m : M A) (h : string → string → M A) : M A := λ w,
  match m w with
  | (Raise (ClientError code msg), w') => h code msg w'
  | other => other
  end.

(** The [while] loop of [wait_for_file]; one unit of fuel per iteration.
    An iteration yields [Some b] for [return b] and [None] to go on. *)
Fixpoint wait_loop (fuel : nat) (bucket : option string) (key : string)
    (timeout interval elapsed_time : Z) : M bool :=
  if elapsed_time <? timeout then
    match fuel with
    | O => λ w, (OutOfFuel, w)
    | S fuel' =>
        r ← try_except_ClientError
              (call (λ w, head_object env w bucket key) (EHead bucket key) id;;
               logger_info ("File " +:+ key +:+ " is now available in bucket " +:+ opt_str bucket +:+ ".");;
               ret (Some true))
              (λ code msg,
                 if String.eqb code "404" then
                   logger_info ("Waiting for file " +:+ key +:+ " in bucket " +:+ opt_str bucket +:+ "...");;
                   time_sleep interval;;
                   ret None
                 else raise (ClientError code msg));
        match r with
        | Some b => ret b
        | None => wait_loop fuel' bucket key timeout interval (elapsed_time + interval)
        end
    end
  else
    logger_error ("File " +:+ key +:+ " did not become available within the timeout period.");;
    ret false.

Definition wait_for_file (fuel : nat) (bucket : option string) (key : string)
    (timeout interval : Z) : M bool :=
  wait_loop fuel bucket key timeout interval 0.

Definition download_file_from_s3 (bucket : option string) (key local_output_file : string) : M unit :=
  try_except
    (logger_info ("Downloading " +:+ key +:+ " from S3...");;
     call (λ w, download_file env w bucket key local_output_file)
          (EDownload bucket key local_output_file)
          (set_fs (λ f, f ∪ {[ local_output_file ]}));;
     logger_info ("File downloaded to " +:+ local_output_file))
    (λ e, logger_error ("Error downloading file: " +:+ exn_str e);; raise e).

Definition AudioSegment_from_wav (path : string) : M AudioSegment := λ w,
  match from_wav env w path with
  | inr seg => (Ok seg, add_effect (EFromWav path) w)
  | inl e => (Raise e, add_effect (EFromWav path) w)
  end.

Definition mix_tracks (vocals_path instrumental_path : string) : M (option AudioSegment) :=
  try_except
    (vocals ← AudioSegment_from_wav vocals_path;
     instrumental ← AudioSegment_from_wav instrumental_path;
     ret (Some (mix_segments (audio_add env) vocals instrumental)))
    (λ e, logger_error ("Error mixing tracks: " +:+ exn_str e);; ret None).

Definition process_files (vocals_path instrumental_path output_path reference_path : string) : M unit :=
  logger_info "Processing files for mixing and mastering...";;
  logger_info ("Vocals Path: " +:+ vocals_path);;
  logger_info ("Instrumental Path: " +:+ instrumental_path);;
  logger_info ("Output Path: " +:+ output_path);;
  logger_info ("Reference Path: " +:+ reference_path);;
  try_except
    (mixed_audio ← mix_tracks vocals_path instrumental_path;
     match mixed_audio with
     | None => raise (ValueError "Failed to mix audio tracks.")
     | Some mixed =>
         call (λ w, export_wav env w mixed) EExport id;;
         call (λ w, mg_process env w mixed reference_path output_path)
              (EMaster reference_path output_path)
              (set_fs (λ f, f ∪ {[ output_path ]}));;
         logger_info ("Mastering completed. Final output saved at " +:+ output_path)
     end)
    (λ e, logger_error ("An error occurred during processing: " +:+ exn_str e);; raise e).

(** [requests.post(webhook_url, json=payload)] and [raise_for_status()] *)
Definition post (payload : Payload) : M unit := λ w,
  match requests_post env w (webhook_url env) payload with
  | None => (Ok tt, add_effect (EPost (webhook_url env) payload) w)
  | Some msg => (Raise (RequestException msg), add_effect (EPost (webhook_url env) payload) w)
  end.

(** [except requests.exceptions.RequestException as e] *)
Definition try_except_RequestException {A} (m : M A) (h : string → M A) : M A := λ w,
  match m w with
  | (Raise (RequestException msg), w') => h msg w'
  | other => other
  end.

Definition notify_system_api (song_id : pyval) (stage action : string)
    (file_name err_msg : option string) : M unit :=
  try_except_RequestException
    (let payload := mkPayload song_id stage action file_name err_msg in
     emit (EPrint payload);;
     post payload;;
     logger_info ("Webhook notified successfully: " +:+ action +:+ " for songID " +:+ py_str song_id +:+ "."))
    (λ msg, logger_error ("Failed to notify webhook: " +:+ msg)).

(** [record['body']], [json.loads] and the first [.get] of the loop body:
    the parsed object, or the exception that leaves [song_id] unassigned. *)
Definition load_body (r : record) : exn + gmap string pyval :=
  match body r with
  | None => inl (KeyError "body")
  | Some (BadJson msg) => inl (JSONDecodeError msg)
  | Some (NotObject ty) => inl (AttributeError ("'" +:+ ty +:+ "' object has no attribute 'get'"))
  | Some (JObject fields) => inr fields
  end.

(** [d.get(k)] *)
Definition dict_get (d : gmap string pyval) (k : string) : pyval := default PNone (d !! k).

(** Lines 185-204: staging of the three assets, mixing and mastering,
    publication of the result and the [end] event. *)
Definition stage_and_publish (fuel : nat) (song_id track_id : pyval)
    (local_final_file local_vocals_path lambda_vocals_path : string) : M unit :=
  found ← wait_for_file fuel (bucket_name env) LAMBDA_STATIC_REFERENCE_WAV_PATH 10 5;
  (if found : bool then
     download_file_from_s3 (bucket_name env) LAMBDA_STATIC_REFERENCE_WAV_PATH LOCAL_REFERENCE_PATH
   else raise (PlainException "Reference file not available within timeout"));;
  instrumental ← read_instrumental_path;
  found ← wait_for_file fuel (bucket_name env) instrumental 10 5;
  (if found : bool then
     instrumental ← read_instrumental_path;
     download_file_from_s3 (bucket_name env) instrumental LOCAL_INSTRUMENTAL_PATH
   else raise (PlainException "Instrumental file not available within timeout"));;
  found ← wait_for_file fuel (bucket_name env) lambda_vocals_path 10 5;
  (if found : bool then
     download_file_from_s3 (bucket_name env) lambda_vocals_path local_vocals_path
   else raise (PlainException ("Vocals file not available: " +:+ lambda_vocals_path)));;
  process_files local_vocals_path LOCAL_INSTRUMENTAL_PATH local_final_file LOCAL_REFERENCE_PATH;;
  upload_file_to_s3 local_final_file (bucket_name env)
    ("matchering/final_song_" +:+ py_str song_id +:+ "_" +:+ py_str track_id +:+ ".wav");;
  notify_system_api song_id "matchering" "end"
    (Some ("final_song_" +:+ py_str song_id +:+ "_" +:+ py_str track_id +:+ ".wav")) None.

(** Lines 170-204: the loop body once the three fields are read. *)
Definition process_job (fuel : nat) (song_id file_name track_id : pyval) : M unit :=
  (if negb (truthy track_id) then raise (ValueError "Region or track ID is missing.") else ret tt);;
  initialize_s3_paths track_id;;
  instrumental ← read_instrumental_path;
  (if negb (nonempty instrumental) then raise (ValueError "LAMBDA_STATIC_INSTRUMENTAL_WAV_PATH is not set.")
   else ret tt);;
  let local_final_file := local_final_file song_id in
  let local_vocals_path := local_vocals_path song_id in
  let lambda_vocals_path := lambda_vocals_path file_name in
  notify_system_api song_id "matchering" "start" None None;;
  stage_and_publish fuel song_id track_id local_final_file local_vocals_path lambda_vocals_path.

(** One iteration of [for record in event['Records']].  The local
    [song_id] is threaded explicitly: the result carries its value when
    the iteration ends, normally or not. *)
Definition loop_body (fuel : nat) (song_id : pyval) (r : record) (w : World)
    : pyval * result unit * World :=
  match load_body r with
  | inl e => (song_id, Raise e, w)
  | inr b =>
      let song_id := dict_get b "songID" in
      let file_name := dict_get b "fileName" in
      let track_id := dict_get b "trackID" in
      let '(res, w') := process_job fuel song_id file_name track_id w in
      (song_id, res, w')
  end.

Fixpoint for_records (fuel : nat) (song_id : pyval) (rs : list record) (w : World)
    : pyval * result unit * World :=
  match rs with
  | [] => (song_id, Ok tt, w)
  | r :: rs' =>
      match loop_body fuel song_id r w with
      | (song_id', Ok _, w') => for_records fuel song_id' rs' w'
      | stopped => stopped
      end
  end.

(** The [try] block of the handler, lines 164-204. *)
Definition try_block (fuel : nat) (song_id : pyval) (ev : event) (w : World)
    : pyval * result unit * World :=
  match Records ev with
  | None => (song_id, Raise (KeyError "Records"), w)
  | Some rs => for_records fuel song_id rs w
  end.

(** One iteration of the cleanup loop of the [finally] block. *)
Definition cleanup_path (file_path : option string) : M unit :=
  w ← get_world;
  match file_path with
  | Some p =>
      if nonempty p && bool_decide (p ∈ fs w) then
        try_except
          (call (λ w, os_remove env w p) (ERemove p) (set_fs (λ f, f ∖ {[ p ]}));;
           logger_info ("Deleted temporary file: " +:+ p))
          (λ e, logger_warning ("Failed to delete " +:+ p +:+ ": " +:+ exn_str e))
      else ret tt
  | None => ret tt
  end.

Fixpoint cleanup (paths : list (option string)) : M unit :=
  match paths with
  | [] => ret tt
  | p :: rest => cleanup_path p;; cleanup rest
  end.

(** Lines 210-220. *)
Definition finally_block : M unit :=
  cleanup [LOCAL_VOCALS_PATH; LOCAL_FINAL_FILE; Some LOCAL_REFERENCE_PATH; Some LOCAL_INSTRUMENTAL_PATH];;
  logger_info "Lambda execution completed.".

(** Lines 154-220.  The event was decoded from JSON, so the [json.dumps]
    of line 157, which is outside the [try], does not raise. *)
Definition lambda_handler (fuel : nat) (ev : event) : M unit :=
  logger_info "Starting Lambda execution...";;
  logger_info ("Event: " +:+ json_dumps env ev);;
  let song_id := PInt 0 in
  try_finally
    (λ w,
       match try_block fuel song_id ev w with
       | (song_id, Raise e, w') =>
           (logger_error ("Error in lambda_handler: " +:+ exn_str e);;
            notify_system_api song_id "matchering" "error" None (Some (exn_str e))) w'
       | (_, r, w') => (r, w')
       end)
    finally_block.
End Program.

(** ** Observations on a run *)

(** The StatusEvents sent to the webhook, oldest first. *)
Definition posts (t : list effect) : list Payload :=
  omap (λ e, match e with EPost _ p => Some p | _ => None end) t.

(** The [action] of every StatusEvent sent, oldest first. *)
Definition actions (t : list effect) : list string := p_action <$> posts t.

(** Calls to S3 ([head_object], [download_file], [upload_file]). *)
Definition is_s3_call (e : effect) : bool :=
  match e with
  | EHead _ _ | EDownload _ _ _ | EUpload _ _ _ => true
  | _ => false
  end.

Definition s3_calls (t : list effect) : list effect := filter (λ e, is_s3_call e = true) t.

Definition is_post (e : effect) : bool :=
  match e with
  | EPost _ _ => true
  | _ => false
  end.

(** The three StatusEvents of the handler. *)
Definition start_event (song_id : pyval) : Payload :=
  mkPayload song_id "matchering" "start" None None.
Definition end_event (song_id track_id : pyval) : Payload :=
  mkPayload song_id "matchering" "end"
    (Some ("final_song_" +:+ py_str song_id +:+ "_" +:+ py_str track_id +:+ ".wav")) None.
Definition error_event (song_id : pyval) (e : exn) : Payload :=
  mkPayload song_id "matchering" "error" None (Some (exn_str e)).

(** The trackID passes line 170 and is a key of the catalog. *)
Definition resolves (track_id : pyval) : bool :=
  truthy track_id && bool_decide (is_Some (TRACK_FILENAMES_get track_id)).

(** The record's body is a JSON object whose trackID resolves. *)
Definition accepts (r : record) : bool :=
  match load_body r with
  | inr b => resolves (dict_get b "trackID")
  | inl _ => false
  end.

(** The local path that an event wrote to, if it is a download or the
    mastering. *)
Definition written_path (e : effect) : option string :=
  match e with
  | EDownload _ _ path => Some path
  | EMaster _ output => Some output
  | _ => None
  end.

(** The local paths that downloads and the mastering wrote to. *)
Definition written_paths (t : list effect) : list string := omap written_path t.

(** The events of the cleanup are removals and log lines. *)
Definition is_cleanup_effect (e : effect) : Prop :=
  match e with
  | ERemove _ | ELog _ _ => True
  | _ => False
  end.

(** The two log lines that open the handler. *)
Definition prelude (env : Env) (ev : event) (w : World) : World :=
  add_effect (ELog INFO ("Event: " +:+ json_dumps env ev))
    (add_effect (ELog INFO "Starting Lambda execution...") w).

(** The world when [process_files] enters its [try] block: five lines
    logged (lines 92-96). *)
Definition process_files_entered (vocals_path instrumental_path output_path reference_path : string)
    (w : World) : World :=
  add_effect (ELog INFO ("Reference Path: " +:+ reference_path))
    (add_effect (ELog INFO ("Output Path: " +:+ output_path))
       (add_effect (ELog INFO ("Instrumental Path: " +:+ instrumental_path))
          (add_effect (ELog INFO ("Vocals Path: " +:+ vocals_path))
             (add_effect (ELog INFO "Processing files for mixing and mastering...") w)))).

(** The StatusEvents of a record that is processed to its end. *)
Definition job_events (r : record) : list Payload :=
  match load_body r with
  | inr b => [start_event (dict_get b "songID");
              end_event (dict_get b "songID") (dict_get b "trackID")]
  | inl _ => []
  end.

(** Every collaborator of the pipeline answers without an exception, and
    every probe finds its object. *)
Definition all_succeed (env : Env) : Prop :=
  (∀ w b k, head_object env w b k = None)
  ∧ (∀ w b k p, download_file env w b k p = None)
  ∧ (∀ w l b k, upload_file env w l b k = None)
  ∧ (∀ w p, ∃ seg, from_wav env w p = inr seg)
  ∧ (∀ w seg, export_wav env w seg = None)
  ∧ (∀ w seg r o, mg_process env w seg r o = None).

(** [observed w w' ps cs ws]: from [w] to [w'] the trace has grown, and
    what was added holds the StatusEvents [ps], the calls to S3 [cs] and
    the writes to the local paths [ws], in this order. *)
Definition observed (w w' : World) (ps : list Payload) (cs : list effect) (ws : list string)
    : Prop :=
  ∃ sfx, trace w' = trace w ++ sfx
         ∧ posts sfx = ps ∧ s3_calls sfx = cs ∧ written_paths sfx = ws.

(** The character [c] does not occur in [s]. *)
Fixpoint lacks (c : Ascii.ascii) (s : string) : Prop :=
  match s with
  | EmptyString => True
  | String d s' => d ≠ c ∧ lacks c s'
  end.

(** ** Concrete worlds and environments for examples *)

Definition empty_world : World := mkWorld ∅ None [].

(** Every collaborator succeeds; every asset exists; decoded audio is
    three samples of vocals against five of instrumental. *)
Definition happy_env : Env := {|
  bucket_name := Some "bucket";
  webhook_url := Some "https://hook";
  head_object := λ _ _ _, None;
  download_file := λ _ _ _ _, None;
  upload_file := λ _ _ _ _, None;
  from_wav := λ _ p, inr (if String.eqb p "/tmp/instrumental.wav" then [10; 20; 30; 40; 50] else [1; 2; 3]);
  export_wav := λ _ _, None;
  mg_process := λ _ _ _ _, None;
  requests_post := λ _ _ _, None;
  os_remove := λ _ _, None;
  audio_add := Z.add;
  json_dumps := λ _, "{...}"
|}.

(** As [happy_env], but no object is ever found in the bucket. *)
Definition absent_env : Env := {|
  bucket_name := Some "bucket";
  webhook_url := Some "https://hook";
  head_object := λ _ _ _, Some (ClientError "404" "Not Found");
  download_file := λ _ _ _ _, None;
  upload_file := λ _ _ _ _, None;
  from_wav := λ _ _, inr [];
  export_wav := λ _ _, None;
  mg_process := λ _ _ _ _, None;
  requests_post := λ _ _ _, None;
  os_remove := λ _ _, None;
  audio_add := Z.add;
  json_dumps := λ _, "{...}"
|}.

(** S3 denies access. *)
Definition forbidden_env : Env := {|
  bucket_name := Some "bucket";
  webhook_url := Some "https://hook";
  head_object := λ _ _ _, Some (ClientError "403" "Forbidden");
  download_file := λ _ _ _ _, None;
  upload_file := λ _ _ _ _, None;
  from_wav := λ _ _, inr [];
  export_wav := λ _ _, None;
  mg_process := λ _ _ _ _, None;
  requests_post := λ _ _ _, None;
  os_remove := λ _ _, None;
  audio_add := Z.add;
  json_dumps := λ _, "{...}"
|}.

(** As [happy_env], but the vocals "utau_inference/v42.wav" never appear. *)
Definition no_vocals_env : Env := {|
  bucket_name := Some "bucket";
  webhook_url := Some "https://hook";
  head_object := λ _ _ key, if String.eqb key "utau_inference/v42.wav"
                            then Some (ClientError "404" "Not Found") else None;
  download_file := λ _ _ _ _, None;
  upload_file := λ _ _ _ _, None;
  from_wav := λ _ _, inr [];
  export_wav := λ _ _, None;
  mg_process := λ _ _ _ _, None;
  requests_post := λ _ _ _, None;
  os_remove := λ _ _, None;
  audio_add := Z.add;
  json_dumps := λ _, "{...}"
|}.

(** As [happy_env], but the mastering fails. *)
Definition mastering_fails_env : Env := {|
  bucket_name := Some "bucket";
  webhook_url := Some "https://hook";
  head_object := λ _ _ _, None;
  download_file := λ _ _ _ _, None;
  upload_file := λ _ _ _ _, None;
  from_wav := λ _ _, inr [1; 2; 3];
  export_wav := λ _ _, None;
  mg_process := λ _ _ _ _, Some (OtherException "ModuleError" "Unknown error");
  requests_post := λ _ _ _, None;
  os_remove := λ _ _, None;
  audio_add := Z.add;
  json_dumps := λ _, "{...}"
|}.

(** As [happy_env], but the upload fails. *)
Definition upload_fails_env : Env := {|
  bucket_name := Some "bucket";
  webhook_url := Some "https://hook";
  head_object := λ _ _ _, None;
  download_file := λ _ _ _ _, None;
  upload_file := λ _ _ _ _, Some (OtherException "S3UploadFailedError" "Access Denied");
  from_wav := λ _ _, inr [1; 2; 3];
  export_wav := λ _ _, None;
  mg_process := λ _ _ _ _, None;
  requests_post := λ _ _ _, None;
  os_remove := λ _ _, None;
  audio_add := Z.add;
  json_dumps := λ _, "{...}"
|}.

(** As [happy_env], but no local file can be removed. *)
Definition remove_fails_env : Env := {|
  bucket_name := Some "bucket";
  webhook_url := Some "https://hook";
  head_object := λ _ _ _, None;
  download_file := λ _ _ _ _, None;
  upload_file := λ _ _ _ _, None;
  from_wav := λ _ _, inr [1; 2; 3];
  export_wav := λ _ _, None;
  mg_process := λ _ _ _ _, None;
  requests_post := λ _ _ _, None;
  os_remove := λ _ _, Some (OtherException "PermissionError" "Operation not permitted");
  audio_add := Z.add;
  json_dumps := λ _, "{...}"
|}.

Definition job_body (song_id file_name track_id : pyval) : gmap string pyval :=
  {[ "songID" := song_id; "fileName" := file_name; "trackID" := track_id ]}.

Definition job_record (song_id file_name track_id : pyval) : record :=
  mkRecord (Some (JObject (job_body song_id file_name track_id))).

Definition one_job (song_id file_name track_id : pyval) : event :=
  mkEvent (Some [job_record song_id file_name track_id]).


(** The local paths a Job with this songID downloads to or has the
    mastering write to (lines 186, 191, 196 and 200). *)
Definition staging_paths (song_id : pyval) : list string :=
  [LOCAL_REFERENCE_PATH; LOCAL_INSTRUMENTAL_PATH; local_vocals_path song_id; local_final_file song_id].

(** The two of them whose name contains the songID. *)
Definition keyed_paths (song_id : pyval) : list string :=
  [local_vocals_path song_id; local_final_file song_id].


(** ** The probes of [wait_for_file] *)

Section Probes.
Variable env : Env.
Variables (bucket : option string) (key : string) (interval : Z).

(** The world after one unsuccessful iteration of the loop. *)
Definition miss_step (w : World) : World :=
  add_effect (ESleep interval)
    (add_effect (ELog INFO ("Waiting for file " +:+ key +:+ " in bucket " +:+ opt_str bucket +:+ "..."))
       (add_effect (EHead bucket key) w)).

(** The world in which probe number [k] (from 0) is made. *)
Fixpoint after_misses (k : nat) (w : World) : World :=
  match k with
  | O => w
  | S k' => after_misses k' (miss_step w)
  end.

(** The answer of S3 to probe number [k]. *)
Definition probe (w : World) (k : nat) : option exn :=
  head_object env (after_misses k w) bucket key.

(** The answer is "not found". *)
Definition is_404 (o : option exn) : bool :=
  match o with
  | Some (ClientError code _) => String.eqb code "404"
  | _ => false
  end.
End Probes.

(** ** Predicates on runs *)

(** [appends P m]: whatever the world, [m] only adds events to the end of
    the trace, and every event it adds satisfies [P]. *)
Definition appends {A} (P : effect → Prop) (m : M A) : Prop :=
  ∀ w, ∃ sfx, trace (m w).2 = trace w ++ sfx ∧ Forall P sfx.

(** [closes p m]: [m] only adds events to the end of the trace; the
    StatusEvents among them are [p] alone when [m] returns and none when it
    raises; and [m] never runs out of fuel. *)
Definition closes (p : Payload) (m : M unit) : Prop :=
  ∀ w, ∃ sfx, trace (m w).2 = trace w ++ sfx
              ∧ match (m w).1 with
                | Ok _ => posts sfx = [p]
                | Raise _ => posts sfx = []
                | OutOfFuel => False
                end.

(** [keeps q m]: [m] does not remove the local file [q]. *)
Definition keeps {A} (q : string) (m : M A) : Prop :=
  ∀ w, q ∈ fs w → q ∈ fs (m w).2.

(** [creates q m]: when [m] returns, the local file [q] exists. *)
Definition creates {A} (q : string) (m : M A) : Prop :=
  ∀ w a, (m w).1 = Ok a → q ∈ fs (m w).2.

(** [ends_after e p m]: [m] only adds events to the end of the trace and
    never runs out of fuel; when it returns, the call [e] is among the
    added events, no StatusEvent precedes it and exactly [p] follows it;
    when it raises, it has sent no StatusEvent. *)
Definition ends_after (e : effect) (p : Payload) (m : M unit) : Prop :=
  ∀ w, ∃ sfx, trace (m w).2 = trace w ++ sfx
              ∧ match (m w).1 with
                | Ok _ => ∃ s1 s2, sfx = s1 ++ e :: s2 ∧ posts s1 = [] ∧ posts s2 = [p]
                | Raise _ => posts sfx = []
                | OutOfFuel => False
                end.

(** [halts m]: [m] never runs out of fuel. *)
Definition halts {A} (m : M A) : Prop := ∀ w, (m w).1 ≠ OutOfFuel.

(** * Properties *)

(** ** Mixer *)

Section MixerFacts.
Variable add : Z → Z → Z.



End MixerFacts.


(** ** Local staging paths *)

Lemma string_app_inj_r (s a b : string) : a +:+ s = b +:+ s → a = b.
Proof.
  assert (Hlen : ∀ x y, String.length (x +:+ y) = (String.length x + String.length y)%nat).
  { induction x as [|c x IH]; intros y; simpl; [done|]. by rewrite IH. }
  revert b. induction a as [|c a IH]; intros [|d b] H; simpl in H.
  - done.
  - apply (f_equal String.length) in H. rewrite !Hlen in H. simpl in H. lia.
  - apply (f_equal String.length) in H. rewrite !Hlen in H. simpl in H. lia.
  - injection H as -> H. f_equal. by apply IH.
Qed.

Lemma local_vocals_path_inj (z1 z2 : Z) :
  local_vocals_path (PInt z1) = local_vocals_path (PInt z2) → z1 = z2.
Proof.
  unfold local_vocals_path. simpl py_str. intros H.
  apply (inj (String.append "/tmp/vocals_")) in H.
  apply string_app_inj_r in H. by apply (inj pretty) in H.
Qed.

Lemma local_final_file_inj (z1 z2 : Z) :
  local_final_file (PInt z1) = local_final_file (PInt z2) → z1 = z2.
Proof.
  unfold local_final_file. simpl py_str. intros H.
  apply (inj (String.append "/tmp/final_song_")) in H.
  apply string_app_inj_r in H. by apply (inj pretty) in H.
Qed.

(** ** Reasoning about runs *)

Section Rules.
Context {A B : Type} (P : effect → Prop).

Lemma appends_ret (a : A) : appends P (ret a).
Proof. intros w. exists []. simpl. by rewrite app_nil_r. Qed.

Lemma appends_mret (a : A) : appends P (mret a : M A).
Proof. apply appends_ret. Qed.

Lemma appends_raise (e : exn) : appends P (raise e : M A).
Proof. intros w. exists []. simpl. by rewrite app_nil_r. Qed.

Lemma appends_out_of_fuel : appends P (λ w, (OutOfFuel, w) : result A * World).
Proof. intros w. exists []. simpl. by rewrite app_nil_r. Qed.

Lemma appends_bind (m : M A) (k : A → M B) :
  appends P m → (∀ a, appends P (k a)) → appends P (m ≫= k).
Proof.
  intros Hm Hk w. unfold mbind, M_bind, bind.
  destruct (Hm w) as (s1 & E1 & F1).
  destruct (m w) as [[a|e|] w1]; simpl in *.
  - destruct (Hk a w1) as (s2 & E2 & F2). exists (s1 ++ s2).
    rewrite E2, E1, app_assoc. split; [done|]. by apply Forall_app.
  - by exists s1.
  - by exists s1.
Qed.

Lemma appends_try_except (m : M A) (h : exn → M A) :
  appends P m → (∀ e, appends P (h e)) → appends P (try_except m h).
Proof.
  intros Hm Hh w. unfold try_except.
  destruct (Hm w) as (s1 & E1 & F1).
  destruct (m w) as [[a|e|] w1]; simpl in *.
  - by exists s1.
  - destruct (Hh e w1) as (s2 & E2 & F2). exists (s1 ++ s2).
    rewrite E2, E1, app_assoc. split; [done|]. by apply Forall_app.
  - by exists s1.
Qed.

Lemma appends_emit (e : effect) : P e → appends P (emit e).
Proof. intros He w. exists [e]. simpl. split; [done|]. by constructor. Qed.

Lemma appends_call (ask : World → option exn) (e : effect) (ok : World → World) :
  P e → (∀ w, trace (ok w) = trace w) → appends P (call ask e ok).
Proof.
  intros He Hok w. exists [e]. unfold call.
  destruct (ask w); simpl; rewrite ?Hok; split; try done; by constructor.
Qed.

Lemma appends_modify (f : World → World) :
  (∀ w, trace (f w) = trace w) → appends P (modify f).
Proof. intros Hf w. exists []. simpl. by rewrite Hf, app_nil_r. Qed.

Lemma halts_ret (a : A) : halts (ret a).
Proof. by intros w. Qed.

Lemma halts_raise (e : exn) : halts (raise e : M A).
Proof. by intros w. Qed.

Lemma halts_bind (m : M A) (k : A → M B) :
  halts m → (∀ a, halts (k a)) → halts (m ≫= k).
Proof.
  intros Hm Hk w. unfold mbind, M_bind, bind.
  specialize (Hm w). destruct (m w) as [[a|e|] w1]; simpl in *; try done.
  apply Hk.
Qed.

Lemma halts_try_except (m : M A) (h : exn → M A) :
  halts m → (∀ e, halts (h e)) → halts (try_except m h).
Proof.
  intros Hm Hh w. unfold try_except.
  specialize (Hm w). destruct (m w) as [[a|e|] w1]; simpl in *; try done.
  apply Hh.
Qed.

End Rules.

Lemma appends_weaken {A} (P Q : effect → Prop) (m : M A) :
  (∀ e, P e → Q e) → appends P m → appends Q m.
Proof.
  intros HPQ Hm w. destruct (Hm w) as (sfx & E & F).
  exists sfx. split; [done|]. eapply Forall_impl; eauto.
Qed.

Lemma halts_emit (e : effect) : halts (emit e).
Proof. by intros w. Qed.

Lemma halts_call ask e ok : halts (call ask e ok).
Proof. intros w. unfold call. by destruct (ask w). Qed.

Lemma halts_modify f : halts (modify f).
Proof. by intros w. Qed.

(** One step of a proof that a composite computation only appends events
    of some kind, or halts. *)
Ltac run_step :=
  match goal with
  | |- appends _ (_ ≫= _) => apply appends_bind; [|intros ?]
  | |- appends _ (try_except _ _) => apply appends_try_except; [|intros ?]
  | |- appends _ (mret _) => apply appends_mret
  | |- appends _ (ret _) => apply appends_ret
  | |- appends _ (raise _) => apply appends_raise
  | |- appends _ (emit _) => apply appends_emit
  | |- appends _ (logger_info _) => apply appends_emit
  | |- appends _ (logger_warning _) => apply appends_emit
  | |- appends _ (logger_error _) => apply appends_emit
  | |- appends _ (call _ _ _) => apply appends_call; [|by intros ?]
  | |- appends _ (modify _) => apply appends_modify; by intros ?
  | |- appends _ (if ?b then _ else _) => destruct b
  | |- appends _ (match ?x with _ => _ end) => destruct x
  | |- halts (_ ≫= _) => apply halts_bind; [|intros ?]
  | |- halts (try_except _ _) => apply halts_try_except; [|intros ?]
  | |- halts (mret _) => apply halts_ret
  | |- halts (ret _) => apply halts_ret
  | |- halts (raise _) => apply halts_raise
  | |- halts (emit _) => apply halts_emit
  | |- halts (logger_info _) => apply halts_emit
  | |- halts (logger_warning _) => apply halts_emit
  | |- halts (logger_error _) => apply halts_emit
  | |- halts (call _ _ _) => apply halts_call
  | |- halts (modify _) => apply halts_modify
  | |- halts (if ?b then _ else _) => destruct b
  | |- halts (match ?x with _ => _ end) => destruct x
  end.

Ltac run_steps := repeat run_step; auto.

Section ProgramFacts.
Variable env : Env.
Variable P : effect → Prop.
Hypothesis P_log : ∀ lvl msg, P (ELog lvl msg).

Lemma appends_time_sleep secs : P (ESleep secs) → appends P (time_sleep secs).
Proof. intros. unfold time_sleep. run_steps. Qed.

Lemma appends_upload local_file bucket key :
  P (EUpload local_file bucket key) → appends P (upload_file_to_s3 env local_file bucket key).
Proof. intros. unfold upload_file_to_s3. run_steps. Qed.

Lemma appends_download bucket key path :
  P (EDownload bucket key path) → appends P (download_file_from_s3 env bucket key path).
Proof. intros. unfold download_file_from_s3. run_steps. Qed.
End ProgramFacts.

(** ** Storage gateway: [wait_for_file] *)

Lemma appends_try_except_ClientError {A} (P : effect → Prop) (m : M A) (h : string → string → M A) :
  appends P m → (∀ c s, appends P (h c s)) → appends P (try_except_ClientError m h).
Proof.
  intros Hm Hh w. unfold try_except_ClientError.
  destruct (Hm w) as (s1 & E1 & F1).
  destruct (m w) as [[a|e|] w1]; simpl in *; try by exists s1.
  destruct e; try by exists s1.
  destruct (Hh code msg w1) as (s2 & E2 & F2). exists (s1 ++ s2).
  rewrite E2, E1, app_assoc. split; [done|]. by apply Forall_app.
Qed.

Lemma halts_try_except_ClientError {A} (m : M A) (h : string → string → M A) :
  halts m → (∀ c s, halts (h c s)) → halts (try_except_ClientError m h).
Proof.
  intros Hm Hh w. unfold try_except_ClientError.
  specialize (Hm w). destruct (m w) as [[a|e|] w1]; simpl in *; try done.
  destruct e; try done. apply Hh.
Qed.

Lemma halts_time_sleep secs : halts (time_sleep secs).
Proof. unfold time_sleep. run_steps. Qed.

Section WaitForFile.
Variable env : Env.
Variables (bucket : option string) (key : string) (timeout interval : Z).

Local Abbreviation miss_step := (miss_step bucket key interval).
Local Abbreviation probe := (probe env bucket key interval).

Lemma appends_wait_loop (P : effect → Prop) fuel elapsed :
  (∀ lvl msg, P (ELog lvl msg)) → P (EHead bucket key) → P (ESleep interval) →
  appends P (wait_loop env fuel bucket key timeout interval elapsed).
Proof.
  intros Hlog Hhead Hsleep. revert elapsed.
  induction fuel as [|fuel IH]; intros elapsed; simpl;
    destruct (elapsed <? timeout); run_steps.
  - apply appends_out_of_fuel.
  - apply appends_try_except_ClientError; [run_steps|intros c s].
    destruct (String.eqb c "404"); run_steps. by apply appends_time_sleep.
Qed.

Lemma halts_wait_loop fuel elapsed :
  0 < interval → timeout - elapsed ≤ Z.of_nat fuel * interval →
  halts (wait_loop env fuel bucket key timeout interval elapsed).
Proof.
  intros Hi. revert elapsed.
  induction fuel as [|fuel IH]; intros elapsed Hfuel; simpl;
    destruct (Z.ltb_spec elapsed timeout); run_steps; try lia.
  - apply halts_try_except_ClientError; [run_steps|intros c s].
    destruct (String.eqb c "404"); run_steps. apply halts_time_sleep.
  - apply IH. lia.
Qed.

Lemma wait_loop_done fuel elapsed w :
  timeout ≤ elapsed →
  ∃ w', wait_loop env fuel bucket key timeout interval elapsed w = (Ok false, w')
        ∧ ∃ msg, trace w' = trace w ++ [ELog ERROR msg].
Proof.
  intros Hge. destruct fuel; simpl; destruct (Z.ltb_spec elapsed timeout); try lia;
    eexists; (split; [reflexivity|]); eexists; reflexivity.
Qed.

Lemma wait_loop_found fuel elapsed w :
  elapsed < timeout → probe w 0 = None →
  ∃ w', wait_loop env (S fuel) bucket key timeout interval elapsed w = (Ok true, w')
        ∧ ∃ rest, trace w' = trace w ++ EHead bucket key :: rest.
Proof.
  intros Hlt Hp. unfold probe in Hp. simpl in *.
  destruct (Z.ltb_spec elapsed timeout); [|lia].
  unfold mbind, M_bind, bind, try_except_ClientError, call. rewrite Hp. simpl.
  eexists. split; [reflexivity|]. simpl. rewrite <- app_assoc. by eexists.
Qed.

Lemma wait_loop_miss fuel elapsed w :
  0 ≤ interval → elapsed < timeout → is_404 (probe w 0) = true →
  wait_loop env (S fuel) bucket key timeout interval elapsed w
  = wait_loop env fuel bucket key timeout interval (elapsed + interval) (miss_step w).
Proof.
  intros Hi Hlt Hp. unfold probe, is_404 in Hp. simpl in *.
  destruct (Z.ltb_spec elapsed timeout); [|lia].
  unfold mbind, M_bind, bind, try_except_ClientError, call.
  destruct (head_object env w bucket key) as [[]|]; try done. simpl.
  rewrite Hp. unfold time_sleep. destruct (Z.ltb_spec interval 0); [lia|]. done.
Qed.

Lemma wait_loop_error fuel elapsed w e :
  elapsed < timeout → probe w 0 = Some e → is_404 (Some e) = false →
  wait_loop env (S fuel) bucket key timeout interval elapsed w
  = (Raise e, add_effect (EHead bucket key) w).
Proof.
  intros Hlt Hp He. unfold probe, is_404 in *. simpl in *.
  destruct (Z.ltb_spec elapsed timeout); [|lia].
  unfold mbind, M_bind, bind, try_except_ClientError, call. rewrite Hp.
  destruct e; try done. simpl. by rewrite He.
Qed.

Lemma probe_miss_step w k : probe (miss_step w) k = probe w (S k).
Proof. done. Qed.

Lemma trace_miss_step w : ∃ rest, trace (miss_step w) = trace w ++ EHead bucket key :: rest.
Proof. unfold miss_step. simpl. rewrite <- !app_assoc. by eexists. Qed.

(** The loop from any elapsed time, by induction on the fuel. *)
Lemma wait_loop_spec fuel : ∀ elapsed w,
  0 < interval → timeout - elapsed ≤ Z.of_nat fuel * interval →
  let r := (wait_loop env fuel bucket key timeout interval elapsed w).1 in
  (r = Ok true ↔
     ∃ k : nat, elapsed + Z.of_nat k * interval < timeout
                ∧ (∀ j, (j < k)%nat → is_404 (probe w j) = true)
                ∧ probe w k = None)
  ∧ (r = Ok false ↔
       ∀ k : nat, elapsed + Z.of_nat k * interval < timeout → is_404 (probe w k) = true).
Proof.
  induction fuel as [|fuel IH]; intros elapsed w Hi Hfuel r.
  - assert (Hge : timeout ≤ elapsed) by lia.
    destruct (wait_loop_done 0 elapsed w Hge) as (w' & Hrun & _).
    subst r. rewrite Hrun. simpl. split; split; try done.
    + intros (k & Hk & _). lia.
    + intros _ k Hk. lia.
  - destruct (Z.lt_ge_cases elapsed timeout) as [Hlt|Hge].
    2:{ destruct (wait_loop_done (S fuel) elapsed w Hge) as (w' & Hrun & _).
        subst r. rewrite Hrun. simpl. split; split; try done.
        + intros (k & Hk & _). lia.
        + intros _ k Hk. lia. }
    destruct (probe w 0) as [e|] eqn:Hp0.
    + destruct (is_404 (Some e)) eqn:H404.
      * subst r. rewrite wait_loop_miss by (rewrite ?Hp0; auto; lia).
        destruct (IH (elapsed + interval) (miss_step w) Hi) as [IHt IHf]; [lia|].
        simpl in IHt, IHf. rewrite IHt, IHf. clear IHt IHf. split; split.
        -- intros (k & Hk & Hmiss & Hhit). exists (S k). split; [lia|]. split; [|done].
           intros [|j] Hj; [by rewrite Hp0|]. rewrite <- probe_miss_step. apply Hmiss. lia.
        -- intros ([|k] & Hk & Hmiss & Hhit); [congruence|].
           exists k. split; [lia|]. split; [|done].
           intros j Hj. rewrite probe_miss_step. apply Hmiss. lia.
        -- intros Hall [|k] Hk; [by rewrite Hp0|].
           rewrite <- probe_miss_step. apply Hall. lia.
        -- intros Hall k Hk. rewrite probe_miss_step. apply Hall. lia.
      * subst r. rewrite (wait_loop_error _ _ _ e) by done. simpl. split; split; try done.
        -- intros ([|k] & Hk & Hmiss & Hhit); [congruence|].
           specialize (Hmiss 0%nat ltac:(lia)). congruence.
        -- intros Hall. specialize (Hall 0%nat ltac:(lia)). congruence.
    + destruct (wait_loop_found fuel elapsed w Hlt Hp0) as (w' & Hrun & _).
      subst r. rewrite Hrun. simpl. split; split; try done.
      * intros _. exists 0%nat. split; [lia|]. split; [intros j Hj; lia|done].
      * intros Hall. specialize (Hall 0%nat ltac:(lia)). rewrite Hp0 in Hall. done.
Qed.

(** With a positive timeout the first iteration runs: the trace grows by
    a probe first. *)
Lemma wait_loop_probes_once fuel w :
  0 < interval → 0 < timeout → timeout ≤ Z.of_nat fuel * interval →
  ∃ rest, trace (wait_loop env fuel bucket key timeout interval 0 w).2
          = trace w ++ EHead bucket key :: rest.
Proof.
  intros Hi Ht Hfuel. destruct fuel as [|fuel]; [lia|].
  destruct (probe w 0) as [e|] eqn:Hp0.
  - destruct (is_404 (Some e)) eqn:H404.
    + rewrite wait_loop_miss by (rewrite ?Hp0; auto; lia).
      destruct (appends_wait_loop (λ _, True) fuel (0 + interval) ltac:(done) I I (miss_step w))
        as (sfx & E & _).
      rewrite E. destruct (trace_miss_step w) as [rest ->].
      rewrite <- app_assoc. simpl. by eexists.
    + rewrite (wait_loop_error _ _ _ e) by done. simpl. by eexists.
  - destruct (wait_loop_found fuel 0 w Ht Hp0) as (w' & -> & Hrest). done.
Qed.
End WaitForFile.

(** C3 (amended).  For every bucket and key, every positive timeout and
    every positive poll interval, with fuel for all the iterations:
    [wait_for_file] probes at least once; it returns [True] exactly when
    one of the probes made at a slept time below the timeout finds the
    object after nothing but "not found" answers; it returns [False],
    without raising, exactly when every such probe answers "not found";
    and it does return. *)
Theorem wait_for_file_positive_timeout (env : Env) (fuel : nat)
    (bucket : option string) (key : string) (timeout interval : Z) (w : World) :
  0 < timeout → 0 < interval → timeout ≤ Z.of_nat fuel * interval →
  let run := wait_for_file env fuel bucket key timeout interval w in
  let answer := probe env bucket key interval w in
  (∃ rest, trace run.2 = trace w ++ EHead bucket key :: rest)
  ∧ (run.1 = Ok true ↔
       ∃ k : nat, Z.of_nat k * interval < timeout
                  ∧ (∀ j, (j < k)%nat → is_404 (answer j) = true)
                  ∧ answer k = None)
  ∧ (run.1 = Ok false ↔
       ∀ k : nat, Z.of_nat k * interval < timeout → is_404 (answer k) = true)
  ∧ run.1 ≠ OutOfFuel.
Proof.
  intros Ht Hi Hfuel run answer. subst run answer. unfold wait_for_file.
  split; [by apply wait_loop_probes_once|].
  destruct (wait_loop_spec env bucket key timeout interval fuel 0 w Hi) as [Htrue Hfalse]; [lia|].
  simpl in Htrue, Hfalse. split; [exact Htrue|]. split; [exact Hfalse|].
  apply halts_wait_loop; [done|lia].
Qed.

(** The handler's own timeout and interval, against an empty bucket. *)
Lemma wait_for_file_positive_timeout_witness :
  (wait_for_file absent_env 2 (Some "bucket") "static/audio/reference.wav" 10 5 empty_world).1 = Ok false.
Proof.
  apply (wait_for_file_positive_timeout absent_env 2 (Some "bucket")
           "static/audio/reference.wav" 10 5 empty_world); [lia|lia|lia|].
  intros k _. reflexivity.
Defined.

(** C3, as stated, fails for a timeout of 0: the object is in the bucket,
    yet no probe is made and the answer is [False]. *)
Lemma wait_for_file_zero_timeout_no_probe :
  let run := wait_for_file happy_env 2 (Some "bucket") "static/audio/reference.wav" 0 5 empty_world in
  head_object happy_env empty_world (Some "bucket") "static/audio/reference.wav" = None
  ∧ run.1 = Ok false
  ∧ s3_calls (trace run.2) = [].
Proof. vm_compute. done. Qed.

(** ** Notifier *)

Lemma posts_app (s t : list effect) : posts (s ++ t) = posts s ++ posts t.
Proof. unfold posts. apply omap_app. Qed.

Lemma actions_app (s t : list effect) : actions (s ++ t) = actions s ++ actions t.
Proof. unfold actions. by rewrite posts_app, fmap_app. Qed.

Lemma posts_quiet (sfx : list effect) :
  Forall (λ e, is_post e = false) sfx → posts sfx = [].
Proof.
  induction 1 as [|e sfx He _ IH]; [done|].
  change (e :: sfx) with ([e] ++ sfx). rewrite posts_app, IH.
  by destruct e.
Qed.

Lemma s3_calls_app (s t : list effect) : s3_calls (s ++ t) = s3_calls s ++ s3_calls t.
Proof. unfold s3_calls. apply filter_app. Qed.

Lemma s3_calls_quiet (sfx : list effect) :
  Forall (λ e, is_s3_call e = false) sfx → s3_calls sfx = [].
Proof.
  induction 1 as [|e sfx He _ IH]; [done|].
  unfold s3_calls in *. rewrite filter_cons, IH. rewrite He.
  by destruct (decide (false = true)).
Qed.

(** A notification always returns; it records the payload, the POST and
    one log line. *)
Lemma notify_system_api_run env sid stage action fn em w :
  let p := mkPayload sid stage action fn em in
  ∃ lvl msg,
    notify_system_api env sid stage action fn em w
    = (Ok tt, add_effect (ELog lvl msg)
                (add_effect (EPost (webhook_url env) p) (add_effect (EPrint p) w))).
Proof.
  intros p. unfold notify_system_api, try_except_RequestException, mbind, M_bind, bind, post.
  simpl. destruct (requests_post env _ _ _); simpl; by do 2 eexists.
Qed.

Lemma appends_notify env (P : effect → Prop) sid stage action fn em :
  (∀ lvl msg, P (ELog lvl msg)) →
  (∀ p, P (EPrint p)) →
  P (EPost (webhook_url env) (mkPayload sid stage action fn em)) →
  appends P (notify_system_api env sid stage action fn em).
Proof.
  intros Hlog Hprint Hpost w.
  destruct (notify_system_api_run env sid stage action fn em w) as (l & m & ->).
  simpl. rewrite <- !app_assoc. eexists. split; [done|].
  repeat constructor; auto.
Qed.

Lemma closes_notify env sid stage action fn em :
  closes (mkPayload sid stage action fn em) (notify_system_api env sid stage action fn em).
Proof.
  intros w. destruct (notify_system_api_run env sid stage action fn em w) as (l & m & ->).
  simpl. rewrite <- !app_assoc. eexists. split; [done|]. done.
Qed.

Lemma closes_bind {A} (p : Payload) (m : M A) (k : A → M unit) :
  appends (λ e, is_post e = false) m → halts m → (∀ a, closes p (k a)) → closes p (m ≫= k).
Proof.
  intros Hm Hh Hk w. unfold mbind, M_bind, bind.
  destruct (Hm w) as (s1 & E1 & F1). specialize (Hh w).
  destruct (m w) as [[a|e|] w1]; simpl in *; [| |done].
  - destruct (Hk a w1) as (s2 & E2 & Hr). exists (s1 ++ s2).
    rewrite E2, E1, app_assoc. split; [done|].
    rewrite posts_app, (posts_quiet s1 F1). simpl.
    by destruct ((k a w1).1).
  - exists s1. split; [done|]. by apply posts_quiet.
Qed.

(** ** The steps of a Job *)

Section Steps.
Variable env : Env.
Variable P : effect → Prop.
Hypothesis P_log : ∀ lvl msg, P (ELog lvl msg).

Lemma appends_read_instrumental_path : appends P read_instrumental_path.
Proof.
  intros w. exists []. unfold read_instrumental_path.
  destruct (LAMBDA_STATIC_INSTRUMENTAL_WAV_PATH w); simpl; by rewrite app_nil_r.
Qed.

Lemma appends_from_wav path : P (EFromWav path) → appends P (AudioSegment_from_wav env path).
Proof.
  intros HP w. exists [EFromWav path]. unfold AudioSegment_from_wav.
  destruct (from_wav env w path); simpl; split; try done; by constructor.
Qed.

Lemma appends_mix_tracks vocals_path instrumental_path :
  (∀ path, P (EFromWav path)) → appends P (mix_tracks env vocals_path instrumental_path).
Proof.
  intros HP. unfold mix_tracks. run_steps; by apply appends_from_wav.
Qed.

Lemma appends_process_files vocals_path instrumental_path output_path reference_path :
  (∀ path, P (EFromWav path)) → P EExport → P (EMaster reference_path output_path) →
  appends P (process_files env vocals_path instrumental_path output_path reference_path).
Proof.
  intros HP1 HP2 HP3. unfold process_files. run_steps. by apply appends_mix_tracks.
Qed.

Lemma appends_wait_for_file fuel bucket key timeout interval :
  P (EHead bucket key) → P (ESleep interval) →
  appends P (wait_for_file env fuel bucket key timeout interval).
Proof. intros. by apply appends_wait_loop. Qed.
End Steps.

Lemma halts_read_instrumental_path : halts read_instrumental_path.
Proof. intros w. unfold read_instrumental_path. by destruct (LAMBDA_STATIC_INSTRUMENTAL_WAV_PATH w). Qed.

Lemma halts_from_wav env path : halts (AudioSegment_from_wav env path).
Proof. intros w. unfold AudioSegment_from_wav. by destruct (from_wav env w path). Qed.

Lemma halts_process_files env v i o r : halts (process_files env v i o r).
Proof.
  unfold process_files, mix_tracks. run_steps; apply halts_from_wav.
Qed.

Lemma halts_upload env local_file bucket key : halts (upload_file_to_s3 env local_file bucket key).
Proof. unfold upload_file_to_s3. run_steps. Qed.

Lemma halts_download env bucket key path : halts (download_file_from_s3 env bucket key path).
Proof. unfold download_file_from_s3. run_steps. Qed.

(** The handler's waits: a timeout of 10 and an interval of 5 need two
    iterations at most. *)
Lemma halts_wait_for_file_default env fuel bucket key :
  (2 ≤ fuel)%nat → halts (wait_for_file env fuel bucket key 10 5).
Proof. intros Hfuel. apply halts_wait_loop; lia. Qed.

Ltac job_step :=
  match goal with
  | |- closes _ (_ ≫= _) => apply closes_bind; [| |intros ?]
  | |- closes _ (notify_system_api _ _ _ _ _ _) => apply closes_notify
  | |- appends _ (wait_for_file _ _ _ _ _ _) => apply appends_wait_for_file
  | |- appends _ (download_file_from_s3 _ _ _ _) => apply appends_download
  | |- appends _ (upload_file_to_s3 _ _ _ _) => apply appends_upload
  | |- appends _ (process_files _ _ _ _ _) => apply appends_process_files
  | |- appends _ read_instrumental_path => apply appends_read_instrumental_path
  | |- appends _ (notify_system_api _ _ _ _ _ _) => apply appends_notify
  | |- halts (wait_for_file _ _ _ _ 10 5) => apply halts_wait_for_file_default
  | |- halts (download_file_from_s3 _ _ _ _) => apply halts_download
  | |- halts (upload_file_to_s3 _ _ _ _) => apply halts_upload
  | |- halts (process_files _ _ _ _ _) => apply halts_process_files
  | |- halts read_instrumental_path => apply halts_read_instrumental_path
  | _ => run_step
  end.

Ltac job_steps := repeat job_step; auto.

Lemma closes_stage_and_publish env fuel sid tid final vocals key :
  (2 ≤ fuel)%nat →
  closes (end_event sid tid) (stage_and_publish env fuel sid tid final vocals key).
Proof.
  intros Hfuel. unfold stage_and_publish. job_steps.
Qed.

(** Every file name of the catalog is a non-empty string. *)
Lemma TRACK_FILENAMES_get_nonempty tid f :
  TRACK_FILENAMES_get tid = Some f → nonempty f = true.
Proof.
  unfold TRACK_FILENAMES_get. destruct (int_key tid) as [k|]; [|done].
  unfold TRACK_FILENAMES. intros H.
  repeat (apply lookup_insert_Some in H as [[_ <-]|[_ H]]; [done|]).
  by apply lookup_singleton_Some in H as [_ <-].
Qed.

Lemma resolves_true tid :
  resolves tid = true ↔ truthy tid = true ∧ ∃ f, TRACK_FILENAMES_get tid = Some f.
Proof.
  unfold resolves. rewrite andb_true_iff, bool_decide_eq_true. by unfold is_Some.
Qed.

Lemma resolves_false tid :
  resolves tid = false ↔ truthy tid = false ∨ TRACK_FILENAMES_get tid = None.
Proof.
  unfold resolves. rewrite andb_false_iff, bool_decide_eq_false.
  by rewrite <- eq_None_not_Some.
Qed.

Section Job.
Variable env : Env.
Variables (fuel : nat) (song_id file_name track_id : pyval).

(** A trackID that does not resolve stops the Job at once: nothing is
    done, nothing is assigned. *)
Lemma process_job_rejected w :
  resolves track_id = false →
  process_job env fuel song_id file_name track_id w
  = (Raise (ValueError (if truthy track_id then "Invalid trackID: " +:+ py_str track_id
                        else "Region or track ID is missing.")), w).
Proof.
  intros H. apply resolves_false in H.
  unfold process_job, initialize_s3_paths, get_dynamic_s3_paths, mbind, M_bind, bind.
  destruct (truthy track_id); simpl; [|done].
  destruct H as [H|H]; [done|]. by rewrite H.
Qed.

(** A trackID that resolves binds the global, then the [start] event is
    sent and staging begins. *)
Lemma process_job_resolved w f :
  truthy track_id = true → TRACK_FILENAMES_get track_id = Some f →
  process_job env fuel song_id file_name track_id w
  = (notify_system_api env song_id "matchering" "start" None None;;
     stage_and_publish env fuel song_id track_id (local_final_file song_id)
       (local_vocals_path song_id) (lambda_vocals_path file_name))
      (set_global ("static/audio/" +:+ f) w).
Proof.
  intros Ht Hf.
  unfold process_job, initialize_s3_paths, get_dynamic_s3_paths, mbind, M_bind, bind.
  rewrite Ht, Hf, (TRACK_FILENAMES_get_nonempty _ _ Hf). simpl. done.
Qed.

Lemma process_job_posts w :
  (2 ≤ fuel)%nat → resolves track_id = true →
  ∃ sfx, trace (process_job env fuel song_id file_name track_id w).2 = trace w ++ sfx
         ∧ match (process_job env fuel song_id file_name track_id w).1 with
           | Ok _ => posts sfx = [start_event song_id; end_event song_id track_id]
           | Raise _ => posts sfx = [start_event song_id]
           | OutOfFuel => False
           end.
Proof.
  intros Hfuel Hres. apply resolves_true in Hres as (Ht & f & Hf).
  rewrite (process_job_resolved w f Ht Hf).
  unfold mbind, M_bind, bind.
  destruct (notify_system_api_run env song_id "matchering" "start" None None
              (set_global ("static/audio/" +:+ f) w)) as (l & m & ->).
  match goal with |- context [stage_and_publish ?e ?fu ?s ?t ?a ?b ?c ?w1] =>
    destruct (closes_stage_and_publish e fu s t a b c Hfuel w1) as (sfx & E & Hr);
    destruct (stage_and_publish e fu s t a b c w1) as [r w2] end.
  simpl in *. rewrite E, <- !app_assoc. eexists. split; [done|].
  destruct r; [| |done]; by rewrite !posts_app, Hr.
Qed.
End Job.

(** ** The loop over the records *)

Section Loop.
Variable env : Env.
Variable fuel : nat.
Hypothesis fuel_enough : (2 ≤ fuel)%nat.

(** The value of [song_id] when an iteration ends: the record's own field
    once its body is loaded, the previous value otherwise. *)
Lemma loop_body_song_id sid0 r w :
  (loop_body env fuel sid0 r w).1.1
  = match load_body r with
    | inr b => dict_get b "songID"
    | inl _ => sid0
    end.
Proof.
  unfold loop_body. destruct (load_body r) as [e|b]; [done|].
  by destruct (process_job _ _ _ _ _ _).
Qed.

(** A record that is not accepted fails without any effect. *)
Lemma loop_body_rejected sid0 r w :
  accepts r = false →
  ∃ e, (loop_body env fuel sid0 r w).1.2 = Raise e ∧ (loop_body env fuel sid0 r w).2 = w.
Proof.
  unfold accepts, loop_body. destruct (load_body r) as [e|b]; intros H.
  - by exists e.
  - rewrite process_job_rejected by done. by eexists.
Qed.

Lemma loop_body_run sid0 r w :
  ∃ sfx, trace (loop_body env fuel sid0 r w).2 = trace w ++ sfx
         ∧ match (loop_body env fuel sid0 r w).1.2 with
           | Ok _ => accepts r = true ∧ actions sfx = ["start"; "end"]
           | Raise _ => actions sfx = if accepts r then ["start"] else []
           | OutOfFuel => False
           end.
Proof.
  destruct (accepts r) eqn:Hacc.
  - unfold accepts, loop_body in *. destruct (load_body r) as [e|b]; [done|].
    destruct (process_job_posts env fuel (dict_get b "songID") (dict_get b "fileName")
                (dict_get b "trackID") w fuel_enough Hacc) as (sfx & E & Hr).
    destruct (process_job _ _ _ _ _ _) as [res w']. simpl in *.
    exists sfx. split; [done|]. unfold actions.
    destruct res; [|by rewrite Hr|done]. by rewrite Hr.
  - destruct (loop_body_rejected sid0 r w Hacc) as (e & -> & ->).
    exists []. by rewrite app_nil_r.
Qed.

(** The loop as a whole: either every record was processed to its [end]
    event, or the loop stopped in the first record that failed. *)
Lemma for_records_run rs : ∀ sid0 w,
  ∃ sfx, trace (for_records env fuel sid0 rs w).2 = trace w ++ sfx
         ∧ match (for_records env fuel sid0 rs w).1.2 with
           | Ok _ =>
               Forall (λ r, accepts r = true) rs
               ∧ actions sfx = flat_map (λ _, ["start"; "end"]) rs
           | Raise _ =>
               ∃ pre r post sid_pre w_pre,
                 rs = pre ++ r :: post
                 ∧ for_records env fuel sid0 pre w = (sid_pre, Ok tt, w_pre)
                 ∧ for_records env fuel sid0 rs w = loop_body env fuel sid_pre r w_pre
                 ∧ actions sfx = flat_map (λ _, ["start"; "end"]) pre
                                 ++ (if accepts r then ["start"] else [])
           | OutOfFuel => False
           end.
Proof.
  induction rs as [|r rs IH]; intros sid0 w.
  - exists []. simpl. by rewrite app_nil_r.
  - simpl. destruct (loop_body_run sid0 r w) as (s1 & E1 & H1).
    destruct (loop_body env fuel sid0 r w) as [[sid1 res] w1] eqn:Hbody.
    simpl in *. destruct res as [[]|e|]; [| |done].
    + destruct H1 as [Hacc Hact].
      destruct (IH sid1 w1) as (s2 & E2 & H2).
      exists (s1 ++ s2). rewrite E2, E1, app_assoc. split; [done|].
      destruct (for_records env fuel sid1 rs w1) as [[sid2 res2] w2] eqn:Hrest.
      simpl in *. destruct res2 as [[]|e|]; [| |done].
      * destruct H2 as [Hall Hact2]. split; [by constructor|].
        by rewrite actions_app, Hact, Hact2.
      * destruct H2 as (pre & x & post & sidp & wp & -> & Hpre & Hx & Hact2).
        exists (r :: pre), x, post, sidp, wp. simpl. rewrite Hbody.
        repeat split; [done|done|].
        by rewrite actions_app, Hact, Hact2.
    + exists s1. split; [done|].
      exists [], r, rs, sid0, w. simpl. by rewrite Hbody.
Qed.

Lemma try_block_run ev w :
  ∃ sfx, trace (try_block env fuel (PInt 0) ev w).2 = trace w ++ sfx
         ∧ (try_block env fuel (PInt 0) ev w).1.2 ≠ OutOfFuel.
Proof.
  unfold try_block. destruct (Records ev) as [rs|].
  - destruct (for_records_run rs (PInt 0) w) as (sfx & E & H).
    exists sfx. split; [done|]. by destruct ((for_records env fuel (PInt 0) rs w).1.2).
  - exists []. simpl. by rewrite app_nil_r.
Qed.
End Loop.

(** ** Cleanup *)

Section Cleanup.
Variable env : Env.

Lemma cleanup_path_run file_path w :
  ∃ w', cleanup_path env file_path w = (Ok tt, w').
Proof.
  unfold cleanup_path, mbind, M_bind, bind, get_world, try_except, call.
  destruct file_path as [p|]; [|by eexists].
  destruct (nonempty p && bool_decide (p ∈ fs w)); [|by eexists].
  destruct (os_remove env w p); by eexists.
Qed.

Lemma cleanup_run paths : ∀ w, ∃ w', cleanup env paths w = (Ok tt, w').
Proof.
  induction paths as [|p paths IH]; intros w; [by eexists|].
  simpl. unfold mbind, M_bind, bind.
  destruct (cleanup_path_run p w) as [w1 ->]. apply IH.
Qed.

Lemma finally_block_run w : ∃ w', finally_block env w = (Ok tt, w').
Proof.
  unfold finally_block, mbind, M_bind, bind.
  destruct (cleanup_run [LOCAL_VOCALS_PATH; LOCAL_FINAL_FILE; Some LOCAL_REFERENCE_PATH;
                         Some LOCAL_INSTRUMENTAL_PATH] w) as [w1 ->].
  by eexists.
Qed.

Lemma appends_cleanup_path file_path : appends is_cleanup_effect (cleanup_path env file_path).
Proof.
  intros w. unfold cleanup_path, mbind, M_bind, bind, get_world, try_except, call.
  destruct file_path as [p|]; [|exists []; simpl; by rewrite app_nil_r].
  destruct (nonempty p && bool_decide (p ∈ fs w)); [|exists []; simpl; by rewrite app_nil_r].
  destruct (os_remove env w p); simpl; rewrite <- app_assoc; eexists; (split; [done|]);
    by repeat constructor.
Qed.

Lemma appends_cleanup paths : appends is_cleanup_effect (cleanup env paths).
Proof.
  induction paths as [|p paths IH]; simpl; [apply appends_ret|].
  apply appends_bind; [apply appends_cleanup_path|done].
Qed.

Lemma appends_finally_block : appends is_cleanup_effect (finally_block env).
Proof.
  unfold finally_block. apply appends_bind; [apply appends_cleanup|intros _].
  by apply appends_emit.
Qed.

(** The cleanup removes nothing but the files it names. *)
Lemma cleanup_path_keeps file_path w q :
  file_path ≠ Some q → q ∈ fs w → q ∈ fs (cleanup_path env file_path w).2.
Proof.
  intros Hne Hq. unfold cleanup_path, mbind, M_bind, bind, get_world, try_except, call.
  destruct file_path as [p|]; [|done].
  destruct (nonempty p && bool_decide (p ∈ fs w)); [|done].
  destruct (os_remove env w p); simpl; [done|].
  apply elem_of_difference. split; [done|]. rewrite elem_of_singleton. congruence.
Qed.

Lemma cleanup_keeps paths q : ∀ w,
  Some q ∉ paths → q ∈ fs w → q ∈ fs (cleanup env paths w).2.
Proof.
  induction paths as [|p paths IH]; intros w Hne Hq; [done|].
  simpl. unfold mbind, M_bind, bind.
  pose proof (cleanup_path_keeps p w q) as Hk.
  destruct (cleanup_path_run p w) as [w1 E]. rewrite E in *. simpl in *.
  apply IH; [set_solver|]. apply Hk; [|done]. set_solver.
Qed.

Lemma finally_block_keeps w q :
  q ≠ LOCAL_REFERENCE_PATH → q ≠ LOCAL_INSTRUMENTAL_PATH →
  q ∈ fs w → q ∈ fs (finally_block env w).2.
Proof.
  intros H1 H2 Hq. unfold finally_block, mbind, M_bind, bind.
  pose proof (cleanup_keeps [LOCAL_VOCALS_PATH; LOCAL_FINAL_FILE; Some LOCAL_REFERENCE_PATH;
                             Some LOCAL_INSTRUMENTAL_PATH] q w) as Hk.
  destruct (cleanup_run [LOCAL_VOCALS_PATH; LOCAL_FINAL_FILE; Some LOCAL_REFERENCE_PATH;
                         Some LOCAL_INSTRUMENTAL_PATH] w) as [w1 E].
  rewrite E in *. simpl in *. apply Hk; [|done].
  unfold LOCAL_VOCALS_PATH, LOCAL_FINAL_FILE. intros Hin.
  repeat (apply elem_of_cons in Hin as [Hin|Hin]; [congruence|]).
  by apply elem_of_nil in Hin.
Qed.
End Cleanup.

(** ** The handler *)

Section Handler.
Variable env : Env.
Variable fuel : nat.
Hypothesis fuel_enough : (2 ≤ fuel)%nat.

(** The handler in three steps: the [try] block from the world after the
    two opening log lines, the report of a failure if there is one, and
    the [finally] block.  It returns normally in every case. *)
Lemma lambda_handler_run ev w :
  ∃ w2 w3,
    lambda_handler env fuel ev w = (Ok tt, w3)
    ∧ finally_block env w2 = (Ok tt, w3)
    ∧ (try_block env fuel (PInt 0) ev (prelude env ev w)).1.2 ≠ OutOfFuel
    ∧ match try_block env fuel (PInt 0) ev (prelude env ev w) with
      | (sid, Raise e, w1) =>
          ∃ lvl msg,
            w2 = add_effect (ELog lvl msg)
                   (add_effect (EPost (webhook_url env) (error_event sid e))
                      (add_effect (EPrint (error_event sid e))
                         (add_effect (ELog ERROR ("Error in lambda_handler: " +:+ exn_str e)) w1)))
      | (_, _, w1) => w2 = w1
      end.
Proof.
  destruct (try_block_run env fuel fuel_enough ev (prelude env ev w)) as (sfx & _ & Hhalt).
  unfold lambda_handler, mbind, M_bind, bind, try_finally, logger_info, emit.
  fold (prelude env ev w).
  destruct (try_block env fuel (PInt 0) ev (prelude env ev w)) as [[sid r] w1].
  simpl in Hhalt. destruct r as [[]|e|]; [| |done].
  - destruct (finally_block_run env w1) as [w3 E]. rewrite E.
    exists w1, w3. done.
  - unfold logger_error, emit.
    destruct (notify_system_api_run env sid "matchering" "error" None (Some (exn_str e))
                (add_effect (ELog ERROR ("Error in lambda_handler: " +:+ exn_str e)) w1))
      as (lvl & msg & ->).
    match goal with |- context [finally_block env ?x] =>
      destruct (finally_block_run env x) as [w3 E]; rewrite E; exists x, w3 end.
    repeat split; try done. by exists lvl, msg.
Qed.
End Handler.

Lemma finally_block_trace env w :
  ∃ cleaned,
    trace (finally_block env w).2
    = trace w ++ cleaned ++ [ELog INFO "Lambda execution completed."]
    ∧ Forall is_cleanup_effect cleaned.
Proof.
  unfold finally_block, mbind, M_bind, bind.
  destruct (appends_cleanup env [LOCAL_VOCALS_PATH; LOCAL_FINAL_FILE; Some LOCAL_REFERENCE_PATH;
                                 Some LOCAL_INSTRUMENTAL_PATH] w) as (cleaned & E & F).
  destruct (cleanup_run env [LOCAL_VOCALS_PATH; LOCAL_FINAL_FILE; Some LOCAL_REFERENCE_PATH;
                             Some LOCAL_INSTRUMENTAL_PATH] w) as [w1 E1].
  rewrite E1 in *. simpl in *. exists cleaned. by rewrite E, app_assoc.
Qed.

Lemma cleanup_effects_no_post (t : list effect) : Forall is_cleanup_effect t → posts t = [].
Proof.
  intros H. apply posts_quiet. eapply Forall_impl; [exact H|]. by intros [].
Qed.

Lemma cleanup_effects_no_s3 (t : list effect) : Forall is_cleanup_effect t → s3_calls t = [].
Proof.
  intros H. apply s3_calls_quiet. eapply Forall_impl; [exact H|]. by intros [].
Qed.

Lemma cleanup_effects_no_write (t : list effect) :
  Forall is_cleanup_effect t → written_paths t = [].
Proof.
  induction 1 as [|e t He _ IH]; [done|].
  change (e :: t) with ([e] ++ t). unfold written_paths in *.
  rewrite omap_app, IH. by destruct e.
Qed.

(** The StatusEvents of the report of a failure and the cleanup. *)
Lemma posts_report (a : string) (p : Payload) (url : option string) (lvl : level) (msg : string)
    (cleaned : list effect) (last : effect) :
  Forall is_cleanup_effect cleaned → is_post last = false →
  posts (ELog ERROR a :: EPrint p :: EPost url p :: ELog lvl msg :: cleaned ++ [last]) = [p].
Proof.
  intros Hclean Hlast.
  change (posts ([ELog ERROR a; EPrint p; EPost url p; ELog lvl msg] ++ cleaned ++ [last]) = [p]).
  rewrite !posts_app, (cleanup_effects_no_post _ Hclean). simpl.
  by destruct last.
Qed.

Section HandlerTrace.
Variable env : Env.
Variable fuel : nat.
Hypothesis fuel_enough : (2 ≤ fuel)%nat.

(** The trace of a whole invocation, from the end of the [try] block on. *)
Lemma lambda_handler_trace ev w :
  ∃ w' cleaned,
    lambda_handler env fuel ev w = (Ok tt, w')
    ∧ Forall is_cleanup_effect cleaned
    ∧ match try_block env fuel (PInt 0) ev (prelude env ev w) with
      | (_, Ok _, w1) =>
          fs w' = fs (finally_block env w1).2
          ∧ trace w' = trace w1 ++ cleaned ++ [ELog INFO "Lambda execution completed."]
      | (sid, Raise e, w1) =>
          ∃ lvl msg,
            trace w' = trace w1
                       ++ [ELog ERROR ("Error in lambda_handler: " +:+ exn_str e);
                           EPrint (error_event sid e);
                           EPost (webhook_url env) (error_event sid e);
                           ELog lvl msg]
                       ++ cleaned ++ [ELog INFO "Lambda execution completed."]
      | (_, OutOfFuel, _) => False
      end.
Proof.
  destruct (lambda_handler_run env fuel fuel_enough ev w) as (w2 & w3 & Hrun & Hfin & Hhalt & Hw2).
  destruct (finally_block_trace env w2) as (cleaned & E & F).
  rewrite Hfin in E. simpl in E.
  exists w3, cleaned. split; [done|]. split; [done|].
  destruct (try_block env fuel (PInt 0) ev (prelude env ev w)) as [[sid r] w1].
  simpl in Hhalt. destruct r as [[]|e|]; [| |done].
  - subst w2. by rewrite Hfin.
  - destruct Hw2 as (lvl & msg & ->). exists lvl, msg.
    rewrite E. simpl. by rewrite <- !app_assoc.
Qed.
End HandlerTrace.

(** ** Properties of the handler *)

Lemma try_block_one env fuel sid0 r w :
  try_block env fuel sid0 (mkEvent (Some [r])) w = loop_body env fuel sid0 r w.
Proof.
  unfold try_block. simpl. by destruct (loop_body env fuel sid0 r w) as [[sid [[]|e|]] w1].
Qed.

(** An event whose only record stops in the [try] block with [e], leaving
    the world as it was: the invocation sends the error StatusEvent and
    nothing else, and touches neither S3 nor the staging files. *)
Lemma stopped_at_once env fuel r w sid e :
  (2 ≤ fuel)%nat →
  loop_body env fuel (PInt 0) r (prelude env (mkEvent (Some [r])) w)
  = (sid, Raise e, prelude env (mkEvent (Some [r])) w) →
  ∃ w' sfx,
    lambda_handler env fuel (mkEvent (Some [r])) w = (Ok tt, w')
    ∧ trace w' = trace w ++ sfx
    ∧ posts sfx = [error_event sid e]
    ∧ s3_calls sfx = []
    ∧ written_paths sfx = [].
Proof.
  intros Hfuel Hbody.
  destruct (lambda_handler_trace env fuel Hfuel (mkEvent (Some [r])) w)
    as (w' & cleaned & Hrun & Hclean & Htr).
  rewrite try_block_one, Hbody in Htr. destruct Htr as (lvl & msg & Htr).
  exists w'. eexists. split; [done|].
  unfold prelude in Htr. simpl in Htr. rewrite <- !app_assoc in Htr.
  split; [exact Htr|].
  pose proof (cleanup_effects_no_post _ Hclean) as Hp.
  pose proof (cleanup_effects_no_s3 _ Hclean) as Hs.
  pose proof (cleanup_effects_no_write _ Hclean) as Hw.
  split; [|split].
  - simpl. rewrite !posts_app, Hp. done.
  - simpl.
    change (?a :: ?b :: ?c :: ?d :: ?e :: ?f :: cleaned ++ ?l)
      with ([a; b; c; d; e; f] ++ cleaned ++ l).
    rewrite !s3_calls_app, Hs. done.
  - simpl. unfold written_paths in *. simpl. rewrite omap_app, Hw. done.
Qed.

(** C6.  The handler never raises: whatever the event, the world and the
    answers of the collaborators, the invocation returns normally.  When
    the [try] block fails with [e], the failure is logged, the error
    StatusEvent for the current [song_id] is sent, and the [finally] block
    runs on the resulting world and ends the invocation. *)
Theorem lambda_handler_never_raises (env : Env) (fuel : nat) (ev : event) (w : World) :
  (2 ≤ fuel)%nat →
  ∃ w2 w',
    lambda_handler env fuel ev w = (Ok tt, w')
    ∧ finally_block env w2 = (Ok tt, w')
    ∧ ∀ sid e w1,
        try_block env fuel (PInt 0) ev (prelude env ev w) = (sid, Raise e, w1) →
        ∃ lvl msg,
          w2 = add_effect (ELog lvl msg)
                 (add_effect (EPost (webhook_url env) (error_event sid e))
                    (add_effect (EPrint (error_event sid e))
                       (add_effect (ELog ERROR ("Error in lambda_handler: " +:+ exn_str e)) w1))).
Proof.
  intros Hfuel.
  destruct (lambda_handler_run env fuel Hfuel ev w) as (w2 & w3 & Hrun & Hfin & _ & Hw2).
  exists w2, w3. split; [done|]. split; [done|].
  intros sid e w1 Htry. by rewrite Htry in Hw2.
Qed.

(** An event without a ['Records'] key, on an empty world. *)
Lemma lambda_handler_never_raises_witness :
  ∃ w', lambda_handler happy_env 2 (mkEvent None) empty_world = (Ok tt, w')
        ∧ actions (trace w') = ["error"].
Proof.
  destruct (lambda_handler_never_raises happy_env 2 (mkEvent None) empty_world)
    as (w2 & w' & Hrun & Hfin & Hfail); [lia|].
  exists w'. split; [exact Hrun|].
  vm_compute in Hrun. by injection Hrun as <-.
Defined.

(** C9.  A trackID that is present but falsy (0, [False], the empty
    string, [null]) stops the record at line 171 with "Region or track ID
    is missing.": the world is untouched, so the catalog was not consulted
    and the global was not assigned, and that message, not "Invalid
    trackID", is what the error StatusEvent carries. *)
Theorem falsy_track_id_is_missing (env : Env) (fuel : nat) (b : gmap string pyval)
    (sid0 : pyval) (w : World) :
  (2 ≤ fuel)%nat →
  truthy (dict_get b "trackID") = false →
  let r := mkRecord (Some (JObject b)) in
  let missing := ValueError "Region or track ID is missing." in
  loop_body env fuel sid0 r w = (dict_get b "songID", Raise missing, w)
  ∧ ∃ w' sfx,
      lambda_handler env fuel (mkEvent (Some [r])) w = (Ok tt, w')
      ∧ trace w' = trace w ++ sfx
      ∧ posts sfx = [error_event (dict_get b "songID") missing]
      ∧ s3_calls sfx = [].
Proof.
  intros Hfuel Hfalsy r missing.
  assert (Hbody : ∀ s v, loop_body env fuel s r v = (dict_get b "songID", Raise missing, v)).
  { intros s v. unfold loop_body, r. simpl.
    rewrite process_job_rejected by (apply resolves_false; by left).
    by rewrite Hfalsy. }
  split; [apply Hbody|].
  destruct (stopped_at_once env fuel r w _ _ Hfuel (Hbody _ _)) as (w' & sfx & H1 & H2 & H3 & H4 & _).
  by exists w', sfx.
Qed.

(** A Job with trackID 0. *)
Lemma falsy_track_id_is_missing_witness :
  loop_body happy_env 2 (PInt 0) (job_record (PInt 7) (PStr "v7.wav") (PInt 0)) empty_world
  = (PInt 7, Raise (ValueError "Region or track ID is missing."), empty_world).
Proof.
  apply (falsy_track_id_is_missing happy_env 2 (job_body (PInt 7) (PStr "v7.wav") (PInt 0))
           (PInt 0) empty_world); [lia|reflexivity].
Defined.

(** C4 (amended).  For every Job whose trackID is not a key of the
    catalog: [get_dynamic_s3_paths] raises "Invalid trackID"; the handler
    makes no call to S3 and writes no staging file, sends exactly one
    StatusEvent, the error, and returns normally.  The failure that the
    event reports is "Invalid trackID: <id>" when the trackID is truthy and
    "Region or track ID is missing." when it is falsy. *)
Theorem unmapped_track_id_fails (env : Env) (fuel : nat) (b : gmap string pyval) (w : World) :
  (2 ≤ fuel)%nat →
  TRACK_FILENAMES_get (dict_get b "trackID") = None →
  let r := mkRecord (Some (JObject b)) in
  let tid := dict_get b "trackID" in
  let failure := ValueError (if truthy tid then "Invalid trackID: " +:+ py_str tid
                             else "Region or track ID is missing.") in
  (∀ v, get_dynamic_s3_paths tid v = (Raise (ValueError ("Invalid trackID: " +:+ py_str tid)), v))
  ∧ ∃ w' sfx,
      lambda_handler env fuel (mkEvent (Some [r])) w = (Ok tt, w')
      ∧ trace w' = trace w ++ sfx
      ∧ posts sfx = [error_event (dict_get b "songID") failure]
      ∧ s3_calls sfx = []
      ∧ written_paths sfx = [].
Proof.
  intros Hfuel Hget r tid failure. split.
  - intros v. unfold get_dynamic_s3_paths. fold tid in Hget. by rewrite Hget.
  - apply stopped_at_once; [done|].
    unfold loop_body, r. simpl.
    rewrite process_job_rejected by (apply resolves_false; by right). done.
Qed.

(** The Job of the end-to-end scenario: trackID 9. *)
Lemma unmapped_track_id_fails_witness :
  ∃ w' sfx,
    lambda_handler happy_env 2 (one_job (PInt 42) (PStr "v42.wav") (PInt 9)) empty_world = (Ok tt, w')
    ∧ trace w' = trace empty_world ++ sfx
    ∧ posts sfx = [error_event (PInt 42) (ValueError "Invalid trackID: 9")]
    ∧ s3_calls sfx = []
    ∧ written_paths sfx = [].
Proof.
  apply (unmapped_track_id_fails happy_env 2 (job_body (PInt 42) (PStr "v42.wav") (PInt 9))
           empty_world); [lia|reflexivity].
Defined.

(** C4, as stated, fails for trackID 0: it is not a key of the catalog,
    yet the Job does not fail in the resolution with "Invalid trackID" but
    at the guard before it. *)
Lemma track_id_zero_is_not_unknown_track :
  let run := lambda_handler happy_env 2 (one_job (PInt 7) (PStr "v7.wav") (PInt 0)) empty_world in
  TRACK_FILENAMES_get (PInt 0) = None
  ∧ posts (trace run.2) = [error_event (PInt 7) (ValueError "Region or track ID is missing.")]
  ∧ posts (trace run.2) ≠ [error_event (PInt 7) (ValueError "Invalid trackID: 0")].
Proof. vm_compute. split; [done|]. split; [done|]. intros H. discriminate H. Qed.

Lemma bind_trace_prefix {A B} (m : M A) (k : A → M B) (w : World) (pre : list effect) :
  trace (m w).2 = trace w ++ pre →
  (∀ a, appends (λ _, True) (k a)) →
  ∃ rest, trace ((m ≫= k) w).2 = trace w ++ pre ++ rest.
Proof.
  intros Hm Hk. unfold mbind, M_bind, bind.
  destruct (m w) as [[a|e|] w1]; simpl in *.
  - destruct (Hk a w1) as (s & E & _). exists s. by rewrite E, Hm, app_assoc.
  - exists []. by rewrite app_nil_r.
  - exists []. by rewrite app_nil_r.
Qed.

(** Staging begins with a probe for the reference track. *)
Lemma stage_and_publish_probes env fuel sid tid final vocals key w :
  (2 ≤ fuel)%nat →
  ∃ rest, trace (stage_and_publish env fuel sid tid final vocals key w).2
          = trace w ++ EHead (bucket_name env) LAMBDA_STATIC_REFERENCE_WAV_PATH :: rest.
Proof.
  intros Hfuel. unfold stage_and_publish.
  destruct (wait_loop_probes_once env (bucket_name env) LAMBDA_STATIC_REFERENCE_WAV_PATH
              10 5 fuel w) as [r1 E1]; [lia|lia|lia|].
  match goal with |- context [(wait_for_file ?e ?f ?bk ?ky ?t ?i ≫= ?k) w] =>
    destruct (bind_trace_prefix (wait_for_file e f bk ky t i) k w _ E1) as [r2 E2] end.
  - intros found. job_steps.
  - rewrite E2. simpl. by eexists.
Qed.

(** C5 (amended).  A missing trackID stops the Job with "Region or track
    ID is missing." before anything is staged.  A missing fileName stops
    nothing: the vocals key is derived from [None], and a Job whose trackID
    resolves sends its [start] event and begins staging. *)
Theorem missing_track_id_stops_the_job (env : Env) (fuel : nat) (b : gmap string pyval)
    (sid0 : pyval) (w : World) :
  (2 ≤ fuel)%nat →
  let r := mkRecord (Some (JObject b)) in
  let sid := dict_get b "songID" in
  (b !! "trackID" = None →
     ∃ w' sfx,
       lambda_handler env fuel (mkEvent (Some [r])) w = (Ok tt, w')
       ∧ trace w' = trace w ++ sfx
       ∧ posts sfx = [error_event sid (ValueError "Region or track ID is missing.")]
       ∧ s3_calls sfx = []
       ∧ written_paths sfx = [])
  ∧ (b !! "fileName" = None → resolves (dict_get b "trackID") = true →
       lambda_vocals_path (dict_get b "fileName") = "utau_inference/None"
       ∧ ∃ lvl msg rest,
           trace (loop_body env fuel sid0 r w).2
           = trace w ++ [EPrint (start_event sid);
                         EPost (webhook_url env) (start_event sid);
                         ELog lvl msg;
                         EHead (bucket_name env) LAMBDA_STATIC_REFERENCE_WAV_PATH] ++ rest).
Proof.
  intros Hfuel r sid. split.
  - intros Hmiss. apply stopped_at_once; [done|].
    unfold loop_body, r. simpl.
    assert (Htid : dict_get b "trackID" = PNone) by (unfold dict_get; by rewrite Hmiss).
    rewrite process_job_rejected by (apply resolves_false; left; by rewrite Htid).
    by rewrite Htid.
  - intros Hmiss Hres.
    assert (Hfn : dict_get b "fileName" = PNone) by (unfold dict_get; by rewrite Hmiss).
    split; [by rewrite Hfn|].
    apply resolves_true in Hres as (Ht & f & Hf).
    unfold loop_body, r. simpl.
    rewrite (process_job_resolved env fuel _ _ _ w f Ht Hf).
    unfold mbind, M_bind, bind.
    destruct (notify_system_api_run env (dict_get b "songID") "matchering" "start" None None
                (set_global ("static/audio/" +:+ f) w)) as (lvl & msg & ->).
    match goal with |- context [stage_and_publish ?e ?fu ?s ?t ?x ?y ?z ?w1] =>
      destruct (stage_and_publish_probes e fu s t x y z w1 Hfuel) as [rest E];
      destruct (stage_and_publish e fu s t x y z w1) as [res w2] end.
    simpl in *. exists lvl, msg, rest. rewrite E. by rewrite <- !app_assoc.
Qed.

(** A body with a songID only. *)
Lemma missing_track_id_stops_the_job_witness :
  ∃ w' sfx,
    lambda_handler happy_env 2 (mkEvent (Some [mkRecord (Some (JObject {[ "songID" := PInt 42 ]}))]))
      empty_world = (Ok tt, w')
    ∧ trace w' = trace empty_world ++ sfx
    ∧ posts sfx = [error_event (PInt 42) (ValueError "Region or track ID is missing.")]
    ∧ s3_calls sfx = []
    ∧ written_paths sfx = [].
Proof.
  refine (proj1 (missing_track_id_stops_the_job happy_env 2 {[ "songID" := PInt 42 ]} (PInt 0)
                   empty_world _) _); [lia|reflexivity].
Defined.

(** C5, as stated, fails for a missing fileName: the Job is not rejected,
    its assets are staged (the vocals under the key derived from [None])
    and it runs to its [end] event. *)
Lemma missing_file_name_is_staged :
  let b : gmap string pyval := {[ "songID" := PInt 42; "trackID" := PInt 2 ]} in
  let run := lambda_handler happy_env 2 (mkEvent (Some [mkRecord (Some (JObject b))])) empty_world in
  b !! "fileName" = None
  ∧ actions (trace run.2) = ["start"; "end"]
  ∧ written_paths (trace run.2)
    = ["/tmp/reference.wav"; "/tmp/instrumental.wav"; "/tmp/vocals_42.wav"; "/tmp/final_song_42.wav"]
  ∧ s3_calls (trace run.2)
    = [EHead (Some "bucket") "static/audio/reference.wav";
       EDownload (Some "bucket") "static/audio/reference.wav" "/tmp/reference.wav";
       EHead (Some "bucket") "static/audio/norteno_track2.wav";
       EDownload (Some "bucket") "static/audio/norteno_track2.wav" "/tmp/instrumental.wav";
       EHead (Some "bucket") "utau_inference/None";
       EDownload (Some "bucket") "utau_inference/None" "/tmp/vocals_42.wav";
       EUpload "/tmp/final_song_42.wav" (Some "bucket") "matchering/final_song_42_2.wav"].
Proof. vm_compute. done. Qed.

(** C2 (amended).  For every event with one Job record, exactly one
    terminal StatusEvent is sent, [end] when the record is processed to
    completion and [error] when it fails, and it is the last StatusEvent.
    A [start] event precedes it, once, when the record is accepted (its
    body is a JSON object whose trackID resolves); a record that is not
    accepted fails with the [error] event alone. *)
Theorem one_record_status_events (env : Env) (fuel : nat) (r : record) (w : World) :
  (2 ≤ fuel)%nat →
  let ev := mkEvent (Some [r]) in
  let outcome := (loop_body env fuel (PInt 0) r (prelude env ev w)).1.2 in
  ∃ w' sfx,
    lambda_handler env fuel ev w = (Ok tt, w')
    ∧ trace w' = trace w ++ sfx
    ∧ ((accepts r = true ∧ outcome = Ok tt ∧ actions sfx = ["start"; "end"])
       ∨ (accepts r = true ∧ (∃ e, outcome = Raise e) ∧ actions sfx = ["start"; "error"])
       ∨ (accepts r = false ∧ (∃ e, outcome = Raise e) ∧ actions sfx = ["error"])).
Proof.
  intros Hfuel ev outcome. subst outcome.
  destruct (lambda_handler_trace env fuel Hfuel ev w) as (w' & cleaned & Hrun & Hclean & Htr).
  unfold ev in Htr. rewrite try_block_one in Htr. fold ev in Htr.
  destruct (loop_body_run env fuel Hfuel (PInt 0) r (prelude env ev w)) as (s1 & E1 & H1).
  pose proof (cleanup_effects_no_post _ Hclean) as Hp.
  destruct (loop_body env fuel (PInt 0) r (prelude env ev w)) as [[sid res] w1].
  simpl in *. exists w'. destruct res as [[]|e|]; [| |done].
  - destruct Htr as [_ Htr]. destruct H1 as [Hacc Hact].
    eexists. split; [done|]. rewrite Htr, E1, <- !app_assoc. split; [done|].
    left. split; [done|]. split; [done|].
    unfold actions in *. simpl. rewrite !posts_app, Hp, app_nil_l, app_nil_r. done.
  - destruct Htr as (lvl & msg & Htr).
    eexists. split; [done|]. rewrite Htr, E1, <- !app_assoc. split; [done|].
    assert (Hact : ∀ t, actions (ELog INFO "Starting Lambda execution..."
                          :: ELog INFO ("Event: " +:+ json_dumps env ev)
                          :: s1 ++ t) = actions s1 ++ actions t).
    { intros t. unfold actions. simpl. rewrite posts_app, fmap_app. done. }
    simpl. rewrite Hact, H1.
    assert (Herr : actions (ELog ERROR ("Error in lambda_handler: " +:+ exn_str e)
                            :: EPrint (error_event sid e)
                            :: EPost (webhook_url env) (error_event sid e)
                            :: ELog lvl msg
                            :: cleaned ++ [ELog INFO "Lambda execution completed."])
                   = ["error"]).
    { unfold actions. by rewrite posts_report. }
    rewrite Herr.
    destruct (accepts r); [right; left|right; right]; (split; [done|]); (split; [eauto|done]).
Qed.

(** The Job of the end-to-end scenario, with everything in place. *)
Lemma one_record_status_events_witness :
  ∃ w' sfx,
    lambda_handler happy_env 2 (one_job (PInt 42) (PStr "v42.wav") (PInt 2)) empty_world = (Ok tt, w')
    ∧ trace w' = trace empty_world ++ sfx
    ∧ actions sfx = ["start"; "end"].
Proof.
  destruct (one_record_status_events happy_env 2 (job_record (PInt 42) (PStr "v42.wav") (PInt 2))
              empty_world) as (w' & sfx & Hrun & Htr & Hcases); [lia|].
  exists w', sfx. split; [exact Hrun|]. split; [exact Htr|].
  vm_compute in Hrun. injection Hrun as <-.
  simpl in Htr. subst sfx. reflexivity.
Defined.

(** C2, as stated, fails for a Job that is rejected before line 182: no
    [start] StatusEvent is sent for it. *)
Lemma rejected_job_has_no_start_event :
  let run := lambda_handler happy_env 2 (one_job (PInt 42) (PStr "v42.wav") (PInt 9)) empty_world in
  run.1 = Ok tt
  ∧ actions (trace run.2) = ["error"]
  ∧ count_occ String.string_dec (actions (trace run.2)) "start" = 0%nat.
Proof. vm_compute. done. Qed.

(** ** Batches *)

Lemma for_records_stops env fuel sid0 pre r post : ∀ w sid_pre w_pre sid e w1,
  for_records env fuel sid0 pre w = (sid_pre, Ok tt, w_pre) →
  loop_body env fuel sid_pre r w_pre = (sid, Raise e, w1) →
  for_records env fuel sid0 (pre ++ r :: post) w = (sid, Raise e, w1).
Proof.
  revert sid0. induction pre as [|x pre IH]; intros sid0 w sid_pre w_pre sid e w1 Hpre Hr; simpl in *.
  - injection Hpre as -> ->. by rewrite Hr.
  - destruct (loop_body env fuel sid0 x w) as [[sx [[]|ex|]] wx]; try done.
    eapply IH; eauto.
Qed.

(** C10 (amended).  When a record of a batch fails, the loop ends there:
    after the effects of the failing record come only the report of the
    failure and the cleanup, whatever records follow.  The StatusEvents of
    the whole invocation are a [start] and an [end] for every record before
    the failing one, a [start] for the failing one if it was accepted, and
    exactly one [error].  The error carries the songID field of the failing
    record when its body was loaded ([None] if the field is absent), and 0
    when the failing record is the first one and its body was not loaded. *)
Theorem batch_stops_at_first_failure (env : Env) (fuel : nat) (pre : list record) (r : record)
    (post : list record) (w : World) (sid_pre sid : pyval) (w_pre w1 : World) (e : exn) :
  (2 ≤ fuel)%nat →
  let ev := mkEvent (Some (pre ++ r :: post)) in
  for_records env fuel (PInt 0) pre (prelude env ev w) = (sid_pre, Ok tt, w_pre) →
  loop_body env fuel sid_pre r w_pre = (sid, Raise e, w1) →
  ∃ w' lvl msg cleaned sfx,
    lambda_handler env fuel ev w = (Ok tt, w')
    ∧ trace w' = trace w1
                 ++ [ELog ERROR ("Error in lambda_handler: " +:+ exn_str e);
                     EPrint (error_event sid e);
                     EPost (webhook_url env) (error_event sid e);
                     ELog lvl msg]
                 ++ cleaned ++ [ELog INFO "Lambda execution completed."]
    ∧ Forall is_cleanup_effect cleaned
    ∧ trace w' = trace w ++ sfx
    ∧ actions sfx = flat_map (λ _, ["start"; "end"]) pre
                    ++ (if accepts r then ["start"] else []) ++ ["error"]
    ∧ (∀ b, load_body r = inr b → sid = dict_get b "songID")
    ∧ (∀ x, load_body r = inl x → pre = [] → sid = PInt 0).
Proof.
  intros Hfuel ev Hpre Hr.
  destruct (lambda_handler_trace env fuel Hfuel ev w) as (w' & cleaned & Hrun & Hclean & Htr).
  unfold try_block in Htr. simpl in Htr.
  rewrite (for_records_stops env fuel (PInt 0) pre r post _ _ _ _ _ _ Hpre Hr) in Htr.
  destruct Htr as (lvl & msg & Htr).
  destruct (for_records_run env fuel Hfuel pre (PInt 0) (prelude env ev w)) as (s0 & E0 & H0).
  rewrite Hpre in E0, H0. simpl in E0, H0. destruct H0 as [_ Hact0].
  destruct (loop_body_run env fuel Hfuel sid_pre r w_pre) as (s1 & E1 & H1).
  pose proof (loop_body_song_id env fuel sid_pre r w_pre) as Hsid.
  rewrite Hr in E1, H1, Hsid. simpl in E1, H1, Hsid.
  pose proof (cleanup_effects_no_post _ Hclean) as Hp.
  exists w', lvl, msg, cleaned. eexists.
  split; [done|]. split; [done|]. split; [done|].
  split; [|split; [|split]].
  - rewrite Htr, E1, E0. unfold prelude. simpl. rewrite <- !app_assoc. simpl. reflexivity.
  - assert (Hact : ∀ t, actions (ELog INFO "Starting Lambda execution..."
                           :: ELog INFO ("Event: " +:+ json_dumps env ev)
                           :: t) = actions t) by done.
    rewrite Hact, !actions_app, Hact0, H1. do 2 f_equal.
    unfold actions. by rewrite posts_report.
  - intros b Hb. by rewrite Hb in Hsid.
  - intros x Hx ->. rewrite Hx in Hsid. simpl in Hpre. congruence.
Qed.


(** A batch of three: the first Job is processed, the second has an
    unmapped trackID, the third is never looked at. *)
Lemma batch_stops_at_first_failure_witness :
  let pre := [job_record (PInt 42) (PStr "v42.wav") (PInt 2)] in
  let r := job_record (PInt 43) (PStr "v43.wav") (PInt 9) in
  let post := [job_record (PInt 44) (PStr "v44.wav") (PInt 1)] in
  ∃ w' sfx,
    lambda_handler happy_env 2 (mkEvent (Some (pre ++ r :: post))) empty_world = (Ok tt, w')
    ∧ trace w' = trace empty_world ++ sfx
    ∧ actions sfx = ["start"; "end"; "error"].
Proof.
  intros pre r post.
  pose (ev := mkEvent (Some (pre ++ r :: post))).
  pose (w_pre := (for_records happy_env 2 (PInt 0) pre (prelude happy_env ev empty_world)).2).
  pose (w1 := (loop_body happy_env 2 (PInt 42) r w_pre).2).
  destruct (batch_stops_at_first_failure happy_env 2 pre r post empty_world (PInt 42) (PInt 43)
              w_pre w1 (ValueError "Invalid trackID: 9"))
    as (w' & lvl & msg & cleaned & sfx & Hrun & _ & _ & Htr & Hact & _);
    [lia|vm_compute; reflexivity|vm_compute; reflexivity|].
  exists w', sfx. split; [exact Hrun|]. split; [exact Htr|]. exact Hact.
Defined.

(** C10, as stated, fails on the songID of the error StatusEvent.  When
    the second record of a batch cannot be parsed, the event carries the
    songID of the first record, which was processed to its end; and a
    record whose body has no songID gives [None], not 0. *)
Lemma error_event_song_id_not_as_claimed :
  let unreadable := mkRecord (Some (BadJson "Expecting value: line 1 column 1 (char 0)")) in
  let batch := mkEvent (Some [job_record (PInt 42) (PStr "v42.wav") (PInt 2); unreadable]) in
  let empty_body := mkEvent (Some [mkRecord (Some (JObject ∅))]) in
  p_songID <$> posts (trace (lambda_handler happy_env 2 batch empty_world).2)
  = [PInt 42; PInt 42; PInt 42]
  ∧ actions (trace (lambda_handler happy_env 2 batch empty_world).2) = ["start"; "end"; "error"]
  ∧ posts (trace (lambda_handler happy_env 2 empty_body empty_world).2)
    = [error_event PNone (ValueError "Region or track ID is missing.")].
Proof. vm_compute. done. Qed.

(** ** Residual staging files *)

(** The Job of the end-to-end scenario is processed to its [end] event; it
    wrote four staging files; after the handler has returned, the vocals
    and the final output of the Job are still there: the cleanup goes over
    [LOCAL_VOCALS_PATH] and [LOCAL_FINAL_FILE], which are [None], and not
    over the two paths of the Job. *)
Lemma staging_files_left_behind :
  let run := lambda_handler happy_env 2 (one_job (PInt 42) (PStr "v42.wav") (PInt 2)) empty_world in
  run.1 = Ok tt
  ∧ actions (trace run.2) = ["start"; "end"]
  ∧ written_paths (trace run.2)
    = [LOCAL_REFERENCE_PATH; LOCAL_INSTRUMENTAL_PATH;
       local_vocals_path (PInt 42); local_final_file (PInt 42)]
  ∧ elements (fs run.2) = [local_vocals_path (PInt 42); local_final_file (PInt 42)].
Proof. vm_compute. done. Qed.

(** C8, as stated, fails for the reference and the instrumental path:
    Jobs with songID 1 and songID 2 download to the same two local files. *)
Lemma reference_and_instrumental_paths_are_shared :
  let run s := lambda_handler happy_env 2 (one_job (PInt s) (PStr "v.wav") (PInt 2)) empty_world in
  PInt 1 ≠ PInt 2
  ∧ written_paths (trace (run 1).2)
    = ["/tmp/reference.wav"; "/tmp/instrumental.wav"; "/tmp/vocals_1.wav"; "/tmp/final_song_1.wav"]
  ∧ written_paths (trace (run 2).2)
    = ["/tmp/reference.wav"; "/tmp/instrumental.wav"; "/tmp/vocals_2.wav"; "/tmp/final_song_2.wav"]
  ∧ ¬ (∀ (z1 z2 : Z) (p : string),
         z1 ≠ z2 → p ∈ staging_paths (PInt z1) → p ∉ staging_paths (PInt z2)).
Proof.
  split; [done|]. split; [by vm_compute|]. split; [by vm_compute|].
  intros H. apply (H 1 2 "/tmp/reference.wav"); [done| |]; by left.
Qed.

(** ** What the Job leaves in the local file system *)

Section Files.
Context {A B : Type} (q : string).

Lemma keeps_ret (a : A) : keeps q (ret a).
Proof. by intros w. Qed.

Lemma keeps_raise (e : exn) : keeps q (raise e : M A).
Proof. by intros w. Qed.

Lemma keeps_bind (m : M A) (k : A → M B) :
  keeps q m → (∀ a, keeps q (k a)) → keeps q (m ≫= k).
Proof.
  intros Hm Hk w Hq. unfold mbind, M_bind, bind.
  specialize (Hm w Hq). destruct (m w) as [[a|e|] w1]; simpl in *; try done.
  by apply Hk.
Qed.

Lemma keeps_try_except (m : M A) (h : exn → M A) :
  keeps q m → (∀ e, keeps q (h e)) → keeps q (try_except m h).
Proof.
  intros Hm Hh w Hq. unfold try_except.
  specialize (Hm w Hq). destruct (m w) as [[a|e|] w1]; simpl in *; try done.
  by apply Hh.
Qed.

Lemma keeps_try_except_ClientError (m : M A) (h : string → string → M A) :
  keeps q m → (∀ c s, keeps q (h c s)) → keeps q (try_except_ClientError m h).
Proof.
  intros Hm Hh w Hq. unfold try_except_ClientError.
  specialize (Hm w Hq). destruct (m w) as [[a|e|] w1]; simpl in *; try done.
  destruct e; try done. by apply Hh.
Qed.

Lemma creates_bind_now (m : M A) (k : A → M B) :
  creates q m → (∀ a, keeps q (k a)) → creates q (m ≫= k).
Proof.
  intros Hm Hk w b. unfold mbind, M_bind, bind.
  specialize (Hm w). destruct (m w) as [[a|e|] w1]; simpl in *; try done.
  intros _. apply Hk. by eapply Hm.
Qed.

Lemma creates_bind_later (m : M A) (k : A → M B) :
  (∀ a, creates q (k a)) → creates q (m ≫= k).
Proof.
  intros Hk w b. unfold mbind, M_bind, bind.
  destruct (m w) as [[a|e|] w1]; simpl in *; try done. apply Hk.
Qed.
End Files.

Lemma keeps_emit q e : keeps q (emit e).
Proof. by intros w. Qed.

Lemma keeps_call q ask e ok :
  (∀ w, q ∈ fs w → q ∈ fs (ok w)) → keeps q (call ask e ok).
Proof.
  intros Hok w Hq. unfold call. destruct (ask w); simpl; [done|]. by apply Hok.
Qed.

Lemma creates_raise {A} q e : creates q (raise e : M A).
Proof. by intros w a. Qed.

Ltac files_step :=
  match goal with
  | |- keeps _ (_ ≫= _) => apply keeps_bind; [|intros ?]
  | |- keeps _ (try_except _ _) => apply keeps_try_except; [|intros ?]
  | |- keeps _ (try_except_ClientError _ _) => apply keeps_try_except_ClientError; [|intros ? ?]
  | |- keeps _ (mret _) => apply keeps_ret
  | |- keeps _ (ret _) => apply keeps_ret
  | |- keeps _ (raise _) => apply keeps_raise
  | |- keeps _ (emit _) => apply keeps_emit
  | |- keeps _ (logger_info _) => apply keeps_emit
  | |- keeps _ (logger_error _) => apply keeps_emit
  | |- keeps _ (call _ _ id) => apply keeps_call; by intros ?
  | |- keeps _ (call _ _ (set_fs _)) =>
      apply keeps_call; intros ? ?; simpl; apply elem_of_union; by left
  | |- keeps _ (if ?b then _ else _) => destruct b
  | |- keeps _ (match ?x with _ => _ end) => destruct x
  end.

Ltac files_steps := repeat files_step.

Section JobFiles.
Variable env : Env.
Variable q : string.

Lemma keeps_time_sleep secs : keeps q (time_sleep secs).
Proof. unfold time_sleep. files_steps. Qed.

Lemma keeps_wait_for_file fuel bucket key timeout interval :
  keeps q (wait_for_file env fuel bucket key timeout interval).
Proof.
  unfold wait_for_file. generalize 0 as elapsed.
  induction fuel as [|fuel IH]; intros elapsed; simpl; destruct (elapsed <? timeout);
    files_steps; try done; try apply keeps_time_sleep; try apply IH.
  by intros w.
Qed.

Lemma keeps_download bucket key path : keeps q (download_file_from_s3 env bucket key path).
Proof. unfold download_file_from_s3. files_steps. Qed.

Lemma keeps_upload local_file bucket key : keeps q (upload_file_to_s3 env local_file bucket key).
Proof. unfold upload_file_to_s3. files_steps. Qed.

Lemma keeps_read_instrumental_path : keeps q read_instrumental_path.
Proof.
  intros w Hq. unfold read_instrumental_path.
  by destruct (LAMBDA_STATIC_INSTRUMENTAL_WAV_PATH w).
Qed.

Lemma keeps_from_wav path : keeps q (AudioSegment_from_wav env path).
Proof. intros w Hq. unfold AudioSegment_from_wav. by destruct (from_wav env w path). Qed.

Lemma keeps_process_files v i o r : keeps q (process_files env v i o r).
Proof.
  unfold process_files, mix_tracks. files_steps; apply keeps_from_wav.
Qed.

Lemma keeps_notify sid stage action fn em : keeps q (notify_system_api env sid stage action fn em).
Proof.
  intros w Hq. by destruct (notify_system_api_run env sid stage action fn em w) as (l & m & ->).
Qed.
End JobFiles.

Section Residue.
Variable env : Env.

(** A download that returns has written its file. *)
Lemma creates_download bucket key path :
  creates path (download_file_from_s3 env bucket key path).
Proof.
  intros w a. unfold download_file_from_s3, try_except, mbind, M_bind, bind, call, logger_info, emit.
  simpl. destruct (download_file env _ bucket key path); simpl; [done|].
  intros _. apply elem_of_union. right. by apply elem_of_singleton.
Qed.

(** A mastering that returns has written the output file. *)
Lemma creates_process_files v i o r : creates o (process_files env v i o r).
Proof.
  unfold process_files. do 5 (apply creates_bind_later; intros _).
  intros w a. unfold try_except, mbind, M_bind, bind.
  destruct (mix_tracks env v i w) as [[[seg|]|e|] w1]; simpl; try done.
  unfold call. destruct (export_wav env w1 seg); simpl; [done|].
  destruct (mg_process env _ seg r o); simpl; [done|].
  intros _. apply elem_of_union. right. by apply elem_of_singleton.
Qed.

Ltac rest_keeps :=
  repeat first
    [ apply keeps_process_files | apply keeps_upload | apply keeps_notify
    | apply keeps_bind; [|intros ?] ].

(** A Job that is processed to its end has its vocals and its final
    output in the local file system. *)
Lemma creates_stage_and_publish fuel sid tid final vocals key :
  creates vocals (stage_and_publish env fuel sid tid final vocals key)
  ∧ creates final (stage_and_publish env fuel sid tid final vocals key).
Proof.
  unfold stage_and_publish. split.
  - do 6 (apply creates_bind_later; intros ?).
    apply creates_bind_now; [|intros ?; rest_keeps].
    match goal with |- creates _ (if ?found then _ else _) => destruct found end;
      [apply creates_download|apply creates_raise].
  - do 7 (apply creates_bind_later; intros ?).
    apply creates_bind_now; [apply creates_process_files|intros ?; rest_keeps].
Qed.

Lemma creates_process_job fuel sid fn tid :
  creates (local_vocals_path sid) (process_job env fuel sid fn tid)
  ∧ creates (local_final_file sid) (process_job env fuel sid fn tid).
Proof.
  destruct (creates_stage_and_publish fuel sid tid (local_final_file sid)
              (local_vocals_path sid) (lambda_vocals_path fn)) as [Hv Hf].
  split; intros w a Hok.
  - destruct (resolves tid) eqn:Hres.
    + apply resolves_true in Hres as (Ht & f & Hget).
      rewrite (process_job_resolved env fuel sid fn tid w f Ht Hget) in Hok |- *.
      revert Hok. by apply creates_bind_later.
    + by rewrite process_job_rejected in Hok.
  - destruct (resolves tid) eqn:Hres.
    + apply resolves_true in Hres as (Ht & f & Hget).
      rewrite (process_job_resolved env fuel sid fn tid w f Ht Hget) in Hok |- *.
      revert Hok. by apply creates_bind_later.
    + by rewrite process_job_rejected in Hok.
Qed.
End Residue.

Lemma local_vocals_path_not_shared sid :
  local_vocals_path sid ≠ LOCAL_REFERENCE_PATH ∧ local_vocals_path sid ≠ LOCAL_INSTRUMENTAL_PATH.
Proof. split; intros H; vm_compute in H; discriminate H. Qed.

Lemma local_final_file_not_shared sid :
  local_final_file sid ≠ LOCAL_REFERENCE_PATH ∧ local_final_file sid ≠ LOCAL_INSTRUMENTAL_PATH.
Proof. split; intros H; vm_compute in H; discriminate H. Qed.

(** C1 fails on the code, for every Job that is processed to its end:
    whatever the environment, when the handler has returned, the vocals
    file and the final output file of the Job are still in the local file
    system. *)
Theorem completed_job_leaves_files (env : Env) (fuel : nat) (b : gmap string pyval) (w : World) :
  (2 ≤ fuel)%nat →
  let r := mkRecord (Some (JObject b)) in
  let ev := mkEvent (Some [r]) in
  (loop_body env fuel (PInt 0) r (prelude env ev w)).1.2 = Ok tt →
  ∃ w', lambda_handler env fuel ev w = (Ok tt, w')
        ∧ local_vocals_path (dict_get b "songID") ∈ fs w'
        ∧ local_final_file (dict_get b "songID") ∈ fs w'.
Proof.
  intros Hfuel r ev Hok.
  destruct (lambda_handler_trace env fuel Hfuel ev w) as (w' & cleaned & Hrun & _ & Htr).
  unfold ev in Htr. rewrite try_block_one in Htr. fold ev in Htr.
  exists w'. split; [done|].
  destruct (creates_process_job env fuel (dict_get b "songID") (dict_get b "fileName")
              (dict_get b "trackID")) as [Hv Hf].
  specialize (Hv (prelude env ev w)). specialize (Hf (prelude env ev w)).
  unfold loop_body, r in Hok, Htr. simpl in Hok, Htr.
  destruct (process_job env fuel _ _ _ (prelude env ev w)) as [res w1].
  simpl in *. subst res. destruct Htr as [-> _].
  destruct (local_vocals_path_not_shared (dict_get b "songID")).
  destruct (local_final_file_not_shared (dict_get b "songID")).
  split; apply finally_block_keeps; eauto.
Qed.

(** The Job of the end-to-end scenario, with everything in place. *)
Lemma completed_job_leaves_files_witness :
  ∃ w', lambda_handler happy_env 2 (one_job (PInt 42) (PStr "v42.wav") (PInt 2)) empty_world
        = (Ok tt, w')
        ∧ "/tmp/vocals_42.wav" ∈ fs w'
        ∧ "/tmp/final_song_42.wav" ∈ fs w'.
Proof.
  apply (completed_job_leaves_files happy_env 2 (job_body (PInt 42) (PStr "v42.wav") (PInt 2))
           empty_world); [lia|vm_compute; reflexivity].
Defined.

(** ** Local staging paths of two Jobs *)

(** The downloads and the mastering of a Job write to its staging paths
    and nowhere else. *)
Lemma process_job_writes env fuel sid fn tid :
  appends (λ e, ∀ p, written_path e = Some p → p ∈ staging_paths sid)
    (process_job env fuel sid fn tid).
Proof.
  unfold process_job, stage_and_publish, initialize_s3_paths, get_dynamic_s3_paths.
  job_steps;
    intros;
    match goal with H : written_path _ = Some _ |- _ =>
      simpl in H; try discriminate H; injection H as <- end;
    unfold staging_paths; set_unfold; auto.
Qed.

(** C8 (amended).  A Job writes to its four staging paths only.  The
    vocals path and the final-output path are keyed by the songID: for two
    different integer songIDs no keyed path of one Job is a staging path of
    the other.  The reference and the instrumental path are the same
    constants for every Job. *)
Theorem keyed_paths_disjoint (env : Env) (fuel : nat) (fn tid : pyval) (z1 z2 : Z) :
  z1 ≠ z2 →
  appends (λ e, ∀ p, written_path e = Some p → p ∈ staging_paths (PInt z1))
    (process_job env fuel (PInt z1) fn tid)
  ∧ (∀ p, p ∈ keyed_paths (PInt z1) → p ∉ staging_paths (PInt z2))
  ∧ LOCAL_REFERENCE_PATH ∈ staging_paths (PInt z1)
  ∧ LOCAL_INSTRUMENTAL_PATH ∈ staging_paths (PInt z1).
Proof.
  intros Hne. split; [apply process_job_writes|]. split.
  - intros p Hp Hq. unfold keyed_paths, staging_paths in *.
    set_unfold.
    destruct Hp as [->|[->|[]]]; destruct Hq as [Hq|[Hq|[Hq|[Hq|[]]]]];
      try (apply local_vocals_path_inj in Hq; done);
      try (apply local_final_file_inj in Hq; done);
      vm_compute in Hq; discriminate.
  - unfold staging_paths. split; set_unfold; auto.
Qed.

Lemma keyed_paths_disjoint_witness :
  "/tmp/vocals_1.wav" ∉ staging_paths (PInt 2).
Proof.
  refine (proj1 (proj2 (keyed_paths_disjoint happy_env 2 (PStr "v.wav") (PInt 2) 1 2 _)) _ _);
    [lia|]. vm_compute. left.
Defined.

(** * Further properties of [main.py] *)

(** ** Track resolution *)

Lemma TRACK_FILENAMES_lookup (k : Z) (f : string) :
  TRACK_FILENAMES !! k = Some f ↔
  (k = 1 ∧ f = "pop_track1.wav") ∨ (k = 2 ∧ f = "norteno_track2.wav")
  ∨ (k = 3 ∧ f = "urbano_track3.wav").
Proof.
  unfold TRACK_FILENAMES. rewrite !lookup_insert_Some, lookup_singleton_Some.
  split.
  - intros [[<- <-]|[? [[<- <-]|[? [<- <-]]]]]; auto.
  - intros [[-> ->]|[[-> ->]|[-> ->]]]; [left|right; split; [done|left]|
      right; split; [done|right; split; [done|]]]; done.
Qed.

(** X1.  [get_dynamic_s3_paths] never changes the state; it returns a key
    exactly for the values that compare equal to 1, 2 or 3 ([True] is 1),
    the key lies under "static/audio/", and two values get the same key
    only when they are the same key of the catalog. *)
Theorem get_dynamic_s3_paths_resolves (tid : pyval) (w : World) :
  (get_dynamic_s3_paths tid w).2 = w
  ∧ ((∃ p, (get_dynamic_s3_paths tid w).1 = Ok p) ↔ int_key tid ∈ [Some 1; Some 2; Some 3])
  ∧ (∀ p, (get_dynamic_s3_paths tid w).1 = Ok p → ∃ f, p = "static/audio/" +:+ f)
  ∧ (∀ tid' w' p,
       (get_dynamic_s3_paths tid w).1 = Ok p → (get_dynamic_s3_paths tid' w').1 = Ok p →
       int_key tid = int_key tid').
Proof.
  assert (Hrun : ∀ t v,
            (get_dynamic_s3_paths t v).2 = v
            ∧ ∀ p, (get_dynamic_s3_paths t v).1 = Ok p ↔
                   ∃ k f, int_key t = Some k ∧ TRACK_FILENAMES !! k = Some f
                          ∧ p = "static/audio/" +:+ f).
  { intros t v. unfold get_dynamic_s3_paths.
    destruct (TRACK_FILENAMES_get t) as [f|] eqn:Hget.
    - rewrite (TRACK_FILENAMES_get_nonempty _ _ Hget). simpl. split; [done|].
      unfold TRACK_FILENAMES_get in Hget. destruct (int_key t) as [k|]; [|done].
      intros p. split.
      + intros [= <-]. by exists k, f.
      + intros (k' & f' & [= <-] & Hf & ->). congruence.
    - simpl. split; [done|]. intros p. split; [done|].
      intros (k & f & Hk & Hf & _). unfold TRACK_FILENAMES_get in Hget.
      rewrite Hk in Hget. congruence. }
  destruct (Hrun tid w) as [Hw Hok]. split; [done|]. split; [|split].
  - split.
    + intros [p Hp]. apply Hok in Hp as (k & f & -> & Hf & _).
      apply TRACK_FILENAMES_lookup in Hf as [[-> _]|[[-> _]|[-> _]]]; set_unfold; auto.
    + intros Hin. set_unfold.
      destruct Hin as [Hk|[Hk|[Hk|[]]]]; eexists; apply Hok; do 2 eexists;
        (split; [exact Hk|]); split; try reflexivity; by apply TRACK_FILENAMES_lookup; auto.
  - intros p Hp. apply Hok in Hp as (k & f & _ & _ & ->). by exists f.
  - intros tid' w' p Hp Hp'. destruct (Hrun tid' w') as [_ Hok'].
    apply Hok in Hp as (k & f & -> & Hf & ->).
    apply Hok' in Hp' as (k' & f' & -> & Hf' & Heq).
    apply (inj (String.append "static/audio/")) in Heq. subst f'.
    apply TRACK_FILENAMES_lookup in Hf as [[-> ->]|[[-> ->]|[-> ->]]];
      apply TRACK_FILENAMES_lookup in Hf' as [[-> ?]|[[-> ?]|[-> ?]]]; done.
Qed.

(** X2.  [initialize_s3_paths] and the global: after a trackID that
    resolves, reading the global gives the key of [get_dynamic_s3_paths];
    after one that does not, the call has raised and the global is what it
    was before, so a value left by an earlier Job stays in place. *)
Theorem initialize_s3_paths_sets_global (tid : pyval) (w : World) :
  match (get_dynamic_s3_paths tid w).1 with
  | Ok p =>
      (initialize_s3_paths tid w).1 = Ok tt
      ∧ (read_instrumental_path (initialize_s3_paths tid w).2).1 = Ok p
      ∧ fs (initialize_s3_paths tid w).2 = fs w
      ∧ trace (initialize_s3_paths tid w).2 = trace w
  | _ =>
      (∃ e, (initialize_s3_paths tid w).1 = Raise e)
      ∧ (initialize_s3_paths tid w).2 = w
  end.
Proof.
  unfold initialize_s3_paths, mbind, M_bind, bind, get_dynamic_s3_paths.
  destruct (TRACK_FILENAMES_get tid) as [f|]; simpl; [|by eauto].
  destruct (nonempty f); simpl; by eauto.
Qed.

(** ** Upload and download *)

(** X3.  [upload_file_to_s3] passes the failure of the upload on
    unchanged, after logging it; it returns exactly when the upload did;
    in both cases the upload was attempted once and the local files and the
    global are untouched. *)
Theorem upload_file_to_s3_transparent (env : Env) (local_file : string)
    (bucket : option string) (key : string) (w : World) :
  let run := upload_file_to_s3 env local_file bucket key w in
  let w1 := add_effect (ELog INFO ("Uploading " +:+ local_file +:+ " to s3://" +:+ opt_str bucket
                                    +:+ "/" +:+ key +:+ "...")) w in
  fs run.2 = fs w
  ∧ LAMBDA_STATIC_INSTRUMENTAL_WAV_PATH run.2 = LAMBDA_STATIC_INSTRUMENTAL_WAV_PATH w
  ∧ match upload_file env w1 local_file bucket key with
    | None =>
        run.1 = Ok tt
        ∧ trace run.2 = trace w1 ++ [EUpload local_file bucket key;
                                      ELog INFO ("File " +:+ local_file +:+ " uploaded successfully.")]
    | Some e =>
        run.1 = Raise e
        ∧ trace run.2 = trace w1 ++ [EUpload local_file bucket key;
                                      ELog ERROR ("Error uploading file to S3: " +:+ exn_str e)]
    end.
Proof.
  intros run w1. subst run w1.
  unfold upload_file_to_s3, try_except, mbind, M_bind, bind, call, logger_info, logger_error,
    emit, raise.
  simpl. destruct (upload_file env _ local_file bucket key); simpl;
    rewrite <- ?app_assoc; done.
Qed.

(** X4.  [download_file_from_s3] passes the failure of the download on
    unchanged, after logging it, and then the local files are as before;
    when the download returns, the local files are the former ones and the
    target.  The global is untouched. *)
Theorem download_file_from_s3_transparent (env : Env) (bucket : option string)
    (key path : string) (w : World) :
  let run := download_file_from_s3 env bucket key path w in
  let w1 := add_effect (ELog INFO ("Downloading " +:+ key +:+ " from S3...")) w in
  LAMBDA_STATIC_INSTRUMENTAL_WAV_PATH run.2 = LAMBDA_STATIC_INSTRUMENTAL_WAV_PATH w
  ∧ match download_file env w1 bucket key path with
    | None =>
        run.1 = Ok tt
        ∧ fs run.2 = fs w ∪ {[ path ]}
        ∧ trace run.2 = trace w1 ++ [EDownload bucket key path;
                                      ELog INFO ("File downloaded to " +:+ path)]
    | Some e =>
        run.1 = Raise e
        ∧ fs run.2 = fs w
        ∧ trace run.2 = trace w1 ++ [EDownload bucket key path;
                                      ELog ERROR ("Error downloading file: " +:+ exn_str e)]
    end.
Proof.
  intros run w1. subst run w1.
  unfold download_file_from_s3, try_except, mbind, M_bind, bind, call, logger_info, logger_error,
    emit, raise.
  simpl. destruct (download_file env _ bucket key path); simpl;
    rewrite <- ?app_assoc; done.
Qed.

(** ** More on [wait_for_file] *)

Section WaitForFileEdges.
Variable env : Env.
Variables (bucket : option string) (key : string) (timeout interval : Z).

Local Abbreviation miss_step := (miss_step bucket key interval).
Local Abbreviation after_misses := (after_misses bucket key interval).
Local Abbreviation probe := (probe env bucket key interval).
Local Abbreviation wait_loop := (wait_loop env).

Lemma wait_loop_raises_at (k : nat) : ∀ fuel elapsed w e,
  0 ≤ interval → elapsed + Z.of_nat k * interval < timeout → (k < fuel)%nat →
  (∀ j, (j < k)%nat → is_404 (probe w j) = true) →
  probe w k = Some e → is_404 (Some e) = false →
  wait_loop fuel bucket key timeout interval elapsed w
  = (Raise e, add_effect (EHead bucket key) (after_misses k w)).
Proof.
  induction k as [|k IH]; intros fuel elapsed w e Hi Hk Hfuel Hmiss Hp He;
    (destruct fuel as [|fuel]; [lia|]).
  - apply wait_loop_error; [lia|done|done].
  - rewrite wait_loop_miss; [|done|lia|apply Hmiss; lia].
    apply IH; try done; try lia.
    intros j Hj. apply (Hmiss (S j)). lia.
Qed.

Lemma wait_loop_times_out (fuel : nat) : ∀ elapsed w,
  0 < interval → timeout - elapsed ≤ Z.of_nat fuel * interval →
  (∀ k : nat, elapsed + Z.of_nat k * interval < timeout → is_404 (probe w k) = true) →
  ∃ n : nat,
    wait_loop fuel bucket key timeout interval elapsed w
    = (Ok false,
       add_effect (ELog ERROR ("File " +:+ key
                               +:+ " did not become available within the timeout period."))
         (after_misses n w))
    ∧ timeout ≤ elapsed + Z.of_nat n * interval
    ∧ ((0 < n)%nat → elapsed + (Z.of_nat n - 1) * interval < timeout).
Proof.
  induction fuel as [|fuel IH]; intros elapsed w Hi Hfuel Hmiss.
  - exists 0%nat. simpl. destruct (Z.ltb_spec elapsed timeout); [lia|].
    split; [done|]. split; lia.
  - destruct (Z.lt_ge_cases elapsed timeout) as [Hlt|Hge].
    + rewrite wait_loop_miss; [|lia|done|apply Hmiss; lia].
      destruct (IH (elapsed + interval) (miss_step w) Hi) as (n & Hrun & Hup & Hlow); [lia| |].
      { intros k Hk. apply (Hmiss (S k)). lia. }
      exists (S n). split; [exact Hrun|]. split; [lia|].
      intros _. destruct n as [|n]; [lia|]. specialize (Hlow ltac:(lia)). lia.
    + exists 0%nat. simpl. destruct (Z.ltb_spec elapsed timeout); [lia|].
      split; [done|]. split; lia.
Qed.

Lemma wait_loop_spins (fuel : nat) : ∀ w,
  interval = 0 → 0 < timeout →
  (∀ k : nat, is_404 (probe w k) = true) →
  (wait_loop fuel bucket key timeout interval 0 w).1 = OutOfFuel.
Proof.
  induction fuel as [|fuel IH]; intros w Hi Ht Hmiss.
  - simpl. by destruct (Z.ltb_spec 0 timeout); [|lia].
  - rewrite wait_loop_miss; [|lia|done|apply Hmiss].
    replace (0 + interval) with 0 by lia. apply IH; try done.
    intros k. apply (Hmiss (S k)).
Qed.
End WaitForFileEdges.

(** X5.  An answer to a probe that is neither "found" nor a 404 ends
    [wait_for_file] at once: the exception of that probe is raised as it
    is, no sleep and no further probe follow. *)
Theorem wait_for_file_error_propagates (env : Env) (fuel : nat) (bucket : option string)
    (key : string) (timeout interval : Z) (w : World) (k : nat) (e : exn) :
  0 ≤ interval → Z.of_nat k * interval < timeout → (k < fuel)%nat →
  (∀ j, (j < k)%nat → is_404 (probe env bucket key interval w j) = true) →
  probe env bucket key interval w k = Some e →
  is_404 (Some e) = false →
  wait_for_file env fuel bucket key timeout interval w
  = (Raise e, add_effect (EHead bucket key) (after_misses bucket key interval k w)).
Proof.
  intros. unfold wait_for_file. apply wait_loop_raises_at; try done; lia.
Qed.

Lemma wait_for_file_error_propagates_witness :
  (wait_for_file forbidden_env 2 (Some "bucket") "k" 10 5 empty_world).1
  = Raise (ClientError "403" "Forbidden").
Proof.
  rewrite (wait_for_file_error_propagates forbidden_env 2 (Some "bucket") "k" 10 5 empty_world
             0 (ClientError "403" "Forbidden"))
    by first [lia|reflexivity|intros j Hj; lia].
  reflexivity.
Defined.

(** X6.  When every probe answers "not found", [wait_for_file] with a
    positive interval makes [n] probes, each followed by a sleep of
    [interval], where [n] is the least number with [timeout <= n *
    interval]; so it also sleeps after the last probe, and the time slept
    is [n * interval], not less than the timeout. *)
Theorem wait_for_file_timeout_probes (env : Env) (fuel : nat) (bucket : option string)
    (key : string) (timeout interval : Z) (w : World) :
  0 < interval → timeout ≤ Z.of_nat fuel * interval →
  (∀ k : nat, Z.of_nat k * interval < timeout →
              is_404 (probe env bucket key interval w k) = true) →
  ∃ n : nat,
    wait_for_file env fuel bucket key timeout interval w
    = (Ok false,
       add_effect (ELog ERROR ("File " +:+ key
                               +:+ " did not become available within the timeout period."))
         (after_misses bucket key interval n w))
    ∧ timeout ≤ Z.of_nat n * interval
    ∧ ((0 < n)%nat → (Z.of_nat n - 1) * interval < timeout).
Proof.
  intros Hi Hfuel Hmiss. unfold wait_for_file.
  destruct (wait_loop_times_out env bucket key timeout interval fuel 0 w Hi) as (n & ? & ? & ?);
    [lia|done|].
  exists n. split; [done|]. split; [lia|]. intros Hn. specialize (H1 Hn). lia.
Qed.

(** The handler's own timeout and interval: two probes, ten seconds. *)
Lemma wait_for_file_timeout_probes_witness :
  s3_calls (trace (wait_for_file absent_env 2 (Some "bucket") "k" 10 5 empty_world).2)
  = [EHead (Some "bucket") "k"; EHead (Some "bucket") "k"].
Proof.
  destruct (wait_for_file_timeout_probes absent_env 2 (Some "bucket") "k" 10 5 empty_world)
    as (n & Hrun & Hup & Hlow); [lia|lia|by intros|].
  rewrite Hrun.
  assert (n = 2%nat) as -> by (destruct n as [|[|[|n]]]; lia).
  reflexivity.
Defined.

(** X7.  With an interval of 0 and an object that never appears,
    [wait_for_file] does not end: the elapsed time stays 0, and whatever
    the fuel, the loop uses it up. *)
Theorem wait_for_file_zero_interval_spins (env : Env) (fuel : nat) (bucket : option string)
    (key : string) (timeout : Z) (w : World) :
  0 < timeout →
  (∀ k : nat, is_404 (probe env bucket key 0 w k) = true) →
  (wait_for_file env fuel bucket key timeout 0 w).1 = OutOfFuel.
Proof.
  intros Ht Hmiss. unfold wait_for_file. by apply wait_loop_spins.
Qed.

Lemma wait_for_file_zero_interval_spins_witness :
  (wait_for_file absent_env 1000 (Some "bucket") "k" 10 0 empty_world).1 = OutOfFuel.
Proof.
  apply (wait_for_file_zero_interval_spins absent_env 1000 (Some "bucket") "k" 10 empty_world);
    [lia|by intros].
Defined.

(** X8.  With a negative interval, the first "not found" answer makes
    [time.sleep] raise: [wait_for_file] raises [ValueError] after one
    probe instead of polling. *)
Theorem wait_for_file_negative_interval (env : Env) (fuel : nat) (bucket : option string)
    (key : string) (timeout interval : Z) (w : World) :
  interval < 0 → 0 < timeout →
  is_404 (probe env bucket key interval w 0) = true →
  (wait_for_file env (S fuel) bucket key timeout interval w).1
  = Raise (ValueError "sleep length must be non-negative")
  ∧ s3_calls (trace (wait_for_file env (S fuel) bucket key timeout interval w).2)
    = s3_calls (trace w) ++ [EHead bucket key].
Proof.
  intros Hi Ht Hp. unfold wait_for_file, probe, is_404 in *. simpl in *.
  destruct (Z.ltb_spec 0 timeout); [|lia].
  unfold mbind, M_bind, bind, try_except_ClientError, call.
  destruct (head_object env w bucket key) as [[]|]; try done. simpl.
  rewrite Hp. unfold time_sleep. destruct (Z.ltb_spec interval 0); [|lia]. simpl.
  split; [done|]. by rewrite <- app_assoc, s3_calls_app.
Qed.

Lemma wait_for_file_negative_interval_witness :
  (wait_for_file absent_env 1 (Some "bucket") "k" 10 (-5) empty_world).1
  = Raise (ValueError "sleep length must be non-negative").
Proof.
  apply (wait_for_file_negative_interval absent_env 0 (Some "bucket") "k" 10 (-5) empty_world);
    [lia|lia|reflexivity].
Defined.

(** ** More on the mixer *)






(** ** Mixing and mastering *)

(** X11.  When the vocals or the instrumental cannot be decoded,
    [process_files] raises [ValueError("Failed to mix audio tracks.")]: the
    exception of the decoder is only logged by [mix_tracks]; nothing is
    exported or mastered and no local file is written. *)
Theorem process_files_decode_failure (env : Env) (vocals_path instrumental_path output_path
    reference_path : string) (w : World) (e : exn) :
  let w0 := process_files_entered vocals_path instrumental_path output_path reference_path w in
  from_wav env w0 vocals_path = inl e
  ∨ ((∃ seg, from_wav env w0 vocals_path = inr seg)
     ∧ from_wav env (add_effect (EFromWav vocals_path) w0) instrumental_path = inl e) →
  let run := process_files env vocals_path instrumental_path output_path reference_path w in
  run.1 = Raise (ValueError "Failed to mix audio tracks.")
  ∧ fs run.2 = fs w
  ∧ ∃ decoded,
      trace run.2
      = trace w0 ++ decoded
        ++ [ELog ERROR ("Error mixing tracks: " +:+ exn_str e);
            ELog ERROR "An error occurred during processing: Failed to mix audio tracks."]
      ∧ (decoded = [EFromWav vocals_path]
         ∨ decoded = [EFromWav vocals_path; EFromWav instrumental_path]).
Proof.
  intros w0 Hfail run. subst run.
  unfold process_files, mix_tracks, try_except, mbind, M_bind, bind, AudioSegment_from_wav,
    logger_info, logger_error, emit, raise.
  simpl. fold (process_files_entered vocals_path instrumental_path output_path reference_path w).
  fold w0. destruct Hfail as [Hv|[[seg Hv] Hi]]; rewrite Hv; simpl.
  - split; [done|]. split; [done|]. exists [EFromWav vocals_path].
    rewrite <- !app_assoc. auto.
  - rewrite Hi. simpl. split; [done|]. split; [done|].
    exists [EFromWav vocals_path; EFromWav instrumental_path].
    rewrite <- !app_assoc. auto.
Qed.

(** No WAV file can be decoded. *)
Lemma process_files_decode_failure_witness :
  let env := mkEnv (Some "bucket") None (λ _ _ _, None) (λ _ _ _ _, None) (λ _ _ _ _, None)
               (λ _ _, inl (OtherException "CouldntDecodeError" "bad header"))
               (λ _ _, None) (λ _ _ _ _, None) (λ _ _ _, None) (λ _ _, None) Z.add (λ _, "") in
  (process_files env "/tmp/v.wav" "/tmp/i.wav" "/tmp/o.wav" "/tmp/r.wav" empty_world).1
  = Raise (ValueError "Failed to mix audio tracks.").
Proof.
  intros env.
  apply (process_files_decode_failure env "/tmp/v.wav" "/tmp/i.wav" "/tmp/o.wav" "/tmp/r.wav"
           empty_world (OtherException "CouldntDecodeError" "bad header")).
  left. reflexivity.
Defined.

(** X12.  [process_files] writes the output file exactly when it returns:
    after a return the local files are the former ones and the output;
    after an exception, whether from decoding, the export or the mastering,
    they are as before.  It never changes the global. *)
Theorem process_files_output (env : Env) (vocals_path instrumental_path output_path
    reference_path : string) (w : World) :
  let run := process_files env vocals_path instrumental_path output_path reference_path w in
  LAMBDA_STATIC_INSTRUMENTAL_WAV_PATH run.2 = LAMBDA_STATIC_INSTRUMENTAL_WAV_PATH w
  ∧ match run.1 with
    | Ok _ => fs run.2 = fs w ∪ {[ output_path ]}
              ∧ EMaster reference_path output_path ∈ trace run.2
    | Raise _ => fs run.2 = fs w
    | OutOfFuel => False
    end.
Proof.
  intros run. subst run.
  unfold process_files, mix_tracks, try_except, mbind, M_bind, bind, AudioSegment_from_wav,
    call, logger_info, logger_error, emit, raise.
  simpl.
  destruct (from_wav env _ vocals_path) as [e|vocals]; simpl; [done|].
  destruct (from_wav env _ instrumental_path) as [e|instrumental]; simpl; [done|].
  destruct (export_wav env _ _) as [e|]; simpl; [done|].
  destruct (mg_process env _ _ reference_path output_path) as [e|]; simpl; [done|].
  split; [done|]. split; [done|].
  apply elem_of_app. left. apply elem_of_app. right. apply elem_of_cons. by left.
Qed.

(** ** More on the notifier *)

(** X13.  [notify_system_api] swallows a failed POST: it returns normally
    whatever the webhook answers, it attempts the POST once, after printing
    the payload, and the only trace of a failure is the error line in the
    log.  The local files and the global are untouched. *)
Theorem notify_system_api_swallows (env : Env) (song_id : pyval) (stage action : string)
    (file_name err_msg : option string) (w : World) :
  let p := mkPayload song_id stage action file_name err_msg in
  let w1 := add_effect (EPrint p) w in
  let line :=
    match requests_post env w1 (webhook_url env) p with
    | None => ELog INFO ("Webhook notified successfully: " +:+ action +:+ " for songID "
                         +:+ py_str song_id +:+ ".")
    | Some msg => ELog ERROR ("Failed to notify webhook: " +:+ msg)
    end in
  notify_system_api env song_id stage action file_name err_msg w
  = (Ok tt, mkWorld (fs w) (LAMBDA_STATIC_INSTRUMENTAL_WAV_PATH w)
              (trace w ++ [EPrint p; EPost (webhook_url env) p; line])).
Proof.
  intros p w1 line. subst line w1.
  unfold notify_system_api, try_except_RequestException, mbind, M_bind, bind, post,
    logger_info, logger_error, emit, add_effect.
  simpl. destruct (requests_post env _ _ _); simpl; by rewrite <- !app_assoc.
Qed.

(** ** More on the handler *)

(** The handler from the end of its [try] block on, for any fuel. *)
Lemma lambda_handler_after_try env fuel ev w sid r w1 :
  try_block env fuel (PInt 0) ev (prelude env ev w) = (sid, r, w1) →
  r ≠ OutOfFuel →
  ∃ w2 report,
    lambda_handler env fuel ev w = (Ok tt, (finally_block env w2).2)
    ∧ trace w2 = trace w1 ++ report
    ∧ fs w2 = fs w1
    ∧ posts report = match r with Raise e => [error_event sid e] | _ => [] end
    ∧ s3_calls report = []
    ∧ written_paths report = [].
Proof.
  intros Htry Hr.
  unfold lambda_handler, mbind, M_bind, bind, try_finally, logger_info, logger_error, emit.
  fold (prelude env ev w). rewrite Htry.
  destruct r as [[]|e|]; [| |done].
  - destruct (finally_block_run env w1) as [w3 E]. rewrite E.
    exists w1, []. by rewrite E, app_nil_r.
  - destruct (notify_system_api_run env sid "matchering" "error" None (Some (exn_str e))
                (add_effect (ELog ERROR ("Error in lambda_handler: " +:+ exn_str e)) w1))
      as (lvl & msg & ->).
    match goal with |- context [finally_block env ?x] =>
      destruct (finally_block_run env x) as [w3 E]; rewrite E; exists x end.
    eexists. rewrite E. split; [done|]. simpl. rewrite <- !app_assoc. split; [done|]. done.
Qed.

Lemma finally_block_quiet env w :
  ∃ cleaned,
    trace (finally_block env w).2 = trace w ++ cleaned
    ∧ posts cleaned = [] ∧ s3_calls cleaned = [] ∧ written_paths cleaned = [].
Proof.
  destruct (appends_finally_block env w) as (cleaned & E & F).
  exists cleaned. split; [done|].
  split; [by apply cleanup_effects_no_post|].
  split; [by apply cleanup_effects_no_s3|by apply cleanup_effects_no_write].
Qed.

Lemma written_paths_app (s t : list effect) :
  written_paths (s ++ t) = written_paths s ++ written_paths t.
Proof. unfold written_paths. apply omap_app. Qed.

(** The observations on a whole invocation, from those on its [try]
    block. *)
Lemma lambda_handler_observed env fuel ev w sid r w1 body :
  try_block env fuel (PInt 0) ev (prelude env ev w) = (sid, r, w1) →
  r ≠ OutOfFuel →
  trace w1 = trace (prelude env ev w) ++ body →
  ∃ w' sfx,
    lambda_handler env fuel ev w = (Ok tt, w')
    ∧ trace w' = trace w ++ sfx
    ∧ posts sfx = posts body ++ match r with Raise e => [error_event sid e] | _ => [] end
    ∧ s3_calls sfx = s3_calls body
    ∧ written_paths sfx = written_paths body.
Proof.
  intros Htry Hr Hbody.
  destruct (lambda_handler_after_try env fuel ev w sid r w1 Htry Hr)
    as (w2 & report & Hrun & Htr & _ & Hp & Hs & Hw).
  destruct (finally_block_quiet env w2) as (cleaned & Hc & Hcp & Hcs & Hcw).
  exists (finally_block env w2).2. eexists. split; [done|].
  rewrite Hc, Htr, Hbody. unfold prelude. simpl. rewrite <- !app_assoc. split; [done|].
  change (?a :: ?b :: body ++ report ++ cleaned) with ([a; b] ++ body ++ report ++ cleaned).
  rewrite !posts_app, !s3_calls_app, !written_paths_app, Hp, Hs, Hw, Hcp, Hcs, Hcw.
  by rewrite !app_nil_r.
Qed.

(** X14.  An event whose ['Records'] list is empty does nothing: no
    StatusEvent, no call to S3, no staging file written; the handler logs,
    runs the cleanup and returns. *)
Theorem empty_event_does_nothing (env : Env) (fuel : nat) (w : World) :
  ∃ w' sfx,
    lambda_handler env fuel (mkEvent (Some [])) w = (Ok tt, w')
    ∧ trace w' = trace w ++ sfx
    ∧ posts sfx = [] ∧ s3_calls sfx = [] ∧ written_paths sfx = [].
Proof.
  destruct (lambda_handler_observed env fuel (mkEvent (Some [])) w (PInt 0) (Ok tt)
              (prelude env (mkEvent (Some [])) w) [])
    as (w' & sfx & ? & ? & ? & ? & ?); [done|done|by rewrite app_nil_r|].
  by exists w', sfx.
Qed.

(** X15.  An event without a ['Records'] key is reported like a failed
    Job: exactly one StatusEvent, the error, with songID 0 and the message
    of the [KeyError]; no call to S3 is made. *)
Theorem event_without_records (env : Env) (fuel : nat) (w : World) :
  ∃ w' sfx,
    lambda_handler env fuel (mkEvent None) w = (Ok tt, w')
    ∧ trace w' = trace w ++ sfx
    ∧ posts sfx = [mkPayload (PInt 0) "matchering" "error" None (Some "'Records'")]
    ∧ s3_calls sfx = [] ∧ written_paths sfx = [].
Proof.
  destruct (lambda_handler_observed env fuel (mkEvent None) w (PInt 0) (Raise (KeyError "Records"))
              (prelude env (mkEvent None) w) [])
    as (w' & sfx & ? & ? & ? & ? & ?); [done|done|by rewrite app_nil_r|].
  by exists w', sfx.
Qed.

Section BatchSuccess.
Variable env : Env.
Variable fuel : nat.
Hypothesis fuel_enough : (2 ≤ fuel)%nat.

Lemma loop_body_posts_ok sid0 r w sid w1 :
  loop_body env fuel sid0 r w = (sid, Ok tt, w1) →
  accepts r = true
  ∧ ∃ sfx, trace w1 = trace w ++ sfx ∧ posts sfx = job_events r.
Proof.
  unfold loop_body, accepts, job_events. destruct (load_body r) as [e|b]; [done|].
  intros Hrun.
  destruct (resolves (dict_get b "trackID")) eqn:Hres.
  - split; [done|].
    destruct (process_job_posts env fuel (dict_get b "songID") (dict_get b "fileName")
                (dict_get b "trackID") w fuel_enough Hres) as (sfx & E & Hp).
    destruct (process_job _ _ _ _ _ _) as [res w']. simpl in *.
    injection Hrun as _ -> ->. by exists sfx.
  - rewrite process_job_rejected in Hrun by done. done.
Qed.

Lemma for_records_posts_ok rs : ∀ sid0 w sid w1,
  for_records env fuel sid0 rs w = (sid, Ok tt, w1) →
  Forall (λ r, accepts r = true) rs
  ∧ ∃ sfx, trace w1 = trace w ++ sfx ∧ posts sfx = flat_map job_events rs.
Proof.
  induction rs as [|r rs IH]; intros sid0 w sid w1 Hrun; simpl in *.
  - injection Hrun as _ ->. split; [done|]. exists []. by rewrite app_nil_r.
  - destruct (loop_body env fuel sid0 r w) as [[s1 [[]|e|]] wa] eqn:Hbody; try done.
    destruct (loop_body_posts_ok _ _ _ _ _ Hbody) as (Hacc & sa & Ea & Pa).
    destruct (IH _ _ _ _ Hrun) as (Hall & sb & Eb & Pb).
    split; [by constructor|]. exists (sa ++ sb).
    by rewrite Eb, Ea, app_assoc, posts_app, Pa, Pb.
Qed.
End BatchSuccess.

(** X16.  When no record of a batch fails, every record was accepted and
    the StatusEvents of the invocation are, record by record and in the
    order of the batch, the [start] and the [end] event of that record,
    each with the record's own songID; there is no error event. *)
Theorem batch_all_processed (env : Env) (fuel : nat) (rs : list record) (w : World)
    (sid : pyval) (w1 : World) :
  (2 ≤ fuel)%nat →
  let ev := mkEvent (Some rs) in
  for_records env fuel (PInt 0) rs (prelude env ev w) = (sid, Ok tt, w1) →
  Forall (λ r, accepts r = true) rs
  ∧ ∃ w' sfx,
      lambda_handler env fuel ev w = (Ok tt, w')
      ∧ trace w' = trace w ++ sfx
      ∧ posts sfx = flat_map job_events rs.
Proof.
  intros Hfuel ev Hrun.
  destruct (for_records_posts_ok env fuel Hfuel rs _ _ _ _ Hrun) as (Hall & body & E & Hp).
  split; [done|].
  destruct (lambda_handler_observed env fuel ev w sid (Ok tt) w1 body)
    as (w' & sfx & ? & ? & Hposts & _); [done|done|done|].
  exists w', sfx. split; [done|]. split; [done|]. by rewrite Hposts, Hp, app_nil_r.
Qed.

Lemma batch_all_processed_witness :
  let rs := [job_record (PInt 1) (PStr "a.wav") (PInt 1);
             job_record (PInt 2) (PStr "b.wav") (PInt 3)] in
  ∃ w' sfx,
    lambda_handler happy_env 2 (mkEvent (Some rs)) empty_world = (Ok tt, w')
    ∧ trace w' = trace empty_world ++ sfx
    ∧ posts sfx = [start_event (PInt 1); end_event (PInt 1) (PInt 1);
                   start_event (PInt 2); end_event (PInt 2) (PInt 3)].
Proof.
  intros rs.
  refine (proj2 (batch_all_processed happy_env 2 rs empty_world (PInt 2)
                   (for_records happy_env 2 (PInt 0) rs
                      (prelude happy_env (mkEvent (Some rs)) empty_world)).2 _ _));
    [lia|vm_compute; reflexivity].
Defined.

(** ** More on the cleanup *)

Section CleanupEdges.
Variable env : Env.

Lemma cleanup_path_shrinks file_path w q :
  q ∈ fs (cleanup_path env file_path w).2 → q ∈ fs w.
Proof.
  unfold cleanup_path, mbind, M_bind, bind, get_world, try_except, call.
  destruct file_path as [p|]; [|done].
  destruct (nonempty p && bool_decide (p ∈ fs w)); [|done].
  destruct (os_remove env w p); simpl; [done|].
  intros Hq. by apply elem_of_difference in Hq as [Hq _].
Qed.

Lemma cleanup_shrinks paths q : ∀ w, q ∈ fs (cleanup env paths w).2 → q ∈ fs w.
Proof.
  induction paths as [|p paths IH]; intros w; [done|].
  simpl. unfold mbind, M_bind, bind.
  pose proof (cleanup_path_shrinks p w q) as Hp.
  destruct (cleanup_path_run env p w) as [w1 E]. rewrite E in *. simpl in *.
  intros Hq. apply Hp. by apply IH.
Qed.

Lemma finally_block_shrinks w q : q ∈ fs (finally_block env w).2 → q ∈ fs w.
Proof.
  unfold finally_block, mbind, M_bind, bind.
  pose proof (cleanup_shrinks [LOCAL_VOCALS_PATH; LOCAL_FINAL_FILE; Some LOCAL_REFERENCE_PATH;
                               Some LOCAL_INSTRUMENTAL_PATH] q w) as Hc.
  destruct (cleanup_run env [LOCAL_VOCALS_PATH; LOCAL_FINAL_FILE; Some LOCAL_REFERENCE_PATH;
                             Some LOCAL_INSTRUMENTAL_PATH] w) as [w1 E].
  rewrite E in *. simpl in *. done.
Qed.

(** The [finally] block when [os.remove] never fails. *)
Lemma finally_block_removes w :
  (∀ v p, os_remove env v p = None) →
  fs (finally_block env w).2 = fs w ∖ {[ LOCAL_REFERENCE_PATH ]} ∖ {[ LOCAL_INSTRUMENTAL_PATH ]}.
Proof.
  intros Hrm.
  assert (Hone : ∀ p v, nonempty p = true →
            fs (cleanup_path env (Some p) v).2 = fs v ∖ {[ p ]}).
  { intros p v Hp. unfold cleanup_path, mbind, M_bind, bind, get_world, try_except, call.
    rewrite Hp. simpl. destruct (bool_decide (p ∈ fs v)) eqn:Hin.
    - by rewrite Hrm.
    - apply bool_decide_eq_false in Hin. simpl. apply set_eq. intros x.
      rewrite elem_of_difference, elem_of_singleton. split; [|tauto].
      intros Hx. split; [done|]. by intros ->. }
  unfold finally_block, cleanup, mbind, M_bind, bind. simpl.
  pose proof (Hone LOCAL_REFERENCE_PATH w eq_refl) as H1.
  destruct (cleanup_path_run env (Some LOCAL_REFERENCE_PATH) w) as [w1 E1]. rewrite E1 in *.
  pose proof (Hone LOCAL_INSTRUMENTAL_PATH w1 eq_refl) as H2.
  destruct (cleanup_path_run env (Some LOCAL_INSTRUMENTAL_PATH) w1) as [w2 E2]. rewrite E2 in *.
  simpl in *. by rewrite H2, H1.
Qed.

(** The [finally] block when [os.remove] always fails. *)
Lemma finally_block_remove_fails w :
  (∀ v p, os_remove env v p ≠ None) →
  (finally_block env w).1 = Ok tt
  ∧ fs (finally_block env w).2 = fs w
  ∧ ∀ p, p ∈ [LOCAL_REFERENCE_PATH; LOCAL_INSTRUMENTAL_PATH] → p ∈ fs w →
         ∃ e, ELog WARNING ("Failed to delete " +:+ p +:+ ": " +:+ exn_str e)
              ∈ trace (finally_block env w).2.
Proof.
  intros Hrm.
  unfold finally_block, cleanup, cleanup_path, mbind, M_bind, bind, get_world, try_except,
    call, logger_info, logger_warning, emit.
  simpl.
  destruct (bool_decide (LOCAL_REFERENCE_PATH ∈ fs w)) eqn:Href;
    [destruct (os_remove env w LOCAL_REFERENCE_PATH) as [e1|] eqn:R1; [|by destruct (Hrm _ _ R1)]|];
    simpl;
    (destruct (bool_decide (LOCAL_INSTRUMENTAL_PATH ∈ fs w)) eqn:Hins;
     [match goal with |- context [os_remove env ?v LOCAL_INSTRUMENTAL_PATH] =>
        destruct (os_remove env v LOCAL_INSTRUMENTAL_PATH) as [e2|] eqn:R2;
        [|by destruct (Hrm _ _ R2)] end|]);
    simpl; (split; [done|]); (split; [done|]);
    intros p Hp Hin; set_unfold;
    apply bool_decide_eq_false in Href || apply bool_decide_eq_true in Href;
    apply bool_decide_eq_false in Hins || apply bool_decide_eq_true in Hins;
    destruct Hp as [->|[->|[]]]; try done; eexists; eauto 20.
Qed.
End CleanupEdges.

(** X17.  When [os.remove] does not fail, no invocation leaves the two
    shared staging files behind: whatever the event and however it ends,
    neither /tmp/reference.wav nor /tmp/instrumental.wav exists when the
    handler returns. *)
Theorem handler_removes_shared_files (env : Env) (fuel : nat) (ev : event) (w : World) :
  (2 ≤ fuel)%nat →
  (∀ v p, os_remove env v p = None) →
  ∃ w', lambda_handler env fuel ev w = (Ok tt, w')
        ∧ (LOCAL_REFERENCE_PATH ∉ fs w')
        ∧ (LOCAL_INSTRUMENTAL_PATH ∉ fs w').
Proof.
  intros Hfuel Hrm.
  destruct (lambda_handler_run env fuel Hfuel ev w) as (w2 & w' & Hrun & Hfin & _).
  exists w'. split; [done|].
  pose proof (finally_block_removes env w2 Hrm) as Hfs. rewrite Hfin in Hfs. simpl in Hfs.
  rewrite Hfs. split; rewrite !elem_of_difference, !elem_of_singleton.
  - intros [[_ H] _]. by apply H.
  - intros [_ H]. by apply H.
Qed.

(** A rejected Job, on a /tmp that still holds the files of an earlier
    invocation. *)
Lemma handler_removes_shared_files_witness :
  ∃ w', lambda_handler happy_env 2 (one_job (PInt 42) (PStr "v42.wav") (PInt 9)) 
          (mkWorld {[ "/tmp/reference.wav"; "/tmp/instrumental.wav"; "/tmp/other" ]} None [])
        = (Ok tt, w')
        ∧ (LOCAL_REFERENCE_PATH ∉ fs w')
        ∧ (LOCAL_INSTRUMENTAL_PATH ∉ fs w').
Proof.
  apply (handler_removes_shared_files happy_env 2); [lia|reflexivity].
Defined.

(** X18.  A failure of [os.remove] is logged as a warning and goes no
    further: when every removal fails, the [finally] block still returns,
    it leaves the local files as they were, and for each of the two shared
    staging files that exists it logs "Failed to delete <path>: <e>". *)
Theorem failed_removal_is_only_logged (env : Env) (w : World) :
  (∀ v p, os_remove env v p ≠ None) →
  (finally_block env w).1 = Ok tt
  ∧ fs (finally_block env w).2 = fs w
  ∧ ∀ p, p ∈ [LOCAL_REFERENCE_PATH; LOCAL_INSTRUMENTAL_PATH] → p ∈ fs w →
         ∃ e, ELog WARNING ("Failed to delete " +:+ p +:+ ": " +:+ exn_str e)
              ∈ trace (finally_block env w).2.
Proof. apply finally_block_remove_fails. Qed.

Lemma failed_removal_is_only_logged_witness :
  fs (finally_block remove_fails_env
        (mkWorld {[ "/tmp/reference.wav"; "/tmp/instrumental.wav" ]} None [])).2
  = {[ "/tmp/reference.wav"; "/tmp/instrumental.wav" ]}.
Proof.
  refine (proj1 (proj2 (failed_removal_is_only_logged remove_fails_env
                          (mkWorld {[ "/tmp/reference.wav"; "/tmp/instrumental.wav" ]} None [])
                          _))).
  intros v p. discriminate.
Defined.

(** X19.  The cleanup touches the two shared staging files only: it never
    creates a file, and every other local file that existed before it
    exists after it, whatever [os.remove] answers. *)
Theorem finally_block_frame (env : Env) (w : World) (q : string) :
  (q ∈ fs (finally_block env w).2 → q ∈ fs w)
  ∧ (q ≠ LOCAL_REFERENCE_PATH → q ≠ LOCAL_INSTRUMENTAL_PATH →
     q ∈ fs w → q ∈ fs (finally_block env w).2).
Proof.
  split; [apply finally_block_shrinks|apply finally_block_keeps].
Qed.

Lemma finally_block_frame_witness :
  "/tmp/vocals_42.wav"
  ∈ fs (finally_block happy_env
          (mkWorld {[ "/tmp/reference.wav"; "/tmp/vocals_42.wav" ]} None [])).2.
Proof.
  refine (proj2 (finally_block_frame happy_env
                   (mkWorld {[ "/tmp/reference.wav"; "/tmp/vocals_42.wav" ]} None [])
                   "/tmp/vocals_42.wav") _ _ _); [discriminate|discriminate|].
  apply elem_of_union. right. by apply elem_of_singleton.
Defined.

(** ** The pipeline of one Job *)

Lemma wait_for_file_found_first env fuel bucket key timeout interval w :
  0 < timeout → head_object env w bucket key = None →
  wait_for_file env (S fuel) bucket key timeout interval w
  = (Ok true,
     add_effect (ELog INFO ("File " +:+ key +:+ " is now available in bucket "
                            +:+ opt_str bucket +:+ "."))
       (add_effect (EHead bucket key) w)).
Proof.
  intros Ht Hp. unfold wait_for_file. simpl.
  destruct (Z.ltb_spec 0 timeout); [|lia].
  unfold mbind, M_bind, bind, try_except_ClientError, call. by rewrite Hp.
Qed.

Lemma observed_trans w w1 w2 p1 c1 x1 p2 c2 x2 :
  observed w w1 p1 c1 x1 → observed w1 w2 p2 c2 x2 →
  observed w w2 (p1 ++ p2) (c1 ++ c2) (x1 ++ x2).
Proof.
  intros (s1 & E1 & <- & <- & <-) (s2 & E2 & <- & <- & <-).
  exists (s1 ++ s2). rewrite E2, E1, app_assoc.
  by rewrite posts_app, s3_calls_app, written_paths_app.
Qed.

Lemma bind_ok {A B} (m : M A) (k : A → M B) (w w1 : World) (a : A) :
  m w = (Ok a, w1) → (m ≫= k) w = k a w1.
Proof. intros H. unfold mbind, M_bind, bind. by rewrite H. Qed.

Lemma bind_raise {A B} (m : M A) (k : A → M B) (w w1 : World) (e : exn) :
  m w = (Raise e, w1) → (m ≫= k) w = (Raise e, w1).
Proof. intros H. unfold mbind, M_bind, bind. by rewrite H. Qed.

Section PipelineSteps.
Variable env : Env.

Lemma step_wait_found fuel bucket key timeout interval w :
  0 < timeout → head_object env w bucket key = None →
  ∃ w', wait_for_file env (S fuel) bucket key timeout interval w = (Ok true, w')
        ∧ observed w w' [] [EHead bucket key] []
        ∧ fs w' = fs w
        ∧ LAMBDA_STATIC_INSTRUMENTAL_WAV_PATH w' = LAMBDA_STATIC_INSTRUMENTAL_WAV_PATH w.
Proof.
  intros Ht Hp. rewrite wait_for_file_found_first by done.
  eexists. split; [done|]. split; [|done].
  eexists. simpl. rewrite <- app_assoc. split; [done|]. done.
Qed.

Lemma step_download bucket key path w :
  download_file env (add_effect (ELog INFO ("Downloading " +:+ key +:+ " from S3...")) w)
    bucket key path = None →
  ∃ w', download_file_from_s3 env bucket key path w = (Ok tt, w')
        ∧ observed w w' [] [EDownload bucket key path] [path]
        ∧ fs w' = fs w ∪ {[ path ]}
        ∧ LAMBDA_STATIC_INSTRUMENTAL_WAV_PATH w' = LAMBDA_STATIC_INSTRUMENTAL_WAV_PATH w.
Proof.
  intros Hd.
  unfold download_file_from_s3, try_except, mbind, M_bind, bind, call, logger_info, emit.
  rewrite Hd. eexists. split; [done|]. split; [|done].
  eexists. simpl. rewrite <- !app_assoc. split; [done|]. done.
Qed.

Lemma step_upload local_file bucket key w :
  upload_file env (add_effect (ELog INFO ("Uploading " +:+ local_file +:+ " to s3://"
                                           +:+ opt_str bucket +:+ "/" +:+ key +:+ "...")) w)
    local_file bucket key = None →
  ∃ w', upload_file_to_s3 env local_file bucket key w = (Ok tt, w')
        ∧ observed w w' [] [EUpload local_file bucket key] []
        ∧ fs w' = fs w
        ∧ LAMBDA_STATIC_INSTRUMENTAL_WAV_PATH w' = LAMBDA_STATIC_INSTRUMENTAL_WAV_PATH w.
Proof.
  intros Hu.
  unfold upload_file_to_s3, try_except, mbind, M_bind, bind, call, logger_info, emit.
  rewrite Hu. eexists. split; [done|]. split; [|done].
  eexists. simpl. rewrite <- !app_assoc. split; [done|]. done.
Qed.

Lemma step_notify sid stage action fn em w :
  ∃ w', notify_system_api env sid stage action fn em w = (Ok tt, w')
        ∧ observed w w' [mkPayload sid stage action fn em] [] []
        ∧ fs w' = fs w
        ∧ LAMBDA_STATIC_INSTRUMENTAL_WAV_PATH w' = LAMBDA_STATIC_INSTRUMENTAL_WAV_PATH w.
Proof.
  destruct (notify_system_api_run env sid stage action fn em w) as (lvl & msg & ->).
  eexists. split; [done|]. split; [|done].
  eexists. simpl. rewrite <- !app_assoc. split; [done|]. done.
Qed.

Lemma step_process_files v i o r w :
  (∀ u p, ∃ seg, from_wav env u p = inr seg) →
  (∀ u seg, export_wav env u seg = None) →
  (∀ u seg r' o', mg_process env u seg r' o' = None) →
  ∃ w', process_files env v i o r w = (Ok tt, w')
        ∧ observed w w' [] [] [o]
        ∧ fs w' = fs w ∪ {[ o ]}
        ∧ LAMBDA_STATIC_INSTRUMENTAL_WAV_PATH w' = LAMBDA_STATIC_INSTRUMENTAL_WAV_PATH w.
Proof.
  intros Hwav Hexp Hmg.
  unfold process_files, mix_tracks, try_except, mbind, M_bind, bind, AudioSegment_from_wav,
    call, logger_info, emit, ret.
  match goal with |- context [from_wav env ?u v] => destruct (Hwav u v) as [seg1 ->] end.
  cbv beta iota.
  match goal with |- context [from_wav env ?u i] => destruct (Hwav u i) as [seg2 ->] end.
  cbv beta iota. rewrite Hexp. cbv beta iota. rewrite Hmg.
  eexists. split; [done|]. split; [|done].
  eexists. simpl. rewrite <- !app_assoc. split; [done|]. done.
Qed.
End PipelineSteps.

Section HappyPath.
Variable env : Env.
Hypothesis Hall : all_succeed env.

Lemma stage_and_publish_all_succeed fuel sid tid final vocals key w p :
  (1 ≤ fuel)%nat →
  LAMBDA_STATIC_INSTRUMENTAL_WAV_PATH w = Some p →
  ∃ w',
    stage_and_publish env fuel sid tid final vocals key w = (Ok tt, w')
    ∧ observed w w' [end_event sid tid]
        [EHead (bucket_name env) LAMBDA_STATIC_REFERENCE_WAV_PATH;
         EDownload (bucket_name env) LAMBDA_STATIC_REFERENCE_WAV_PATH LOCAL_REFERENCE_PATH;
         EHead (bucket_name env) p;
         EDownload (bucket_name env) p LOCAL_INSTRUMENTAL_PATH;
         EHead (bucket_name env) key;
         EDownload (bucket_name env) key vocals;
         EUpload final (bucket_name env)
           ("matchering/final_song_" +:+ py_str sid +:+ "_" +:+ py_str tid +:+ ".wav")]
        [LOCAL_REFERENCE_PATH; LOCAL_INSTRUMENTAL_PATH; vocals; final]
    ∧ fs w' = fs w ∪ {[ LOCAL_REFERENCE_PATH ]} ∪ {[ LOCAL_INSTRUMENTAL_PATH ]}
              ∪ {[ vocals ]} ∪ {[ final ]}.
Proof.
  destruct Hall as (Hhead & Hdown & Hup & Hwav & Hexp & Hmg).
  intros Hfuel Hglobal. destruct fuel as [|fuel]; [lia|].
  destruct (step_wait_found env fuel (bucket_name env) LAMBDA_STATIC_REFERENCE_WAV_PATH 10 5 w)
    as (w1 & R1 & O1 & F1 & G1); [lia|apply Hhead|].
  destruct (step_download env (bucket_name env) LAMBDA_STATIC_REFERENCE_WAV_PATH
              LOCAL_REFERENCE_PATH w1) as (w2 & R2 & O2 & F2 & G2); [apply Hdown|].
  assert (Hread2 : read_instrumental_path w2 = (Ok p, w2)).
  { unfold read_instrumental_path. by rewrite G2, G1, Hglobal. }
  destruct (step_wait_found env fuel (bucket_name env) p 10 5 w2)
    as (w3 & R3 & O3 & F3 & G3); [lia|apply Hhead|].
  assert (Hread3 : read_instrumental_path w3 = (Ok p, w3)).
  { unfold read_instrumental_path. by rewrite G3, G2, G1, Hglobal. }
  destruct (step_download env (bucket_name env) p LOCAL_INSTRUMENTAL_PATH w3)
    as (w4 & R4 & O4 & F4 & G4); [apply Hdown|].
  destruct (step_wait_found env fuel (bucket_name env) key 10 5 w4)
    as (w5 & R5 & O5 & F5 & G5); [lia|apply Hhead|].
  destruct (step_download env (bucket_name env) key vocals w5)
    as (w6 & R6 & O6 & F6 & G6); [apply Hdown|].
  destruct (step_process_files env vocals LOCAL_INSTRUMENTAL_PATH final LOCAL_REFERENCE_PATH w6
              Hwav Hexp Hmg) as (w7 & R7 & O7 & F7 & G7).
  destruct (step_upload env final (bucket_name env)
              ("matchering/final_song_" +:+ py_str sid +:+ "_" +:+ py_str tid +:+ ".wav") w7)
    as (w8 & R8 & O8 & F8 & G8); [apply Hup|].
  destruct (step_notify env sid "matchering" "end"
              (Some ("final_song_" +:+ py_str sid +:+ "_" +:+ py_str tid +:+ ".wav")) None w8)
    as (w9 & R9 & O9 & F9 & G9).
  exists w9. split; [|split].
  - unfold stage_and_publish.
    rewrite (bind_ok _ _ _ _ _ R1). cbv beta iota.
    rewrite (bind_ok _ _ _ _ _ R2).
    rewrite (bind_ok _ _ _ _ _ Hread2).
    rewrite (bind_ok _ _ _ _ _ R3). cbv beta iota.
    erewrite (bind_ok _ _ w3 w4); [|by rewrite (bind_ok _ _ _ _ _ Hread3)].
    rewrite (bind_ok _ _ _ _ _ R5). cbv beta iota.
    rewrite (bind_ok _ _ _ _ _ R6).
    rewrite (bind_ok _ _ _ _ _ R7).
    rewrite (bind_ok _ _ _ _ _ R8).
    exact R9.
  - pose proof (observed_trans _ _ _ _ _ _ _ _ _ O1 O2) as H.
    pose proof (observed_trans _ _ _ _ _ _ _ _ _ H O3) as H3.
    pose proof (observed_trans _ _ _ _ _ _ _ _ _ H3 O4) as H4.
    pose proof (observed_trans _ _ _ _ _ _ _ _ _ H4 O5) as H5.
    pose proof (observed_trans _ _ _ _ _ _ _ _ _ H5 O6) as H6.
    pose proof (observed_trans _ _ _ _ _ _ _ _ _ H6 O7) as H7.
    pose proof (observed_trans _ _ _ _ _ _ _ _ _ H7 O8) as H8.
    exact (observed_trans _ _ _ _ _ _ _ _ _ H8 O9).
  - by rewrite F9, F8, F7, F6, F5, F4, F3, F2, F1.
Qed.

(** The Job of a record that is accepted, when nothing fails. *)
Lemma loop_body_all_succeed fuel sid0 b w f :
  (1 ≤ fuel)%nat →
  truthy (dict_get b "trackID") = true →
  TRACK_FILENAMES_get (dict_get b "trackID") = Some f →
  let sid := dict_get b "songID" in
  let tid := dict_get b "trackID" in
  ∃ w',
    loop_body env fuel sid0 (mkRecord (Some (JObject b))) w = (sid, Ok tt, w')
    ∧ observed w w' [start_event sid; end_event sid tid]
        [EHead (bucket_name env) LAMBDA_STATIC_REFERENCE_WAV_PATH;
         EDownload (bucket_name env) LAMBDA_STATIC_REFERENCE_WAV_PATH LOCAL_REFERENCE_PATH;
         EHead (bucket_name env) ("static/audio/" +:+ f);
         EDownload (bucket_name env) ("static/audio/" +:+ f) LOCAL_INSTRUMENTAL_PATH;
         EHead (bucket_name env) (lambda_vocals_path (dict_get b "fileName"));
         EDownload (bucket_name env) (lambda_vocals_path (dict_get b "fileName"))
           (local_vocals_path sid);
         EUpload (local_final_file sid) (bucket_name env)
           ("matchering/final_song_" +:+ py_str sid +:+ "_" +:+ py_str tid +:+ ".wav")]
        [LOCAL_REFERENCE_PATH; LOCAL_INSTRUMENTAL_PATH; local_vocals_path sid;
         local_final_file sid]
    ∧ fs w' = fs w ∪ {[ LOCAL_REFERENCE_PATH ]} ∪ {[ LOCAL_INSTRUMENTAL_PATH ]}
              ∪ {[ local_vocals_path sid ]} ∪ {[ local_final_file sid ]}.
Proof.
  intros Hfuel Ht Hf sid tid. unfold loop_body. cbn [load_body body].
  rewrite (process_job_resolved env fuel _ _ _ w f Ht Hf).
  destruct (step_notify env (dict_get b "songID") "matchering" "start" None None
              (set_global ("static/audio/" +:+ f) w)) as (w1 & R1 & O1 & F1 & G1).
  destruct (stage_and_publish_all_succeed fuel sid tid (local_final_file sid)
              (local_vocals_path sid) (lambda_vocals_path (dict_get b "fileName")) w1
              ("static/audio/" +:+ f) Hfuel) as (w2 & R2 & O2 & F2); [by rewrite G1|].
  rewrite (bind_ok _ _ _ _ _ R1). fold sid tid. rewrite R2.
  exists w2. split; [done|]. split.
  - exact (observed_trans _ _ _ _ _ _ _ _ _ O1 O2).
  - by rewrite F2, F1.
Qed.
End HappyPath.

(** X20.  When every collaborator answers without a failure, a Job whose
    trackID resolves to the catalog file [f] runs the whole pipeline in
    this order: probe and download of the reference, of the instrumental
    "static/audio/<f>" and of the vocals "utau_inference/<fileName>", then
    the upload of the final file under
    "matchering/final_song_<songID>_<trackID>.wav".  The StatusEvents are
    [start] and [end], the [end] event naming the uploaded file without
    the "matchering/" prefix. *)
Theorem job_pipeline_order (env : Env) (fuel : nat) (b : gmap string pyval) (w : World)
    (f : string) :
  (1 ≤ fuel)%nat →
  all_succeed env →
  truthy (dict_get b "trackID") = true →
  TRACK_FILENAMES_get (dict_get b "trackID") = Some f →
  let sid := dict_get b "songID" in
  let tid := dict_get b "trackID" in
  ∃ w' sfx,
    lambda_handler env fuel (mkEvent (Some [mkRecord (Some (JObject b))])) w = (Ok tt, w')
    ∧ trace w' = trace w ++ sfx
    ∧ posts sfx = [start_event sid; end_event sid tid]
    ∧ s3_calls sfx
      = [EHead (bucket_name env) LAMBDA_STATIC_REFERENCE_WAV_PATH;
         EDownload (bucket_name env) LAMBDA_STATIC_REFERENCE_WAV_PATH LOCAL_REFERENCE_PATH;
         EHead (bucket_name env) ("static/audio/" +:+ f);
         EDownload (bucket_name env) ("static/audio/" +:+ f) LOCAL_INSTRUMENTAL_PATH;
         EHead (bucket_name env) (lambda_vocals_path (dict_get b "fileName"));
         EDownload (bucket_name env) (lambda_vocals_path (dict_get b "fileName"))
           (local_vocals_path sid);
         EUpload (local_final_file sid) (bucket_name env)
           ("matchering/final_song_" +:+ py_str sid +:+ "_" +:+ py_str tid +:+ ".wav")]
    ∧ written_paths sfx
      = [LOCAL_REFERENCE_PATH; LOCAL_INSTRUMENTAL_PATH; local_vocals_path sid;
         local_final_file sid].
Proof.
  intros Hfuel Hall Ht Hf sid tid.
  set (ev := mkEvent (Some [mkRecord (Some (JObject b))])).
  destruct (loop_body_all_succeed env Hall fuel (PInt 0) b (prelude env ev w) f Hfuel Ht Hf)
    as (w1 & Hrun & (body & Hbody & Hp & Hs & Hw) & _).
  destruct (lambda_handler_observed env fuel ev w sid (Ok tt) w1 body)
    as (w' & sfx & ? & ? & Hposts & Hcalls & Hwrites); [|done|done|].
  { unfold ev. by rewrite try_block_one. }
  exists w', sfx. split; [done|]. split; [done|].
  rewrite Hposts, Hcalls, Hwrites, Hp, Hs, Hw. by rewrite app_nil_r.
Qed.

Lemma job_pipeline_order_witness :
  ∃ w' sfx,
    lambda_handler happy_env 2 (one_job (PInt 42) (PStr "v42.wav") (PInt 2)) empty_world
    = (Ok tt, w')
    ∧ trace w' = trace empty_world ++ sfx
    ∧ posts sfx = [start_event (PInt 42); end_event (PInt 42) (PInt 2)].
Proof.
  destruct (job_pipeline_order happy_env 2 (job_body (PInt 42) (PStr "v42.wav") (PInt 2))
              empty_world "norteno_track2.wav")
    as (w' & sfx & H1 & H2 & H3 & _);
    [lia|repeat split; intros; by eauto|reflexivity|reflexivity|].
  by exists w', sfx.
Defined.

(** ** Assets that do not appear *)

Section Unavailable.
Variable env : Env.

Lemma step_wait_timeout fuel bucket key w :
  (2 ≤ fuel)%nat →
  (∀ u, is_404 (head_object env u bucket key) = true) →
  ∃ w', wait_for_file env fuel bucket key 10 5 w = (Ok false, w')
        ∧ observed w w' [] [EHead bucket key; EHead bucket key] []
        ∧ fs w' = fs w
        ∧ LAMBDA_STATIC_INSTRUMENTAL_WAV_PATH w' = LAMBDA_STATIC_INSTRUMENTAL_WAV_PATH w.
Proof.
  intros Hfuel Hmiss. unfold wait_for_file.
  destruct (wait_loop_times_out env bucket key 10 5 fuel 0 w) as (n & Hrun & Hup & Hlow);
    [lia|lia|intros k _; apply Hmiss|].
  assert (n = 2%nat) as -> by (destruct n as [|[|[|n]]]; lia).
  rewrite Hrun. eexists. split; [done|]. split; [|done].
  eexists. simpl. rewrite <- !app_assoc. split; [done|]. done.
Qed.

(** The Job of a record that is accepted, when the reference never
    appears. *)
Lemma loop_body_without_reference fuel sid0 b w f :
  (2 ≤ fuel)%nat →
  (∀ u, is_404 (head_object env u (bucket_name env) LAMBDA_STATIC_REFERENCE_WAV_PATH) = true) →
  truthy (dict_get b "trackID") = true →
  TRACK_FILENAMES_get (dict_get b "trackID") = Some f →
  let sid := dict_get b "songID" in
  ∃ w',
    loop_body env fuel sid0 (mkRecord (Some (JObject b))) w
    = (sid, Raise (PlainException "Reference file not available within timeout"), w')
    ∧ observed w w' [start_event sid]
        [EHead (bucket_name env) LAMBDA_STATIC_REFERENCE_WAV_PATH;
         EHead (bucket_name env) LAMBDA_STATIC_REFERENCE_WAV_PATH] [].
Proof.
  intros Hfuel Hmiss Ht Hf sid. unfold loop_body. cbn [load_body body].
  rewrite (process_job_resolved env fuel _ _ _ w f Ht Hf).
  destruct (step_notify env (dict_get b "songID") "matchering" "start" None None
              (set_global ("static/audio/" +:+ f) w)) as (w1 & R1 & O1 & F1 & G1).
  destruct (step_wait_timeout fuel (bucket_name env) LAMBDA_STATIC_REFERENCE_WAV_PATH w1
              Hfuel Hmiss) as (w2 & R2 & O2 & F2 & G2).
  rewrite (bind_ok _ _ _ _ _ R1). unfold stage_and_publish.
  rewrite (bind_ok _ _ _ _ _ R2). cbv beta iota.
  erewrite bind_raise by reflexivity.
  exists w2. split; [done|].
  exact (observed_trans _ _ _ _ _ _ _ _ _ O1 O2).
Qed.

Lemma lambda_vocals_path_not_static fn k :
  lambda_vocals_path fn ≠ "static/audio/" +:+ k.
Proof. unfold lambda_vocals_path. simpl. discriminate. Qed.

(** The Job of a record that is accepted, when the reference and the
    instrumental are there and the vocals never appear. *)
Lemma loop_body_without_vocals fuel sid0 b w f :
  (2 ≤ fuel)%nat →
  let key := lambda_vocals_path (dict_get b "fileName") in
  (∀ u k, k ≠ key → head_object env u (bucket_name env) k = None) →
  (∀ u, is_404 (head_object env u (bucket_name env) key) = true) →
  (∀ u bk k p, download_file env u bk k p = None) →
  truthy (dict_get b "trackID") = true →
  TRACK_FILENAMES_get (dict_get b "trackID") = Some f →
  let sid := dict_get b "songID" in
  ∃ w',
    loop_body env fuel sid0 (mkRecord (Some (JObject b))) w
    = (sid, Raise (PlainException ("Vocals file not available: " +:+ key)), w')
    ∧ observed w w' [start_event sid]
        [EHead (bucket_name env) LAMBDA_STATIC_REFERENCE_WAV_PATH;
         EDownload (bucket_name env) LAMBDA_STATIC_REFERENCE_WAV_PATH LOCAL_REFERENCE_PATH;
         EHead (bucket_name env) ("static/audio/" +:+ f);
         EDownload (bucket_name env) ("static/audio/" +:+ f) LOCAL_INSTRUMENTAL_PATH;
         EHead (bucket_name env) key;
         EHead (bucket_name env) key]
        [LOCAL_REFERENCE_PATH; LOCAL_INSTRUMENTAL_PATH].
Proof.
  intros Hfuel key Hfound Hmiss Hdown Ht Hf sid. unfold loop_body. cbn [load_body body].
  rewrite (process_job_resolved env fuel _ _ _ w f Ht Hf).
  destruct fuel as [|fuel]; [lia|].
  destruct (step_notify env (dict_get b "songID") "matchering" "start" None None
              (set_global ("static/audio/" +:+ f) w)) as (w1 & R1 & O1 & F1 & G1).
  destruct (step_wait_found env fuel (bucket_name env) LAMBDA_STATIC_REFERENCE_WAV_PATH 10 5 w1)
    as (w2 & R2 & O2 & F2 & G2); [lia| |].
  { apply Hfound. intros H. symmetry in H. by apply (lambda_vocals_path_not_static _ _ H). }
  destruct (step_download env (bucket_name env) LAMBDA_STATIC_REFERENCE_WAV_PATH
              LOCAL_REFERENCE_PATH w2) as (w3 & R3 & O3 & F3 & G3); [apply Hdown|].
  assert (Hread3 : read_instrumental_path w3 = (Ok ("static/audio/" +:+ f), w3)).
  { unfold read_instrumental_path. by rewrite G3, G2, G1. }
  destruct (step_wait_found env fuel (bucket_name env) ("static/audio/" +:+ f) 10 5 w3)
    as (w4 & R4 & O4 & F4 & G4); [lia| |].
  { apply Hfound. intros H. symmetry in H. by apply (lambda_vocals_path_not_static _ _ H). }
  assert (Hread4 : read_instrumental_path w4 = (Ok ("static/audio/" +:+ f), w4)).
  { unfold read_instrumental_path. by rewrite G4, G3, G2, G1. }
  destruct (step_download env (bucket_name env) ("static/audio/" +:+ f)
              LOCAL_INSTRUMENTAL_PATH w4) as (w5 & R5 & O5 & F5 & G5); [apply Hdown|].
  destruct (step_wait_timeout (S fuel) (bucket_name env) key w5 Hfuel Hmiss)
    as (w6 & R6 & O6 & F6 & G6).
  rewrite (bind_ok _ _ _ _ _ R1). unfold stage_and_publish.
  rewrite (bind_ok _ _ _ _ _ R2). cbv beta iota.
  rewrite (bind_ok _ _ _ _ _ R3).
  rewrite (bind_ok _ _ _ _ _ Hread3).
  rewrite (bind_ok _ _ _ _ _ R4). cbv beta iota.
  erewrite (bind_ok _ _ w4 w5); [|by rewrite (bind_ok _ _ _ _ _ Hread4)].
  fold key. rewrite (bind_ok _ _ _ _ _ R6). cbv beta iota.
  erewrite bind_raise by reflexivity.
  exists w6. split; [done|].
  pose proof (observed_trans _ _ _ _ _ _ _ _ _ O1 O2) as H2.
  pose proof (observed_trans _ _ _ _ _ _ _ _ _ H2 O3) as H3.
  pose proof (observed_trans _ _ _ _ _ _ _ _ _ H3 O4) as H4.
  pose proof (observed_trans _ _ _ _ _ _ _ _ _ H4 O5) as H5.
  exact (observed_trans _ _ _ _ _ _ _ _ _ H5 O6).
Qed.
End Unavailable.

(** X21.  When the reference track never appears, the Job stops after the
    two probes of the handler's timeout: nothing is downloaded, the
    instrumental and the vocals are not even probed, and after [start] the
    error StatusEvent reports "Reference file not available within
    timeout". *)
Theorem reference_unavailable (env : Env) (fuel : nat) (b : gmap string pyval) (w : World)
    (f : string) :
  (2 ≤ fuel)%nat →
  (∀ u, is_404 (head_object env u (bucket_name env) LAMBDA_STATIC_REFERENCE_WAV_PATH) = true) →
  truthy (dict_get b "trackID") = true →
  TRACK_FILENAMES_get (dict_get b "trackID") = Some f →
  let sid := dict_get b "songID" in
  ∃ w' sfx,
    lambda_handler env fuel (mkEvent (Some [mkRecord (Some (JObject b))])) w = (Ok tt, w')
    ∧ trace w' = trace w ++ sfx
    ∧ posts sfx = [start_event sid;
                   error_event sid (PlainException "Reference file not available within timeout")]
    ∧ s3_calls sfx = [EHead (bucket_name env) LAMBDA_STATIC_REFERENCE_WAV_PATH;
                      EHead (bucket_name env) LAMBDA_STATIC_REFERENCE_WAV_PATH]
    ∧ written_paths sfx = [].
Proof.
  intros Hfuel Hmiss Ht Hf sid.
  set (ev := mkEvent (Some [mkRecord (Some (JObject b))])).
  destruct (loop_body_without_reference env fuel (PInt 0) b (prelude env ev w) f Hfuel Hmiss Ht Hf)
    as (w1 & Hrun & (body & Hbody & Hp & Hs & Hw)).
  destruct (lambda_handler_observed env fuel ev w sid
              (Raise (PlainException "Reference file not available within timeout")) w1 body)
    as (w' & sfx & ? & ? & Hposts & Hcalls & Hwrites); [|done|done|].
  { unfold ev. by rewrite try_block_one. }
  exists w', sfx. split; [done|]. split; [done|].
  by rewrite Hposts, Hcalls, Hwrites, Hp, Hs, Hw.
Qed.

Lemma reference_unavailable_witness :
  ∃ w' sfx,
    lambda_handler absent_env 2 (one_job (PInt 42) (PStr "v42.wav") (PInt 2)) empty_world
    = (Ok tt, w')
    ∧ trace w' = trace empty_world ++ sfx
    ∧ posts sfx = [start_event (PInt 42);
                   error_event (PInt 42)
                     (PlainException "Reference file not available within timeout")]
    ∧ s3_calls sfx = [EHead (Some "bucket") "static/audio/reference.wav";
                      EHead (Some "bucket") "static/audio/reference.wav"]
    ∧ written_paths sfx = [].
Proof.
  apply (reference_unavailable absent_env 2 (job_body (PInt 42) (PStr "v42.wav") (PInt 2))
           empty_world "norteno_track2.wav"); [lia|by intros|reflexivity|reflexivity].
Defined.

(** X22.  When the reference and the instrumental are there and the
    vocals never appear, both are downloaded before the Job stops; the
    error StatusEvent reports "Vocals file not available:
    utau_inference/<fileName>"; no vocals and no final file are written;
    and if [os.remove] does not fail, the two downloaded files are gone
    when the handler returns. *)
Theorem vocals_unavailable (env : Env) (fuel : nat) (b : gmap string pyval) (w : World)
    (f : string) :
  (2 ≤ fuel)%nat →
  let key := lambda_vocals_path (dict_get b "fileName") in
  (∀ u k, k ≠ key → head_object env u (bucket_name env) k = None) →
  (∀ u, is_404 (head_object env u (bucket_name env) key) = true) →
  (∀ u bk k p, download_file env u bk k p = None) →
  (∀ u p, os_remove env u p = None) →
  truthy (dict_get b "trackID") = true →
  TRACK_FILENAMES_get (dict_get b "trackID") = Some f →
  let sid := dict_get b "songID" in
  ∃ w' sfx,
    lambda_handler env fuel (mkEvent (Some [mkRecord (Some (JObject b))])) w = (Ok tt, w')
    ∧ trace w' = trace w ++ sfx
    ∧ posts sfx = [start_event sid;
                   error_event sid (PlainException ("Vocals file not available: " +:+ key))]
    ∧ s3_calls sfx
      = [EHead (bucket_name env) LAMBDA_STATIC_REFERENCE_WAV_PATH;
         EDownload (bucket_name env) LAMBDA_STATIC_REFERENCE_WAV_PATH LOCAL_REFERENCE_PATH;
         EHead (bucket_name env) ("static/audio/" +:+ f);
         EDownload (bucket_name env) ("static/audio/" +:+ f) LOCAL_INSTRUMENTAL_PATH;
         EHead (bucket_name env) key;
         EHead (bucket_name env) key]
    ∧ written_paths sfx = [LOCAL_REFERENCE_PATH; LOCAL_INSTRUMENTAL_PATH]
    ∧ (LOCAL_REFERENCE_PATH ∉ fs w')
    ∧ (LOCAL_INSTRUMENTAL_PATH ∉ fs w').
Proof.
  intros Hfuel key Hfound Hmiss Hdown Hrm Ht Hf sid.
  set (ev := mkEvent (Some [mkRecord (Some (JObject b))])).
  destruct (loop_body_without_vocals env fuel (PInt 0) b (prelude env ev w) f Hfuel
              Hfound Hmiss Hdown Ht Hf) as (w1 & Hrun & (body & Hbody & Hp & Hs & Hw)).
  destruct (lambda_handler_observed env fuel ev w sid
              (Raise (PlainException ("Vocals file not available: " +:+ key))) w1 body)
    as (w' & sfx & Hh & ? & Hposts & Hcalls & Hwrites); [|done|done|].
  { unfold ev. by rewrite try_block_one. }
  exists w', sfx. split; [done|]. split; [done|].
  rewrite Hposts, Hcalls, Hwrites, Hp, Hs, Hw.
  split; [done|]. split; [done|]. split; [done|].
  destruct (lambda_handler_run env fuel Hfuel ev w) as (w2 & w'' & Hrun' & Hfin & _).
  rewrite Hh in Hrun'. injection Hrun' as <-.
  pose proof (finally_block_removes env w2 Hrm) as Hfs. rewrite Hfin in Hfs. simpl in Hfs.
  rewrite Hfs. split; rewrite !elem_of_difference, !elem_of_singleton.
  - intros [[_ H'] _]. by apply H'.
  - intros [_ H']. by apply H'.
Qed.

Lemma vocals_unavailable_witness :
  ∃ w' sfx,
    lambda_handler no_vocals_env 2 (one_job (PInt 42) (PStr "v42.wav") (PInt 2)) empty_world
    = (Ok tt, w')
    ∧ trace w' = trace empty_world ++ sfx
    ∧ posts sfx = [start_event (PInt 42);
                   error_event (PInt 42)
                     (PlainException "Vocals file not available: utau_inference/v42.wav")]
    ∧ written_paths sfx = ["/tmp/reference.wav"; "/tmp/instrumental.wav"]
    ∧ fs w' = ∅.
Proof.
  destruct (vocals_unavailable no_vocals_env 2 (job_body (PInt 42) (PStr "v42.wav") (PInt 2))
              empty_world "norteno_track2.wav")
    as (w' & sfx & Hrun & Htr & Hp & _ & Hw & _);
    [lia| |by intros|by intros|by intros|reflexivity|reflexivity|].
  { intros u k Hk. simpl. apply String.eqb_neq in Hk.
    change (lambda_vocals_path (dict_get (job_body (PInt 42) (PStr "v42.wav") (PInt 2))
                                  "fileName")) with "utau_inference/v42.wav" in Hk.
    by rewrite Hk. }
  exists w', sfx. split; [exact Hrun|]. split; [exact Htr|]. split; [exact Hp|].
  split; [exact Hw|].
  vm_compute in Hrun. by injection Hrun as <-.
Defined.

(** ** The key of the uploaded file *)

Lemma pretty_N_go_lacks_underscore (x : N) : ∀ s,
  lacks "_"%char s → lacks "_"%char (pretty_N_go x s).
Proof.
  induction (N.lt_wf_0 x) as [x _ IH]; intros s Hs.
  assert (x = 0 ∨ 0 < x)%N as [->|?] by lia.
  - by rewrite pretty_N_go_0.
  - rewrite pretty_N_go_step by done. apply IH.
    { by apply N.div_lt. }
    simpl. split; [|done]. unfold pretty_N_char. by repeat case_match.
Qed.

Lemma pretty_Z_lacks_underscore (z : Z) : lacks "_"%char (pretty z).
Proof.
  assert (HN : ∀ n : N, lacks "_"%char (pretty n)).
  { intros n. unfold pretty, pretty_N. destruct (decide (n = 0%N)).
    - simpl. split; [discriminate|done].
    - by apply pretty_N_go_lacks_underscore. }
  destruct z as [|p|p]; unfold pretty, pretty_Z.
  - simpl. split; [discriminate|done].
  - apply HN.
  - simpl. split; [discriminate|]. apply HN.
Qed.

Lemma split_at_underscore (a b x y : string) :
  lacks "_"%char a → lacks "_"%char b →
  a +:+ "_" +:+ x = b +:+ "_" +:+ y → a = b ∧ x = y.
Proof.
  revert b. induction a as [|c a IH]; intros [|d b] Ha Hb H; simpl in *.
  - injection H as H. by subst.
  - injection H as H _. subst d. by destruct Hb as [Hb _].
  - injection H as H _. subst c. by destruct Ha as [Ha _].
  - injection H as H1 H. subst d. destruct Ha as [_ Ha], Hb as [_ Hb].
    destruct (IH b Ha Hb H) as [-> ->]. done.
Qed.

(** X23.  The name of the final file determines the Job: for integer
    songIDs and trackIDs, two [end] StatusEvents name the same file, and
    two Jobs upload under the same key
    "matchering/final_song_<songID>_<trackID>.wav", only if both ids are
    the same. *)
Theorem final_name_determines_job (s1 t1 s2 t2 : Z) :
  (end_event (PInt s1) (PInt t1) = end_event (PInt s2) (PInt t2) → s1 = s2 ∧ t1 = t2)
  ∧ ("matchering/final_song_" +:+ py_str (PInt s1) +:+ "_" +:+ py_str (PInt t1) +:+ ".wav"
     = "matchering/final_song_" +:+ py_str (PInt s2) +:+ "_" +:+ py_str (PInt t2) +:+ ".wav"
     → s1 = s2 ∧ t1 = t2).
Proof.
  assert (Hkey : ∀ pre,
            pre +:+ pretty s1 +:+ "_" +:+ pretty t1 +:+ ".wav"
            = pre +:+ pretty s2 +:+ "_" +:+ pretty t2 +:+ ".wav" → s1 = s2 ∧ t1 = t2).
  { intros pre H. apply (inj (String.append pre)) in H.
    apply split_at_underscore in H as [Hs Ht]; try apply pretty_Z_lacks_underscore.
    apply string_app_inj_r in Ht. split; by apply (inj pretty). }
  split.
  - unfold end_event. simpl py_str. intros H. injection H as _ H. exact (Hkey "" H).
  - simpl py_str. apply Hkey.
Qed.

(** ** The [end] event and the upload *)

Lemma ends_after_bind {A} (e : effect) (p : Payload) (m : M A) (k : A → M unit) :
  appends (λ x, is_post x = false) m → halts m → (∀ a, ends_after e p (k a)) →
  ends_after e p (m ≫= k).
Proof.
  intros Hm Hh Hk w. unfold mbind, M_bind, bind.
  destruct (Hm w) as (s0 & E0 & F0). specialize (Hh w).
  destruct (m w) as [[a|x|] w1]; simpl in *; [| |done].
  - destruct (Hk a w1) as (sfx & E & Hr). exists (s0 ++ sfx).
    rewrite E, E0, app_assoc. split; [done|].
    destruct ((k a w1).1); [|by rewrite posts_app, (posts_quiet s0 F0), Hr|done].
    destruct Hr as (s1 & s2 & -> & H1 & H2).
    exists (s0 ++ s1), s2. rewrite <- app_assoc. split; [done|].
    by rewrite posts_app, (posts_quiet s0 F0), H1.
  - exists s0. split; [done|]. by apply posts_quiet.
Qed.

Lemma upload_file_to_s3_transparent_aux env local_file bucket key w :
  match upload_file env (add_effect (ELog INFO ("Uploading " +:+ local_file +:+ " to s3://"
                                                +:+ opt_str bucket +:+ "/" +:+ key +:+ "...")) w)
          local_file bucket key with
  | None =>
      (upload_file_to_s3 env local_file bucket key w).1 = Ok tt
      ∧ trace (upload_file_to_s3 env local_file bucket key w).2
        = trace w ++ [ELog INFO ("Uploading " +:+ local_file +:+ " to s3://" +:+ opt_str bucket
                                 +:+ "/" +:+ key +:+ "...");
                      EUpload local_file bucket key;
                      ELog INFO ("File " +:+ local_file +:+ " uploaded successfully.")]
  | Some e =>
      (upload_file_to_s3 env local_file bucket key w).1 = Raise e
      ∧ trace (upload_file_to_s3 env local_file bucket key w).2
        = trace w ++ [ELog INFO ("Uploading " +:+ local_file +:+ " to s3://" +:+ opt_str bucket
                                 +:+ "/" +:+ key +:+ "...");
                      EUpload local_file bucket key;
                      ELog ERROR ("Error uploading file to S3: " +:+ exn_str e)]
  end.
Proof.
  unfold upload_file_to_s3, try_except, mbind, M_bind, bind, call, logger_info, logger_error,
    emit, raise.
  simpl. destruct (upload_file env _ local_file bucket key); simpl;
    rewrite <- ?app_assoc; done.
Qed.

Lemma ends_after_upload env local_file bucket key sid stage action fn em :
  ends_after (EUpload local_file bucket key) (mkPayload sid stage action fn em)
    (upload_file_to_s3 env local_file bucket key;;
     notify_system_api env sid stage action fn em).
Proof.
  intros w. unfold mbind, M_bind, bind.
  pose proof (upload_file_to_s3_transparent_aux env local_file bucket key w) as Hup.
  destruct (upload_file_to_s3 env local_file bucket key w) as [r w1]. simpl in Hup.
  destruct (upload_file env _ local_file bucket key) as [x|].
  - destruct Hup as [-> E1]. simpl. rewrite E1. eexists. split; [done|]. done.
  - destruct Hup as [-> E1].
    destruct (notify_system_api_run env sid stage action fn em w1) as (lvl & msg & ->).
    simpl. rewrite E1, <- !app_assoc. eexists. split; [done|].
    eexists [_], _. split; [done|]. done.
Qed.

Lemma ends_after_stage_and_publish env fuel sid tid final vocals key :
  (2 ≤ fuel)%nat →
  ends_after
    (EUpload final (bucket_name env)
       ("matchering/final_song_" +:+ py_str sid +:+ "_" +:+ py_str tid +:+ ".wav"))
    (end_event sid tid)
    (stage_and_publish env fuel sid tid final vocals key).
Proof.
  intros Hfuel. unfold stage_and_publish.
  do 8 (apply ends_after_bind; [job_steps|job_steps|intros ?]).
  apply ends_after_upload.
Qed.

Lemma loop_body_object env fuel sid0 b w :
  loop_body env fuel sid0 (mkRecord (Some (JObject b))) w
  = (dict_get b "songID",
     (process_job env fuel (dict_get b "songID") (dict_get b "fileName")
        (dict_get b "trackID") w).1,
     (process_job env fuel (dict_get b "songID") (dict_get b "fileName")
        (dict_get b "trackID") w).2).
Proof. unfold loop_body. cbn [load_body body]. by destruct (process_job _ _ _ _ _ _). Qed.

(** X24.  An [end] StatusEvent is sent only for a Job that was processed
    to its end, and then the upload of the final file under
    "matchering/final_song_<songID>_<trackID>.wav" precedes it in the
    trace, with no other StatusEvent in between, and the final file exists
    locally. *)
Theorem end_event_follows_upload (env : Env) (fuel : nat) (b : gmap string pyval)
    (sid0 : pyval) (w : World) :
  (2 ≤ fuel)%nat →
  let sid := dict_get b "songID" in
  let tid := dict_get b "trackID" in
  let run := loop_body env fuel sid0 (mkRecord (Some (JObject b))) w in
  ∃ sfx,
    trace run.2 = trace w ++ sfx
    ∧ ∀ p, p ∈ posts sfx → p_action p = "end" →
        run.1.2 = Ok tt
        ∧ p = end_event sid tid
        ∧ local_final_file sid ∈ fs run.2
        ∧ ∃ s1 s2,
            sfx = s1 ++ EUpload (local_final_file sid) (bucket_name env)
                          ("matchering/final_song_" +:+ py_str sid +:+ "_" +:+ py_str tid
                           +:+ ".wav") :: s2
            ∧ posts s1 = [start_event sid]
            ∧ posts s2 = [end_event sid tid].
Proof.
  intros Hfuel sid tid run. subst run. rewrite loop_body_object. fold sid tid.
  cbn [fst snd].
  destruct (creates_process_job env fuel sid (dict_get b "fileName") tid) as [_ Hfile].
  specialize (Hfile w).
  destruct (resolves tid) eqn:Hres.
  - apply resolves_true in Hres as (Ht & f & Hf).
    rewrite (process_job_resolved env fuel sid _ tid w f Ht Hf) in *.
    unfold mbind, M_bind, bind in *.
    destruct (notify_system_api_run env sid "matchering" "start" None None
                (set_global ("static/audio/" +:+ f) w)) as (lvl & msg & E0).
    rewrite E0 in *.
    match goal with |- context [stage_and_publish ?e ?fu ?s ?t ?x ?y ?z ?v] =>
      destruct (ends_after_stage_and_publish e fu s t x y z Hfuel v) as (sfx & E & Hr);
      destruct (stage_and_publish e fu s t x y z v) as [r w1] end.
    cbn [fst snd] in *. rewrite E. cbn [trace add_effect set_global]. rewrite <- !app_assoc.
    eexists. split; [done|].
    intros p Hp Hend. rewrite !posts_app in Hp.
    change (posts [EPrint (start_event sid)]) with (@nil Payload) in Hp.
    change (posts [ELog lvl msg]) with (@nil Payload) in Hp.
    change (posts [EPost (webhook_url env) (start_event sid)]) with [start_event sid] in Hp.
    cbn [app] in Hp.
    destruct r as [[]|x|]; [| |done].
    + destruct Hr as (s1 & s2 & -> & H1 & H2).
      rewrite posts_app in Hp.
      change (posts (?e :: s2)) with (posts [e] ++ posts s2) in Hp.
      rewrite H1, H2 in Hp. cbn [app posts omap] in Hp.
      split; [done|]. split.
      { apply elem_of_cons in Hp as [->|Hp]; [done|].
        apply elem_of_cons in Hp as [->|Hp]; [done|]. by apply elem_of_nil in Hp. }
      split; [by eapply Hfile|].
      eexists (_ :: _ :: _ :: s1), s2. split; [done|].
      split; [|done]. change (posts ([EPrint (start_event sid);
                                      EPost (webhook_url env) (start_event sid);
                                      ELog lvl msg] ++ s1) = [start_event sid]).
      by rewrite posts_app, H1.
    + rewrite Hr in Hp.
      apply elem_of_cons in Hp as [->|Hp]; [done|]. by apply elem_of_nil in Hp.
  - rewrite process_job_rejected by done. cbn [fst snd]. exists []. rewrite app_nil_r.
    split; [done|]. intros p Hp. by apply elem_of_nil in Hp.
Qed.

Lemma end_event_follows_upload_witness :
  (loop_body happy_env 2 (PInt 0) (job_record (PInt 42) (PStr "v42.wav") (PInt 2)) empty_world).1.2
  = Ok tt.
Proof.
  destruct (end_event_follows_upload happy_env 2 (job_body (PInt 42) (PStr "v42.wav") (PInt 2))
              (PInt 0) empty_world) as (sfx & Htr & Hend); [lia|].
  apply (Hend (end_event (PInt 42) (PInt 2))); [|reflexivity].
  vm_compute in Htr. subst sfx. vm_compute. right. left.
Defined.

(** ** Failures of the mastering and of the upload *)

Section LateFailures.
Variable env : Env.
Hypothesis Hhead : ∀ w b k, head_object env w b k = None.
Hypothesis Hdown : ∀ w b k p, download_file env w b k p = None.

(** With every asset found and downloaded, what remains of the Job is the
    mixing and mastering, the upload and the [end] event. *)
Lemma stage_and_publish_staged fuel sid tid final vocals key w p :
  (1 ≤ fuel)%nat →
  LAMBDA_STATIC_INSTRUMENTAL_WAV_PATH w = Some p →
  ∃ w',
    stage_and_publish env fuel sid tid final vocals key w
    = (process_files env vocals LOCAL_INSTRUMENTAL_PATH final LOCAL_REFERENCE_PATH;;
       upload_file_to_s3 env final (bucket_name env)
         ("matchering/final_song_" +:+ py_str sid +:+ "_" +:+ py_str tid +:+ ".wav");;
       notify_system_api env sid "matchering" "end"
         (Some ("final_song_" +:+ py_str sid +:+ "_" +:+ py_str tid +:+ ".wav")) None) w'
    ∧ observed w w' []
        [EHead (bucket_name env) LAMBDA_STATIC_REFERENCE_WAV_PATH;
         EDownload (bucket_name env) LAMBDA_STATIC_REFERENCE_WAV_PATH LOCAL_REFERENCE_PATH;
         EHead (bucket_name env) p;
         EDownload (bucket_name env) p LOCAL_INSTRUMENTAL_PATH;
         EHead (bucket_name env) key;
         EDownload (bucket_name env) key vocals]
        [LOCAL_REFERENCE_PATH; LOCAL_INSTRUMENTAL_PATH; vocals]
    ∧ fs w' = fs w ∪ {[ LOCAL_REFERENCE_PATH ]} ∪ {[ LOCAL_INSTRUMENTAL_PATH ]} ∪ {[ vocals ]}.
Proof.
  intros Hfuel Hglobal. destruct fuel as [|fuel]; [lia|].
  destruct (step_wait_found env fuel (bucket_name env) LAMBDA_STATIC_REFERENCE_WAV_PATH 10 5 w)
    as (w1 & R1 & O1 & F1 & G1); [lia|apply Hhead|].
  destruct (step_download env (bucket_name env) LAMBDA_STATIC_REFERENCE_WAV_PATH
              LOCAL_REFERENCE_PATH w1) as (w2 & R2 & O2 & F2 & G2); [apply Hdown|].
  assert (Hread2 : read_instrumental_path w2 = (Ok p, w2)).
  { unfold read_instrumental_path. by rewrite G2, G1, Hglobal. }
  destruct (step_wait_found env fuel (bucket_name env) p 10 5 w2)
    as (w3 & R3 & O3 & F3 & G3); [lia|apply Hhead|].
  assert (Hread3 : read_instrumental_path w3 = (Ok p, w3)).
  { unfold read_instrumental_path. by rewrite G3, G2, G1, Hglobal. }
  destruct (step_download env (bucket_name env) p LOCAL_INSTRUMENTAL_PATH w3)
    as (w4 & R4 & O4 & F4 & G4); [apply Hdown|].
  destruct (step_wait_found env fuel (bucket_name env) key 10 5 w4)
    as (w5 & R5 & O5 & F5 & G5); [lia|apply Hhead|].
  destruct (step_download env (bucket_name env) key vocals w5)
    as (w6 & R6 & O6 & F6 & G6); [apply Hdown|].
  exists w6. split; [|split].
  - unfold stage_and_publish.
    rewrite (bind_ok _ _ _ _ _ R1). cbv beta iota.
    rewrite (bind_ok _ _ _ _ _ R2).
    rewrite (bind_ok _ _ _ _ _ Hread2).
    rewrite (bind_ok _ _ _ _ _ R3). cbv beta iota.
    erewrite (bind_ok _ _ w3 w4); [|by rewrite (bind_ok _ _ _ _ _ Hread3)].
    rewrite (bind_ok _ _ _ _ _ R5). cbv beta iota.
    by rewrite (bind_ok _ _ _ _ _ R6).
  - pose proof (observed_trans _ _ _ _ _ _ _ _ _ O1 O2) as H.
    pose proof (observed_trans _ _ _ _ _ _ _ _ _ H O3) as H3.
    pose proof (observed_trans _ _ _ _ _ _ _ _ _ H3 O4) as H4.
    pose proof (observed_trans _ _ _ _ _ _ _ _ _ H4 O5) as H5.
    exact (observed_trans _ _ _ _ _ _ _ _ _ H5 O6).
  - by rewrite F6, F5, F4, F3, F2, F1.
Qed.

(** The record of an accepted Job with all its assets staged. *)
Lemma loop_body_staged fuel sid0 b w f :
  (1 ≤ fuel)%nat →
  truthy (dict_get b "trackID") = true →
  TRACK_FILENAMES_get (dict_get b "trackID") = Some f →
  let sid := dict_get b "songID" in
  let tid := dict_get b "trackID" in
  ∃ w',
    loop_body env fuel sid0 (mkRecord (Some (JObject b))) w
    = (sid,
       ((process_files env (local_vocals_path sid) LOCAL_INSTRUMENTAL_PATH (local_final_file sid)
           LOCAL_REFERENCE_PATH;;
         upload_file_to_s3 env (local_final_file sid) (bucket_name env)
           ("matchering/final_song_" +:+ py_str sid +:+ "_" +:+ py_str tid +:+ ".wav");;
         notify_system_api env sid "matchering" "end"
           (Some ("final_song_" +:+ py_str sid +:+ "_" +:+ py_str tid +:+ ".wav")) None) w').1,
       ((process_files env (local_vocals_path sid) LOCAL_INSTRUMENTAL_PATH (local_final_file sid)
           LOCAL_REFERENCE_PATH;;
         upload_file_to_s3 env (local_final_file sid) (bucket_name env)
           ("matchering/final_song_" +:+ py_str sid +:+ "_" +:+ py_str tid +:+ ".wav");;
         notify_system_api env sid "matchering" "end"
           (Some ("final_song_" +:+ py_str sid +:+ "_" +:+ py_str tid +:+ ".wav")) None) w').2)
    ∧ observed w w' [start_event sid]
        [EHead (bucket_name env) LAMBDA_STATIC_REFERENCE_WAV_PATH;
         EDownload (bucket_name env) LAMBDA_STATIC_REFERENCE_WAV_PATH LOCAL_REFERENCE_PATH;
         EHead (bucket_name env) ("static/audio/" +:+ f);
         EDownload (bucket_name env) ("static/audio/" +:+ f) LOCAL_INSTRUMENTAL_PATH;
         EHead (bucket_name env) (lambda_vocals_path (dict_get b "fileName"));
         EDownload (bucket_name env) (lambda_vocals_path (dict_get b "fileName"))
           (local_vocals_path sid)]
        [LOCAL_REFERENCE_PATH; LOCAL_INSTRUMENTAL_PATH; local_vocals_path sid]
    ∧ local_vocals_path sid ∈ fs w'.
Proof.
  intros Hfuel Ht Hf sid tid. rewrite loop_body_object. fold sid tid.
  rewrite (process_job_resolved env fuel _ _ _ w f Ht Hf).
  destruct (step_notify env sid "matchering" "start" None None
              (set_global ("static/audio/" +:+ f) w)) as (w1 & R1 & O1 & F1 & G1).
  destruct (stage_and_publish_staged fuel sid tid (local_final_file sid)
              (local_vocals_path sid) (lambda_vocals_path (dict_get b "fileName")) w1
              ("static/audio/" +:+ f) Hfuel) as (w2 & R2 & O2 & F2); [by rewrite G1|].
  rewrite (bind_ok _ _ _ _ _ R1). cbv beta. fold tid. rewrite R2.
  exists w2. split; [done|]. split.
  - exact (observed_trans _ _ _ _ _ _ _ _ _ O1 O2).
  - rewrite F2. apply elem_of_union. right. by apply elem_of_singleton.
Qed.
End LateFailures.

(** X25.  When the mastering fails, the Job ends there: the final file is
    not uploaded, no [end] event is sent, and the error StatusEvent carries
    the message of the mastering's exception. *)
Theorem mastering_failure_stops_before_upload (env : Env) (fuel : nat) (b : gmap string pyval)
    (w : World) (f : string) (e : exn) :
  (1 ≤ fuel)%nat →
  (∀ u bk k, head_object env u bk k = None) →
  (∀ u bk k p, download_file env u bk k p = None) →
  (∀ u p, ∃ seg, from_wav env u p = inr seg) →
  (∀ u seg, export_wav env u seg = None) →
  (∀ u seg r o, mg_process env u seg r o = Some e) →
  truthy (dict_get b "trackID") = true →
  TRACK_FILENAMES_get (dict_get b "trackID") = Some f →
  let sid := dict_get b "songID" in
  ∃ w' sfx,
    lambda_handler env fuel (mkEvent (Some [mkRecord (Some (JObject b))])) w = (Ok tt, w')
    ∧ trace w' = trace w ++ sfx
    ∧ posts sfx = [start_event sid; error_event sid e]
    ∧ s3_calls sfx
      = [EHead (bucket_name env) LAMBDA_STATIC_REFERENCE_WAV_PATH;
         EDownload (bucket_name env) LAMBDA_STATIC_REFERENCE_WAV_PATH LOCAL_REFERENCE_PATH;
         EHead (bucket_name env) ("static/audio/" +:+ f);
         EDownload (bucket_name env) ("static/audio/" +:+ f) LOCAL_INSTRUMENTAL_PATH;
         EHead (bucket_name env) (lambda_vocals_path (dict_get b "fileName"));
         EDownload (bucket_name env) (lambda_vocals_path (dict_get b "fileName"))
           (local_vocals_path sid)].
Proof.
  intros Hfuel Hhead Hdown Hwav Hexp Hmg Ht Hf sid.
  set (ev := mkEvent (Some [mkRecord (Some (JObject b))])).
  destruct (loop_body_staged env Hhead Hdown fuel (PInt 0) b (prelude env ev w) f Hfuel Ht Hf)
    as (w1 & Hrun & (body & Hbody & Hp & Hs & Hw) & _).
  fold sid in Hrun, Hp, Hs.
  assert (Hpf : ∃ w2 tail,
            process_files env (local_vocals_path sid) LOCAL_INSTRUMENTAL_PATH
              (local_final_file sid) LOCAL_REFERENCE_PATH w1 = (Raise e, w2)
            ∧ trace w2 = trace w1 ++ tail
            ∧ posts tail = [] ∧ s3_calls tail = []).
  { unfold process_files, mix_tracks, try_except, mbind, M_bind, bind, AudioSegment_from_wav,
      call, logger_info, logger_error, emit, ret, raise.
    match goal with |- context [from_wav env ?u (local_vocals_path sid)] =>
      destruct (Hwav u (local_vocals_path sid)) as [seg1 ->] end.
    cbv beta iota.
    match goal with |- context [from_wav env ?u LOCAL_INSTRUMENTAL_PATH] =>
      destruct (Hwav u LOCAL_INSTRUMENTAL_PATH) as [seg2 ->] end.
    cbv beta iota. rewrite Hexp. cbv beta iota. rewrite Hmg.
    eexists. eexists. split; [done|]. simpl. rewrite <- !app_assoc. split; [done|]. done. }
  destruct Hpf as (w2 & tail & Hpf & Htail & Hpt & Hst).
  rewrite (bind_raise _ _ _ _ _ Hpf) in Hrun. cbn [fst snd] in Hrun.
  destruct (lambda_handler_observed env fuel ev w sid (Raise e) w2 (body ++ tail))
    as (w' & sfx & ? & ? & Hposts & Hcalls & _); [|done| |].
  { unfold ev. by rewrite try_block_one. }
  { by rewrite Htail, Hbody, app_assoc. }
  exists w', sfx. split; [done|]. split; [done|].
  rewrite Hposts, Hcalls, posts_app, s3_calls_app, Hp, Hs, Hpt, Hst.
  by rewrite !app_nil_r.
Qed.

(** X26.  When the upload fails, no [end] event is sent and the error
    StatusEvent carries the message of the upload's exception; the vocals
    and the mastered final file of the Job are still in the local file
    system when the handler returns. *)
Theorem upload_failure_leaves_final_file (env : Env) (fuel : nat) (b : gmap string pyval)
    (w : World) (f : string) (e : exn) :
  (2 ≤ fuel)%nat →
  (∀ u bk k, head_object env u bk k = None) →
  (∀ u bk k p, download_file env u bk k p = None) →
  (∀ u p, ∃ seg, from_wav env u p = inr seg) →
  (∀ u seg, export_wav env u seg = None) →
  (∀ u seg r o, mg_process env u seg r o = None) →
  (∀ u l bk k, upload_file env u l bk k = Some e) →
  truthy (dict_get b "trackID") = true →
  TRACK_FILENAMES_get (dict_get b "trackID") = Some f →
  let sid := dict_get b "songID" in
  ∃ w' sfx,
    lambda_handler env fuel (mkEvent (Some [mkRecord (Some (JObject b))])) w = (Ok tt, w')
    ∧ trace w' = trace w ++ sfx
    ∧ posts sfx = [start_event sid; error_event sid e]
    ∧ local_vocals_path sid ∈ fs w'
    ∧ local_final_file sid ∈ fs w'.
Proof.
  intros Hfuel Hhead Hdown Hwav Hexp Hmg Hup Ht Hf sid.
  set (ev := mkEvent (Some [mkRecord (Some (JObject b))])).
  destruct (loop_body_staged env Hhead Hdown fuel (PInt 0) b (prelude env ev w) f
              ltac:(lia) Ht Hf) as (w1 & Hrun & (body & Hbody & Hp & Hs & Hw) & Hvoc).
  fold sid in Hrun, Hp, Hvoc.
  destruct (step_process_files env (local_vocals_path sid) LOCAL_INSTRUMENTAL_PATH
              (local_final_file sid) LOCAL_REFERENCE_PATH w1 Hwav Hexp Hmg)
    as (w2 & R2 & (s2 & E2 & P2 & _) & F2 & _).
  pose proof (upload_file_to_s3_transparent_aux env (local_final_file sid) (bucket_name env)
                ("matchering/final_song_" +:+ py_str sid +:+ "_"
                 +:+ py_str (dict_get b "trackID") +:+ ".wav") w2) as Hu.
  rewrite Hup in Hu. destruct Hu as [Hu1 Hu2].
  pose proof (keeps_upload env (local_vocals_path sid) (local_final_file sid) (bucket_name env)
                ("matchering/final_song_" +:+ py_str sid +:+ "_"
                 +:+ py_str (dict_get b "trackID") +:+ ".wav") w2) as Kv.
  pose proof (keeps_upload env (local_final_file sid) (local_final_file sid) (bucket_name env)
                ("matchering/final_song_" +:+ py_str sid +:+ "_"
                 +:+ py_str (dict_get b "trackID") +:+ ".wav") w2) as Kf.
  destruct (upload_file_to_s3 env (local_final_file sid) (bucket_name env) _ w2)
    as [ru w3] eqn:Hupl.
  cbn [fst snd] in *. subst ru.
  rewrite (bind_ok _ _ _ _ _ R2), (bind_raise _ _ _ _ _ Hupl) in Hrun. cbn [fst snd] in Hrun.
  destruct (lambda_handler_observed env fuel ev w sid (Raise e) w3
              (body ++ s2 ++ [ELog INFO ("Uploading " +:+ local_final_file sid +:+ " to s3://"
                                        +:+ opt_str (bucket_name env) +:+ "/"
                                        +:+ ("matchering/final_song_" +:+ py_str sid +:+ "_"
                                             +:+ py_str (dict_get b "trackID") +:+ ".wav")
                                        +:+ "...");
                              EUpload (local_final_file sid) (bucket_name env)
                                ("matchering/final_song_" +:+ py_str sid +:+ "_"
                                 +:+ py_str (dict_get b "trackID") +:+ ".wav");
                              ELog ERROR ("Error uploading file to S3: " +:+ exn_str e)]))
    as (w' & sfx & Hh & ? & Hposts & _); [|done| |].
  { unfold ev. by rewrite try_block_one. }
  { by rewrite Hu2, E2, Hbody, <- !app_assoc. }
  exists w', sfx. split; [done|]. split; [done|]. split.
  { rewrite Hposts, !posts_app, Hp, P2. done. }
  destruct (lambda_handler_after_try env fuel ev w sid (Raise e) w3)
    as (w4 & report & Hh' & _ & Hfs & _); [|done|].
  { unfold ev. by rewrite try_block_one. }
  rewrite Hh in Hh'. injection Hh' as ->.
  destruct (local_vocals_path_not_shared sid), (local_final_file_not_shared sid).
  split; apply finally_block_keeps; try done; rewrite Hfs.
  - apply Kv. rewrite F2. apply elem_of_union. by left.
  - apply Kf. rewrite F2. apply elem_of_union. right. by apply elem_of_singleton.
Qed.

Lemma final_name_determines_job_witness : (42 = 42 ∧ 2 = 2)%Z.
Proof.
  apply (proj2 (final_name_determines_job 42 2 42 2)). reflexivity.
Defined.

Lemma mastering_failure_stops_before_upload_witness :
  ∃ w' sfx,
    lambda_handler mastering_fails_env 2 (one_job (PInt 42) (PStr "v42.wav") (PInt 2)) empty_world
    = (Ok tt, w')
    ∧ trace w' = trace empty_world ++ sfx
    ∧ posts sfx = [start_event (PInt 42);
                   error_event (PInt 42) (OtherException "ModuleError" "Unknown error")].
Proof.
  destruct (mastering_failure_stops_before_upload mastering_fails_env 2
              (job_body (PInt 42) (PStr "v42.wav") (PInt 2)) empty_world "norteno_track2.wav"
              (OtherException "ModuleError" "Unknown error"))
    as (w' & sfx & H1 & H2 & H3 & _);
    [lia|by intros|by intros|by intros; eexists|by intros|by intros|reflexivity|reflexivity|].
  by exists w', sfx.
Defined.

Lemma upload_failure_leaves_final_file_witness :
  ∃ w' sfx,
    lambda_handler upload_fails_env 2 (one_job (PInt 42) (PStr "v42.wav") (PInt 2)) empty_world
    = (Ok tt, w')
    ∧ trace w' = trace empty_world ++ sfx
    ∧ posts sfx = [start_event (PInt 42);
                   error_event (PInt 42) (OtherException "S3UploadFailedError" "Access Denied")]
    ∧ "/tmp/vocals_42.wav" ∈ fs w'
    ∧ "/tmp/final_song_42.wav" ∈ fs w'.
Proof.
  apply (upload_failure_leaves_final_file upload_fails_env 2
           (job_body (PInt 42) (PStr "v42.wav") (PInt 2)) empty_world "norteno_track2.wav"
           (OtherException "S3UploadFailedError" "Access Denied"));
    [lia|by intros|by intros|by intros; eexists|by intros|by intros|by intros
    |reflexivity|reflexivity].
Defined.
